(** * ne-semver: the [SemVer] class of dist/semver.browser.js

    A shallow embedding of the class and of the part of the host language
    it runs on (primitive values, their conversions, the arithmetic
    operators, the regular-expression matcher, and objects as far as
    they are converted to primitive values), followed by the properties
    of the class.

    Strings are lists of characters; numbers are IEEE 754 binary64 values
    ([spec_float] at precision 53); a call that may throw returns a
    [completion]. *)

From Stdlib Require Import Ascii String List ZArith Lia Bool.
From Stdlib Require Import Floats.SpecFloat.
From Stdlib Require DecimalFacts DecimalPos DecimalN DecimalZ.
Import ListNotations.

Open Scope string_scope.
Open Scope list_scope.

(** A string of the program: the sequence of its characters.  Literals
    are written as usual and read through the coercion below. *)
Definition str := list ascii.
Coercion list_ascii_of_string : string >-> list.

(* ================================================================== *)
(** ** Regular expressions *)
(* ================================================================== *)

Module RegExp.

(** The fragment of the pattern language the class uses: the two anchors,
    single characters, character classes given by ranges, sequence,
    ordered alternative, the greedy quantifiers [*], [+] and [?], and
    numbered capturing groups (a non-capturing group is plain nesting). *)
Inductive regex : Type :=
| Bol                                   (* ^ *)
| Eol                                   (* $ *)
| Chr (c : ascii)
| Cls (ranges : list (ascii * ascii))   (* [a-zA-Z-] *)
| Cat (r1 r2 : regex)
| Alt (r1 r2 : regex)                   (* r1|r2 *)
| Star (r : regex)                      (* r* *)
| Plus (r : regex)                      (* r+ *)
| Opt (r : regex)                       (* r? *)
| Grp (n : nat) (r : regex).            (* ( r ), the n-th group *)

(** The array a match produces: entry 0 is the matched text, entry [n]
    the text of group [n], [None] where the group took no part. *)
Definition captures := list (option str).

Fixpoint set_nth {A} (n : nat) (x : A) (l : list A) : list A :=
  match n, l with
  | O, _ :: t => x :: t
  | S n', h :: t => h :: set_nth n' x t
  | _, [] => []
  end.

Definition in_range (c : ascii) (r : ascii * ascii) : bool :=
  (nat_of_ascii (fst r) <=? nat_of_ascii c)%nat &&
  (nat_of_ascii c <=? nat_of_ascii (snd r))%nat.

Definition in_class (c : ascii) (ranges : list (ascii * ascii)) : bool :=
  existsb (in_range c) ranges.

(** The groups opened inside a pattern: a quantifier forgets them when it
    starts an iteration. *)
Fixpoint groups (r : regex) : list nat :=
  match r with
  | Bol | Eol | Chr _ | Cls _ => []
  | Cat r1 r2 | Alt r1 r2 => groups r1 ++ groups r2
  | Star r1 | Plus r1 | Opt r1 => groups r1
  | Grp n r1 => n :: groups r1
  end.

Definition clear (gs : list nat) (c : captures) : captures :=
  fold_right (fun n acc => set_nth n None acc) c gs.

(** Text consumed between two suffixes of the same input. *)
Definition consumed (s s' : str) : str := firstn (length s - length s') s.

Section Matcher.
(** Length of the whole input: [^] holds only where all of it remains. *)
Variable whole : nat.

Definition cont := str -> captures -> option captures.
Definition matcher := str -> captures -> cont -> option captures.

(** Greedy iteration: one more round of [m] first, the rest of the
    pattern otherwise; a round that consumes nothing is abandoned. *)
Fixpoint repeat_matcher (m : matcher) (gs : list nat) (fuel : nat)
    (s : str) (c : captures) (k : cont) : option captures :=
  match fuel with
  | O => k s c
  | S fuel' =>
      match m s (clear gs c)
              (fun s' c' =>
                 if (length s' <? length s)%nat
                 then repeat_matcher m gs fuel' s' c' k
                 else None) with
      | Some res => Some res
      | None => k s c
      end
  end.

(** Backtracking matcher in continuation-passing style: [mtch r s c k]
    matches [r] at the front of [s] and hands the rest to [k]; the first
    way that makes [k] succeed wins. *)
Fixpoint mtch (r : regex) (s : str) (c : captures) (k : cont)
    {struct r} : option captures :=
  match r with
  | Bol => if (length s =? whole)%nat then k s c else None
  | Eol => match s with [] => k s c | _ :: _ => None end
  | Chr a =>
      match s with
      | x :: s' => if Ascii.eqb x a then k s' c else None
      | [] => None
      end
  | Cls ranges =>
      match s with
      | x :: s' => if in_class x ranges then k s' c else None
      | [] => None
      end
  | Cat r1 r2 => mtch r1 s c (fun s' c' => mtch r2 s' c' k)
  | Alt r1 r2 =>
      match mtch r1 s c k with
      | Some res => Some res
      | None => mtch r2 s c k
      end
  | Star r1 => repeat_matcher (mtch r1) (groups r1) (length s) s c k
  | Plus r1 =>
      mtch r1 s (clear (groups r1) c)
        (fun s' c' =>
           repeat_matcher (mtch r1) (groups r1) (length s') s' c' k)
  | Opt r1 =>
      match mtch r1 s (clear (groups r1) c)
              (fun s' c' =>
                 if (length s' <? length s)%nat then k s' c' else None) with
      | Some res => Some res
      | None => k s c
      end
  | Grp n r1 =>
      mtch r1 s c (fun s' c' => k s' (set_nth n (Some (consumed s s')) c'))
  end.
End Matcher.

(** Number of capture slots of a pattern: the match itself and its groups. *)
Definition slots (r : regex) : nat := S (fold_right Nat.max 0%nat (groups r)).

(** One attempt at a given position: [s] is what remains of the input. *)
Definition match_at (r : regex) (whole : nat) (s : str) : option captures :=
  mtch whole r s (repeat None (slots r))
    (fun s' c' => Some (set_nth 0 (Some (consumed s s')) c')).

(** [exec] without the global or sticky flag: the leftmost position at
    which the pattern matches, scanning from the start of the input. *)
Fixpoint exec_from (r : regex) (whole : nat) (s : str) : option captures :=
  match match_at r whole s with
  | Some res => Some res
  | None =>
      match s with
      | [] => None
      | _ :: s' => exec_from r whole s'
      end
  end.

Definition exec (r : regex) (s : str) : option captures :=
  exec_from r (length s) s.

(** [\d] *)
Definition digit : regex := Cls [("0"%char, "9"%char)].

End RegExp.

(* ================================================================== *)
(** ** The host language: numbers *)
(* ================================================================== *)

Module Host.

(** What a call can throw. *)
Inductive error : Type :=
| TypeError (message : str)
| RangeError (message : str).

(** Outcome of a call: a value, or an exception on its way up. *)
Inductive completion (A : Type) : Type :=
| Normal (a : A)
| Throw (e : error).
Arguments Normal {A} a.
Arguments Throw {A} e.

Definition bind {A B} (m : completion A) (f : A -> completion B)
  : completion B :=
  match m with
  | Normal a => f a
  | Throw e => Throw e
  end.

Declare Scope completion_scope.
Delimit Scope completion_scope with completion.
Notation "x <- m ;; f" := (bind m (fun x => f))
  (at level 61, m at next level, right associativity) : completion_scope.
Open Scope completion_scope.

(** *** Number: IEEE 754 binary64 *)

Definition number := spec_float.
Definition prec : Z := 53.
Definition emax : Z := 1024.

Definition NaN : number := S754_nan.
Definition Infinity : number := S754_infinity false.

Definition num_add : number -> number -> number := SFadd prec emax.
Definition num_sub : number -> number -> number := SFsub prec emax.
Definition num_mul : number -> number -> number := SFmul prec emax.
Definition num_div : number -> number -> number := SFdiv prec emax.
Definition num_eqb : number -> number -> bool := SFeqb.

(** The number nearest to an integer (ties to even). *)
Definition number_of_Z (z : Z) : number := binary_normalize prec emax z 0 false.

Definition num_is_nan (x : number) : bool :=
  match x with S754_nan => true | _ => false end.

Definition num_is_finite (x : number) : bool :=
  match x with S754_nan | S754_infinity _ => false | _ => true end.

(** The bound of the "safe" integers, those every one of which a number
    holds exactly: 2^53. *)
Definition two53 : Z := 9007199254740992.

(** The integer a finite number is, when it is one. *)
Definition integer_value (x : number) : option Z :=
  match x with
  | S754_zero _ => Some 0%Z
  | S754_finite s m e =>
      if (0 <=? e)%Z then Some (cond_Zopp s (Zpos m * 2 ^ e))
      else if (Zpos m mod 2 ^ (- e) =? 0)%Z
           then Some (cond_Zopp s (Zpos m / 2 ^ (- e)))
           else None
  | _ => None
  end.

(** *** Decimal digits *)

Definition is_digit (c : ascii) : bool :=
  RegExp.in_range c ("0"%char, "9"%char).

Definition cons_digit (c : ascii) (d : Decimal.uint) : Decimal.uint :=
  match c with
  | "0" => Decimal.D0 d | "1" => Decimal.D1 d | "2" => Decimal.D2 d
  | "3" => Decimal.D3 d | "4" => Decimal.D4 d | "5" => Decimal.D5 d
  | "6" => Decimal.D6 d | "7" => Decimal.D7 d | "8" => Decimal.D8 d
  | _ => Decimal.D9 d
  end%char.

Definition uint_of_digits (s : str) : Decimal.uint :=
  fold_right cons_digit Decimal.Nil s.

Fixpoint digits_of_uint (d : Decimal.uint) : str :=
  match d with
  | Decimal.Nil => []
  | Decimal.D0 d' => "0"%char :: digits_of_uint d'
  | Decimal.D1 d' => "1"%char :: digits_of_uint d'
  | Decimal.D2 d' => "2"%char :: digits_of_uint d'
  | Decimal.D3 d' => "3"%char :: digits_of_uint d'
  | Decimal.D4 d' => "4"%char :: digits_of_uint d'
  | Decimal.D5 d' => "5"%char :: digits_of_uint d'
  | Decimal.D6 d' => "6"%char :: digits_of_uint d'
  | Decimal.D7 d' => "7"%char :: digits_of_uint d'
  | Decimal.D8 d' => "8"%char :: digits_of_uint d'
  | Decimal.D9 d' => "9"%char :: digits_of_uint d'
  end.

Definition char_of_digit (d : DecimalFacts.digits) : ascii :=
  match d with
  | DecimalFacts.d0 => "0" | DecimalFacts.d1 => "1" | DecimalFacts.d2 => "2"
  | DecimalFacts.d3 => "3" | DecimalFacts.d4 => "4" | DecimalFacts.d5 => "5"
  | DecimalFacts.d6 => "6" | DecimalFacts.d7 => "7" | DecimalFacts.d8 => "8"
  | DecimalFacts.d9 => "9"
  end%char.

(** Value of a string of decimal digits, and the digits of a natural
    number (no leading zero, "0" for zero). *)
Definition decimal_value (s : str) : Z := Z.of_N (N.of_uint (uint_of_digits s)).
Definition decimal_digits (z : Z) : str := digits_of_uint (N.to_uint (Z.to_N z)).

(** Value of a string of digits in radix 2, 8 or 16. *)
Definition radix_digit (c : ascii) : option Z :=
  let n := Z.of_nat (nat_of_ascii c) in
  if RegExp.in_range c ("0"%char, "9"%char) then Some (n - 48)%Z
  else if RegExp.in_range c ("a"%char, "z"%char) then Some (n - 87)%Z
  else if RegExp.in_range c ("A"%char, "Z"%char) then Some (n - 55)%Z
  else None.

Definition is_radix_digit (radix : Z) (c : ascii) : bool :=
  match radix_digit c with
  | Some v => (v <? radix)%Z
  | None => false
  end.

Definition radix_value (radix : Z) (s : str) : Z :=
  fold_left (fun acc c =>
               match radix_digit c with
               | Some v => (acc * radix + v)%Z
               | None => acc
               end) s 0%Z.

(** Longest prefix of characters that satisfy [p], and the rest. *)
Fixpoint span (p : ascii -> bool) (s : str) : str * str :=
  match s with
  | c :: s' =>
      if p c then let '(a, b) := span p s' in (c :: a, b) else ([], s)
  | [] => ([], [])
  end.

(** White space: TAB, LF, VT, FF, CR, SP and NBSP. *)
Definition is_space (c : ascii) : bool :=
  let n := nat_of_ascii c in
  ((9 <=? n) && (n <=? 13) || (n =? 32) || (n =? 160))%nat.

Fixpoint trim_start (s : str) : str :=
  match s with
  | c :: s' => if is_space c then trim_start s' else s
  | [] => []
  end.

Definition trim (s : str) : str := rev (trim_start (rev (trim_start s))).

Fixpoint starts_with (p s : str) : option str :=
  match p, s with
  | [], _ => Some s
  | a :: p', b :: s' => if Ascii.eqb a b then starts_with p' s' else None
  | _ :: _, [] => None
  end.

(** *** Decimal text to number *)

(** The number nearest to [m * 10^q]. *)
Definition number_of_decimal (m : Z) (q : Z) : number :=
  match m with
  | Z0 => S754_zero false
  | Zpos p =>
      if (0 <=? q)%Z then number_of_Z (m * 10 ^ q)
      else num_div (S754_finite false p 0)
                   (S754_finite false (Z.to_pos (10 ^ (- q))) 0)
  | Zneg p =>
      if (0 <=? q)%Z then number_of_Z (m * 10 ^ q)
      else num_div (S754_finite true p 0)
                   (S754_finite false (Z.to_pos (10 ^ (- q))) 0)
  end.

(** *** Number to text (Number::toString, radix 10)

    For a positive finite number the rule takes integers [n], [k], [s]
    with [k >= 1] and [10^(k-1) <= s < 10^k] such that [s * 10^(n-k)]
    reads back as the number, [k] as small as possible and, among those,
    [s * 10^(n-k)] as near the number as possible; the digits of [s] are
    then laid out according to [n]. *)

(** A positive finite number as a fraction. *)
Definition fraction_of (m : positive) (e : Z) : Z * Z :=
  if (0 <=? e)%Z then (Zpos m * 2 ^ e, 1)%Z else (Zpos m, 2 ^ (- e))%Z.

(** [scale10 v q] is [v * 10^q]. *)
Definition scale10 (v : Z * Z) (q : Z) : Z * Z :=
  let '(a, b) := v in
  if (0 <=? q)%Z then (a * 10 ^ q, b)%Z else (a, b * 10 ^ (- q))%Z.

Definition frac_ltb (v w : Z * Z) : bool :=
  (fst v * snd w <? fst w * snd v)%Z.

Definition frac_dist (v w : Z * Z) : Z * Z :=
  (Z.abs (fst v * snd w - fst w * snd v), snd v * snd w)%Z.

(** The least [n] from [lo] on with [v < 10^n]. *)
Fixpoint magnitude (fuel : nat) (lo : Z) (v : Z * Z) : Z :=
  match fuel with
  | O => lo
  | S fuel' =>
      if frac_ltb v (scale10 (1, 1)%Z lo) then lo
      else magnitude fuel' (lo + 1)%Z v
  end.

(** A candidate [s * 10^(n-k)] with [k] digits: in range and read back as
    the number itself. *)
Definition candidate_ok (x : number) (k : Z) (ns : Z * Z) : bool :=
  let '(n, s) := ns in
  (10 ^ (k - 1) <=? s)%Z && (s <? 10 ^ k)%Z &&
  match x, number_of_decimal s (n - k) with
  | S754_finite _ m e, S754_finite _ m' e' => Pos.eqb m m' && Z.eqb e e'
  | _, _ => false
  end.

(** The better of two candidates: the nearer to [v]; the even one when
    they are as near. *)
Definition nearer (v : Z * Z) (k : Z) (a b : Z * Z) : Z * Z :=
  let da := frac_dist (scale10 (snd a, 1%Z) (fst a - k)) v in
  let db := frac_dist (scale10 (snd b, 1%Z) (fst b - k)) v in
  if frac_ltb da db then a
  else if frac_ltb db da then b
  else if Z.even (snd a) then a else b.

Definition candidates (v : Z * Z) (n0 k : Z) : list (Z * Z) :=
  flat_map (fun n =>
              let f := (let '(a, b) := scale10 v (k - n) in a / b)%Z in
              [(n, f); (n, f + 1)%Z])
           [n0; (n0 + 1)%Z].

(** Shortest digits: the least [k], from [k] on, with a candidate. *)
Fixpoint shortest (fuel : nat) (x : number) (v : Z * Z) (n0 k : Z)
  : Z * Z * Z :=
  match filter (candidate_ok x k) (candidates v n0 k) with
  | c :: cs =>
      let '(n, s) := fold_left (nearer v k) cs c in (n, k, s)
  | [] =>
      match fuel with
      | O => (n0, k, (let '(a, b) := scale10 v (k - n0) in a / b)%Z)
      | S fuel' => shortest fuel' x v n0 (k + 1)%Z
      end
  end.

Definition zeros (n : Z) : str := repeat "0"%char (Z.to_nat n).

(** The text of [s * 10^(n-k)], [s] having the [k] digits [ds]. *)
Definition format_decimal (n k : Z) (ds : str) : str :=
  if ((k <=? n) && (n <=? 21))%Z then ds ++ zeros (n - k)
  else if ((0 <? n) && (n <=? 21))%Z then
    firstn (Z.to_nat n) ds ++ "." ++ skipn (Z.to_nat n) ds
  else if ((-6 <? n) && (n <=? 0))%Z then
    "0." ++ zeros (- n) ++ ds
  else
    let e := (n - 1)%Z in
    let es := (if (e <? 0)%Z then "-" else "+") ++ decimal_digits (Z.abs e) in
    if (k =? 1)%Z then ds ++ "e" ++ es
    else firstn 1 ds ++ "." ++ skipn 1 ds ++ "e" ++ es.

(** Position of the decimal point: the least [n] with [v < 10^n]. *)
Definition magnitude_of (v : Z * Z) : Z := magnitude 700 (-340)%Z v.

(** The shortest digits that read back as the number, laid out. *)
Definition shortest_to_string (m : positive) (e : Z) : str :=
  let v := fraction_of m e in
  let '(n, k, s) :=
    shortest 17 (binary_round prec emax false m e) v (magnitude_of v) 1 in
  format_decimal n k (decimal_digits s).

Definition NumberToString (x : number) : str :=
  match x with
  | S754_nan => "NaN"
  | S754_zero _ => "0"
  | S754_infinity s => (if s then "-" else []) ++ "Infinity"
  | S754_finite s m e => (if s then "-" else []) ++ shortest_to_string m e
  end.

(** *** Text to number *)

Definition signed (neg : bool) (x : number) : number :=
  if neg then SFopp x else x.

(** Optional sign in front of a literal. *)
Definition split_sign (s : str) : bool * str :=
  match s with
  | "-"%char :: s' => (true, s')
  | "+"%char :: s' => (false, s')
  | _ => (false, s)
  end.

(** Exponent part of a decimal literal; [None] when ill-formed. *)
Definition exponent_part (s : str) : option Z :=
  match s with
  | [] => Some 0%Z
  | c :: s' =>
      if (Ascii.eqb c "e" || Ascii.eqb c "E")%bool then
        let '(neg, ds) := split_sign s' in
        match ds with
        | [] => None
        | _ :: _ =>
            if forallb is_digit ds
            then Some (if neg then (- decimal_value ds)%Z else decimal_value ds)
            else None
        end
      else None
  end.

(** A signed decimal literal: digits, fraction, exponent, or Infinity. *)
Definition decimal_literal (s : str) : number :=
  let '(neg, u) := split_sign s in
  match starts_with "Infinity" u with
  | Some [] => signed neg Infinity
  | _ =>
      let '(ip, r1) := span is_digit u in
      let '(fp, r2) :=
        match r1 with
        | "."%char :: r => span is_digit r
        | _ => ([], r1)
        end in
      match ip ++ fp with
      | [] => NaN
      | ds =>
          match exponent_part r2 with
          | Some e =>
              signed neg
                (number_of_decimal (decimal_value ds) (e - Z.of_nat (length fp)))
          | None => NaN
          end
      end
  end.

(** An unsigned literal in radix 2, 8 or 16, after its prefix. *)
Definition radix_literal (radix : Z) (ds : str) : number :=
  match ds with
  | [] => NaN
  | _ :: _ =>
      if forallb (is_radix_digit radix) ds
      then number_of_Z (radix_value radix ds) else NaN
  end.

(** StringToNumber: the number a string denotes, [NaN] when none. *)
Definition StringToNumber (s : str) : number :=
  match trim s with
  | [] => S754_zero false
  | "0"%char :: c :: ds =>
      if (Ascii.eqb c "x" || Ascii.eqb c "X")%bool then radix_literal 16 ds
      else if (Ascii.eqb c "o" || Ascii.eqb c "O")%bool then radix_literal 8 ds
      else if (Ascii.eqb c "b" || Ascii.eqb c "B")%bool then radix_literal 2 ds
      else decimal_literal (trim s)
  | t => decimal_literal t
  end.

(** StringToBigInt: the integer a string denotes, if any. *)
Definition StringToBigInt (s : str) : option Z :=
  match trim s with
  | [] => Some 0%Z
  | "0"%char :: c :: ds =>
      let radix :=
        if (Ascii.eqb c "x" || Ascii.eqb c "X")%bool then Some 16%Z
        else if (Ascii.eqb c "o" || Ascii.eqb c "O")%bool then Some 8%Z
        else if (Ascii.eqb c "b" || Ascii.eqb c "B")%bool then Some 2%Z
        else None in
      match radix with
      | Some r =>
          match ds with
          | [] => None
          | _ :: _ =>
              if forallb (is_radix_digit r) ds
              then Some (radix_value r ds) else None
          end
      | None =>
          if forallb is_digit (trim s) then Some (decimal_value (trim s))
          else None
      end
  | t =>
      let '(neg, ds) := split_sign t in
      match ds with
      | [] => None
      | _ :: _ =>
          if forallb is_digit ds
          then Some (if neg then (- decimal_value ds)%Z else decimal_value ds)
          else None
      end
  end.

(** [parseInt] of a string, no radix given: leading white space and a sign
    are skipped, a [0x] prefix selects radix 16, the digits that follow are
    read up to the first character that is not one. *)
Definition parseInt_string (s : str) : number :=
  let '(neg, u) := split_sign (trim_start s) in
  let '(radix, v) :=
    match u with
    | "0"%char :: c :: v' =>
        if (Ascii.eqb c "x" || Ascii.eqb c "X")%bool
        then (16%Z, v') else (10%Z, u)
    | _ => (10%Z, u)
    end in
  let '(ds, _) := span (is_radix_digit radix) v in
  match ds with
  | [] => NaN
  | _ :: _ =>
      let n := if (radix =? 10)%Z then decimal_value ds
               else radix_value radix ds in
      if (n =? 0)%Z then S754_zero neg
      else number_of_Z (if neg then - n else n)
  end.

(* ================================================================== *)
(** ** The host language: values *)
(* ================================================================== *)

(** The primitive values.  An argument that is an object comes with
    [Any.any] below, by way of its conversion to a primitive value. *)
Inductive value : Type :=
| VUndefined
| VNull
| VBool (b : bool)
| VNum (x : number)
| VStr (s : str)
| VSymbol (id : nat) (description : option str)
| VBigInt (z : Z).

Definition BigIntToString (z : Z) : str :=
  (if (z <? 0)%Z then "-" else []) ++ decimal_digits (Z.abs z).

(** [String(v)]: the text of any primitive value; it never throws. *)
Definition String_ (v : value) : str :=
  match v with
  | VUndefined => "undefined"
  | VNull => "null"
  | VBool true => "true"
  | VBool false => "false"
  | VNum x => NumberToString x
  | VStr s => s
  | VSymbol _ d =>
      "Symbol(" ++ match d with Some t => t | None => [] end ++ ")"
  | VBigInt z => BigIntToString z
  end.

(** ToString, the implicit conversion (template literals, [+]): as
    [String] but a symbol is refused. *)
Definition ToString (v : value) : completion str :=
  match v with
  | VSymbol _ _ =>
      Throw (TypeError "Cannot convert a Symbol value to a string")
  | _ => Normal (String_ v)
  end.

(** ToNumber, the implicit conversion ([isFinite], [-], [*], [/]). *)
Definition ToNumber (v : value) : completion number :=
  match v with
  | VUndefined => Normal NaN
  | VNull => Normal (S754_zero false)
  | VBool true => Normal (number_of_Z 1)
  | VBool false => Normal (S754_zero false)
  | VNum x => Normal x
  | VStr s => Normal (StringToNumber s)
  | VSymbol _ _ =>
      Throw (TypeError "Cannot convert a Symbol value to a number")
  | VBigInt _ =>
      Throw (TypeError "Cannot convert a BigInt value to a number")
  end.

(** [Number(v)]: as ToNumber, but a BigInt is converted. *)
Definition Number_ (v : value) : completion number :=
  match v with
  | VBigInt z => Normal (number_of_Z z)
  | _ => ToNumber v
  end.

(** ToBoolean: truthiness. *)
Definition ToBoolean (v : value) : bool :=
  match v with
  | VUndefined | VNull => false
  | VBool b => b
  | VNum (S754_zero _) | VNum S754_nan => false
  | VNum _ => true
  | VStr [] => false
  | VStr (_ :: _) => true
  | VSymbol _ _ => true
  | VBigInt z => negb (z =? 0)%Z
  end.

Definition isFinite (v : value) : completion bool :=
  x <- ToNumber v ;; Normal (num_is_finite x).

Definition isNaN (v : value) : completion bool :=
  x <- ToNumber v ;; Normal (num_is_nan x).

Definition parseInt (v : value) : completion number :=
  s <- ToString v ;; Normal (parseInt_string s).

Definition str_eqb (a b : str) : bool :=
  if list_eq_dec ascii_dec a b then true else false.

(** A number and a BigInt hold the same mathematical value. *)
Definition num_eq_Z (x : number) (z : Z) : bool :=
  match integer_value x with
  | Some z' => (z' =? z)%Z
  | None => false
  end.

(** [a == b], loose equality, on primitive values. *)
Definition loose_eq (a b : value) : bool :=
  match a, b with
  | (VUndefined | VNull), (VUndefined | VNull) => true
  | VBool x, VBool y => Bool.eqb x y
  | VNum x, VNum y => num_eqb x y
  | VStr x, VStr y => str_eqb x y
  | VSymbol i _, VSymbol j _ => (i =? j)%nat
  | VBigInt x, VBigInt y => (x =? y)%Z
  | VNum x, VStr y | VStr y, VNum x => num_eqb x (StringToNumber y)
  | VBigInt x, VStr y | VStr y, VBigInt x =>
      match StringToBigInt y with
      | Some z => (x =? z)%Z
      | None => false
      end
  | VNum x, VBigInt y | VBigInt y, VNum x => num_eq_Z x y
  | VBool x, VNum y | VNum y, VBool x =>
      num_eqb (if x then number_of_Z 1 else S754_zero false) y
  | VBool x, VStr y | VStr y, VBool x =>
      num_eqb (if x then number_of_Z 1 else S754_zero false) (StringToNumber y)
  | VBool x, VBigInt y | VBigInt y, VBool x => ((if x then 1 else 0) =? y)%Z
  | _, _ => false
  end.

(** The numeric operand of an arithmetic operator. *)
Inductive numeric : Type :=
| NNumber (x : number)
| NBigInt (z : Z).

Definition ToNumeric (v : value) : completion numeric :=
  match v with
  | VBigInt z => Normal (NBigInt z)
  | _ => x <- ToNumber v ;; Normal (NNumber x)
  end.

Definition mixed : error :=
  TypeError "Cannot mix BigInt and other types, use explicit conversions".

Definition arith (fn : number -> number -> number)
    (fz : Z -> Z -> completion Z) (a b : value) : completion value :=
  x <- ToNumeric a ;;
  y <- ToNumeric b ;;
  match x, y with
  | NNumber p, NNumber q => Normal (VNum (fn p q))
  | NBigInt p, NBigInt q => r <- fz p q ;; Normal (VBigInt r)
  | _, _ => Throw mixed
  end.

(** [a + b]: concatenation as soon as one side is a string. *)
Definition js_add (a b : value) : completion value :=
  match a, b with
  | VStr _, _ | _, VStr _ =>
      x <- ToString a ;; y <- ToString b ;; Normal (VStr (x ++ y))
  | _, _ => arith num_add (fun p q => Normal (p + q)%Z) a b
  end.

Definition js_sub : value -> value -> completion value :=
  arith num_sub (fun p q => Normal (p - q)%Z).

Definition js_mul : value -> value -> completion value :=
  arith num_mul (fun p q => Normal (p * q)%Z).

Definition js_div : value -> value -> completion value :=
  arith num_div
        (fun p q => if (q =? 0)%Z then Throw (RangeError "Division by zero")
                    else Normal (Z.quot p q)).

End Host.

(* ================================================================== *)
(** ** The class *)
(* ================================================================== *)

Module SemVer.
Import RegExp Host.

Declare Scope regex_scope.
Delimit Scope regex_scope with regex.
Infix "@@" := Cat (at level 60, right associativity) : regex_scope.

(** *** Static properties *)

Definition kAdd := ("+" : str, js_add).
Definition kDivide := ("/" : str, js_div).
Definition kMultiply := ("*" : str, js_mul).
Definition kSubtract := ("-" : str, js_sub).

Definition kMajor : str := "major".
Definition kMinor : str := "minor".
Definition kPatch : str := "patch".
Definition kPrerelease : str := "prerelease".
Definition kBuild : str := "build".

Definition kAllParts : list str :=
  [kMajor; kMinor; kPatch; kPrerelease; kBuild].
Definition kNumericParts : list str := [kMajor; kMinor; kPatch].
Definition kStringParts : list str := [kPrerelease; kBuild].

Definition kOperatorNames : list str :=
  map fst [kAdd; kDivide; kMultiply; kSubtract].

(** The object [Object.fromEntries] builds: operator functions by name. *)
Definition kOperators : list (str * (value -> value -> completion value)) :=
  [kAdd; kDivide; kMultiply; kSubtract].

(** [kOperators[key]]: [None] stands for [undefined]. *)
Definition lookup_operator (key : value)
  : option (value -> value -> completion value) :=
  match key with
  | VSymbol _ _ => None
  | _ =>
      option_map snd
        (find (fun entry => str_eqb (fst entry) (String_ key)) kOperators)
  end.

(** The pattern, piece by piece as [semverParts] lists them. *)
Definition numeric_identifier : regex :=                   (* 0|[1-9]\d* *)
  Alt (Chr "0") (Cls [("1"%char, "9"%char)] @@ Star digit)%regex.

Definition identifier_characters : regex :=                (* [0-9a-zA-Z-] *)
  Cls [("0"%char, "9"%char); ("a"%char, "z"%char);
       ("A"%char, "Z"%char); ("-"%char, "-"%char)].

Definition prerelease_identifier : regex :=
  (* 0|[1-9]\d*|\d*[a-zA-Z-][0-9a-zA-Z-]* *)
  Alt (Chr "0")
      (Alt (Cls [("1"%char, "9"%char)] @@ Star digit)
           (Star digit
            @@ Cls [("a"%char, "z"%char); ("A"%char, "Z"%char);
                    ("-"%char, "-"%char)]
            @@ Star identifier_characters))%regex.

Definition regexp : regex :=
  (Bol @@ Grp 1 numeric_identifier                               (* major *)
   @@ Chr "." @@ Grp 2 numeric_identifier                        (* minor *)
   @@ Chr "." @@ Grp 3 numeric_identifier                        (* patch *)
   @@ Opt (Chr "-"                                               (* dash-release *)
           @@ Grp 4 (prerelease_identifier
                     @@ Star (Chr "." @@ prerelease_identifier)))
   @@ Opt (Chr "+"                                               (* plus-build *)
           @@ Grp 5 (Plus identifier_characters
                     @@ Star (Chr "." @@ Plus identifier_characters)))
   @@ Eol)%regex.

(** *** The result of [test] *)

Module Parsed.
Record t : Type := {
  major : value;
  minor : value;
  patch : value;
  prerelease : value;
  build : value
}.
Definition toStringTag : str := "ParsedSemVer".
End Parsed.

(** Element [i] of a match array, [undefined] past its end or where the
    group took no part. *)
Definition element (m : captures) (i : nat) : value :=
  match nth i m None with
  | Some s => VStr s
  | None => VUndefined
  end.

Definition test (string : value) : completion (option Parsed.t) :=
  let m :=
    match exec regexp (String_ string) with
    | Some m => m
    | None => []
    end in
  let input := element m 0 in
  let major := element m 1 in
  let minor := element m 2 in
  let patch := element m 3 in
  let prerelease := element m 4 in
  let build := element m 5 in
  if ToBoolean input then
    major' <- parseInt major ;;
    minor' <- parseInt minor ;;
    patch' <- parseInt patch ;;
    Normal (Some {| Parsed.major := VNum major';
                    Parsed.minor := VNum minor';
                    Parsed.patch := VNum patch';
                    Parsed.prerelease := prerelease;
                    Parsed.build := build |})
  else Normal None.

(** *** Instances *)

Definition toStringTag : str := "SemVer".

Record instance : Type := {
  input : value;
  major : value;
  minor : value;
  patch : value;
  prerelease : value;
  build : value
}.

(** [this[key]] *)
Definition get (this : instance) (key : value) : value :=
  let k := String_ key in
  match key with
  | VSymbol _ _ => VUndefined
  | _ =>
      if str_eqb k "input" then input this
      else if str_eqb k kMajor then major this
      else if str_eqb k kMinor then minor this
      else if str_eqb k kPatch then patch this
      else if str_eqb k kPrerelease then prerelease this
      else if str_eqb k kBuild then build this
      else VUndefined
  end.

(** [this[key] = v].  The class writes no property but the six of the
    record: both callers check the name first. *)
Definition set (this : instance) (key : value) (v : value) : instance :=
  let k := String_ key in
  let '{| input := i; major := ma; minor := mi; patch := pa;
          prerelease := pr; build := bu |} := this in
  match key with
  | VSymbol _ _ => this
  | _ =>
      if str_eqb k "input" then
        {| input := v; major := ma; minor := mi; patch := pa;
           prerelease := pr; build := bu |}
      else if str_eqb k kMajor then
        {| input := i; major := v; minor := mi; patch := pa;
           prerelease := pr; build := bu |}
      else if str_eqb k kMinor then
        {| input := i; major := ma; minor := v; patch := pa;
           prerelease := pr; build := bu |}
      else if str_eqb k kPatch then
        {| input := i; major := ma; minor := mi; patch := v;
           prerelease := pr; build := bu |}
      else if str_eqb k kPrerelease then
        {| input := i; major := ma; minor := mi; patch := pa;
           prerelease := v; build := bu |}
      else if str_eqb k kBuild then
        {| input := i; major := ma; minor := mi; patch := pa;
           prerelease := pr; build := v |}
      else this
  end.

Definition invalid_semver : error :=
  TypeError "The supplied string is not a valid semver number.".

Definition constructor (string : value) : completion instance :=
  let string := String_ string in
  let string :=
    if loose_eq (VStr string) (VStr "undefined") then ("0.0.0" : str)
    else string in
  result <- test (VStr string) ;;
  match result with
  | None => Throw invalid_semver
  | Some result =>
      Normal {| input := VStr string;
                major := Parsed.major result;
                minor := Parsed.minor result;
                patch := Parsed.patch result;
                prerelease := Parsed.prerelease result;
                build := Parsed.build result |}
  end.

(** *** Instance methods

    A method returns its result together with the instance as the call
    leaves it; a call that throws leaves the instance as it was. *)

(** A parameter with a default: [undefined] selects the default. *)
Definition default (d v : value) : value :=
  match v with VUndefined => d | _ => v end.

Definition adjustBy (this : instance) (part by_ operator : value)
  : completion (value * instance) :=
  let operator := default (VStr "+") operator in
  if negb (existsb (fun numericPart => loose_eq part (VStr numericPart))
                   kNumericParts)
  then Normal (VNull, this)
  else if negb (existsb (fun operatorName =>
                           loose_eq (VStr operatorName) operator)
                        kOperatorNames)
  then Normal (VNull, this)
  else
    finite <- isFinite by_ ;;
    if negb finite then Normal (VNull, this)
    else
      match lookup_operator operator with
      | None => Throw (TypeError "adjustor is not a function")
      | Some adjustor =>
          r <- adjustor (get this part) by_ ;;
          let this' := set this part r in
          Normal (get this' part, this')
      end.

Definition adjustTo (this : instance) (part to_ : value)
  : completion (value * instance) :=
  if negb (existsb (fun partName => loose_eq part (VStr partName)) kAllParts)
  then Normal (VNull, this)
  else if existsb (fun numericPart => loose_eq (VStr numericPart) part)
                  kNumericParts
  then
    x <- Number_ to_ ;;
    nan <- isNaN (VNum x) ;;
    if nan then Normal (VNull, this)
    else Normal (VNum x, set this part (VNum x))
  else
    let v := VStr (String_ to_) in
    Normal (v, set this part v).

Definition bump (this : instance) (part by_ : value)
  : completion (value * instance) :=
  adjustBy this part (default (VNum (number_of_Z 1)) by_) VUndefined.

Definition toString (this : instance) : completion str :=
  let major := major this in
  let minor := minor this in
  let patch := patch this in
  prerelease <-
    (if ToBoolean (prerelease this)
     then p <- ToString (prerelease this) ;; Normal ("-" ++ p)
     else Normal []) ;;
  build <-
    (if ToBoolean (build this)
     then b <- ToString (build this) ;; Normal ("+" ++ b)
     else Normal []) ;;
  ma <- ToString major ;;
  mi <- ToString minor ;;
  pa <- ToString patch ;;
  Normal (ma ++ "." ++ mi ++ "." ++ pa ++ prerelease ++ build).

End SemVer.

(* ================================================================== *)
(** ** Notions the properties are stated with *)
(* ================================================================== *)

Module Grammar.
Import RegExp.

(** What the matcher computes, as a relation: [den whole r s c s' c'] says
    that [r] can match at the front of [s], leaving [s'], and turn the
    captures [c] into [c']. *)
Inductive den (whole : nat)
  : regex -> str -> captures -> str -> captures -> Prop :=
| den_bol s c : length s = whole -> den whole Bol s c s c
| den_eol c : den whole Eol [] c [] c
| den_chr a s c : den whole (Chr a) (a :: s) c s c
| den_cls x ranges s c :
    in_class x ranges = true -> den whole (Cls ranges) (x :: s) c s c
| den_cat r1 r2 s c s1 c1 s2 c2 :
    den whole r1 s c s1 c1 -> den whole r2 s1 c1 s2 c2 ->
    den whole (Cat r1 r2) s c s2 c2
| den_alt_l r1 r2 s c s1 c1 :
    den whole r1 s c s1 c1 -> den whole (Alt r1 r2) s c s1 c1
| den_alt_r r1 r2 s c s1 c1 :
    den whole r2 s c s1 c1 -> den whole (Alt r1 r2) s c s1 c1
| den_star_nil r s c : den whole (Star r) s c s c
| den_star_cons r s c s1 c1 s2 c2 :
    den whole r s (clear (groups r) c) s1 c1 ->
    (length s1 < length s)%nat ->
    den whole (Star r) s1 c1 s2 c2 ->
    den whole (Star r) s c s2 c2
| den_plus r s c s1 c1 s2 c2 :
    den whole r s (clear (groups r) c) s1 c1 ->
    den whole (Star r) s1 c1 s2 c2 ->
    den whole (Plus r) s c s2 c2
| den_opt_none r s c : den whole (Opt r) s c s c
| den_opt_some r s c s1 c1 :
    den whole r s (clear (groups r) c) s1 c1 ->
    (length s1 < length s)%nat ->
    den whole (Opt r) s c s1 c1
| den_grp n r s c s1 c1 :
    den whole r s c s1 c1 ->
    den whole (Grp n r) s c s1 (set_nth n (Some (consumed s s1)) c1).

(** A numeric identifier: ["0"], or digits that do not start with 0. *)
Definition numeric_identifierb (t : str) : bool :=
  match t with
  | [] => false
  | "0"%char :: rest => match rest with [] => true | _ :: _ => false end
  | _ :: _ => forallb Host.is_digit t
  end.

(** An optional part of a version: nothing, or the mark and the text. *)
Definition suffix (mark : str) (part : option str) : str :=
  match part with
  | Some t => mark ++ t
  | None => []
  end.

Definition nonempty (part : option str) : bool :=
  match part with
  | Some [] => false
  | _ => true
  end.

(** A pattern that cannot match the empty string, as a test on its
    shape. *)
Fixpoint consuming (r : regex) : bool :=
  match r with
  | Bol | Eol | Star _ | Opt _ => false
  | Chr _ | Cls _ => true
  | Cat r1 r2 => consuming r1 || consuming r2
  | Alt r1 r2 => consuming r1 && consuming r2
  | Plus r1 | Grp _ r1 => consuming r1
  end.

(** The captures a match of the pattern starts from. *)
Definition c0 : captures := repeat None (slots SemVer.regexp).

End Grammar.

Module Behaviour.
Import RegExp Host SemVer.

(** The grammar accepts a string when [exec] finds a match. *)
Definition accepted (s : str) : bool :=
  match exec regexp s with
  | Some _ => true
  | None => false
  end.

(** [new SemVer(s).toString()] *)
Definition roundtrip (s : str) : completion str :=
  v <- constructor (VStr s) ;; toString v.

(** The three numeric captures of a match denote integers below 2^53. *)
Definition safe_numeral (part : option str) : bool :=
  match part with
  | Some t => (decimal_value t <? two53)%Z
  | None => true
  end.

Definition safe_parts (m : captures) : bool :=
  safe_numeral (nth 1 m None) && safe_numeral (nth 2 m None)
  && safe_numeral (nth 3 m None).

(** A captured group as a value: [undefined] when it took no part. *)
Definition optional (part : option str) : value :=
  match part with
  | Some t => VStr t
  | None => VUndefined
  end.

(** The text the constructor parses: the input as a string, 0.0.0 in
    place of the text of [undefined]. *)
Definition parsed_text (input : value) : str :=
  if str_eqb (String_ input) "undefined" then "0.0.0" else String_ input.

(** Values that every conversion accepts: all but symbols and BigInts. *)
Definition plain (v : value) : bool :=
  match v with
  | VSymbol _ _ | VBigInt _ => false
  | _ => true
  end.

Definition plain_fields (this : instance) : bool :=
  plain (major this) && plain (minor this) && plain (patch this).

Definition is_symbol (v : value) : bool :=
  match v with
  | VSymbol _ _ => true
  | _ => false
  end.

Definition is_number (v : value) : bool :=
  match v with
  | VNum _ => true
  | _ => false
  end.

Definition is_optional_string (v : value) : bool :=
  match v with
  | VUndefined | VStr _ => true
  | _ => false
  end.

(** The types the fields are documented with: three numbers, two strings
    that may be missing. *)
Definition well_formed (this : instance) : bool :=
  is_number (major this) && is_number (minor this) && is_number (patch this)
  && is_optional_string (prerelease this)
  && is_optional_string (build this).

(** The arithmetic an operator argument selects; none given means [+]. *)
Definition arithmetic_of (operator : value)
  : option (number -> number -> number) :=
  match operator with
  | VUndefined => Some num_add
  | VStr s =>
      if str_eqb s "+" then Some num_add
      else if str_eqb s "-" then Some num_sub
      else if str_eqb s "*" then Some num_mul
      else if str_eqb s "/" then Some num_div
      else None
  | _ => None
  end.

(** The mutating calls, and an instance after one of them. *)
Inductive call : Type :=
| AdjustBy (part by_ operator : value)
| AdjustTo (part to_ : value)
| Bump (part by_ : value).

Definition perform (this : instance) (c : call)
  : completion (value * instance) :=
  match c with
  | AdjustBy part by_ operator => adjustBy this part by_ operator
  | AdjustTo part to_ => adjustTo this part to_
  | Bump part by_ => bump this part by_
  end.

Definition after (this : instance) (c : call) : instance :=
  match perform this c with
  | Normal (_, this') => this'
  | Throw _ => this
  end.

(** What the operations ask of their arguments, as far as the types of
    the fields depend on it: an amount is a number (or, for [bump],
    left out). *)
Definition admissible (c : call) : bool :=
  match c with
  | AdjustBy _ by_ _ => is_number by_
  | AdjustTo _ _ => true
  | Bump _ by_ => is_number by_ || match by_ with VUndefined => true | _ => false end
  end.

Definition part_of (c : call) : value :=
  match c with
  | AdjustBy part _ _ | AdjustTo part _ | Bump part _ => part
  end.

(** Names that no conversion reads as a numeral. *)
Definition no_numeral (name : str) : bool :=
  num_is_nan (StringToNumber name) &&
  match StringToBigInt name with None => true | Some _ => false end.

(** The operator functions by name. *)
Definition operator_of (name : str) : value -> value -> completion value :=
  if str_eqb name "+" then js_add
  else if str_eqb name "-" then js_sub
  else if str_eqb name "*" then js_mul
  else js_div.

(** The instance [new SemVer('1.2.3')] builds. *)
Definition v123 : instance :=
  {| input := VStr "1.2.3";
     major := VNum (number_of_Z 1);
     minor := VNum (number_of_Z 2);
     patch := VNum (number_of_Z 3);
     prerelease := VUndefined;
     build := VUndefined |}.

(** What a call returned and the text of the instance afterwards. *)
Definition returned_and_text (r : completion (value * instance))
  : completion (value * str) :=
  p <- r ;; t <- toString (snd p) ;; Normal (fst p, t).

End Behaviour.

(* ================================================================== *)
(** ** Versions by their parts *)
(* ================================================================== *)

Module Versions.
Import RegExp Host SemVer Grammar Behaviour.

(** A character of an identifier: [[0-9a-zA-Z-]]. *)
Definition is_identifier_character (c : ascii) : bool :=
  in_class c [("0"%char, "9"%char); ("a"%char, "z"%char);
              ("A"%char, "Z"%char); ("-"%char, "-"%char)].

(** A build identifier: one character of an identifier or more. *)
Definition build_identifierb (t : str) : bool :=
  match t with
  | [] => false
  | _ :: _ => forallb is_identifier_character t
  end.

(** A pre-release identifier: a build identifier that, when it is all
    digits, has no leading zero. *)
Definition prerelease_identifierb (t : str) : bool :=
  build_identifierb t &&
  (if forallb Host.is_digit t then numeric_identifierb t else true).

(** Identifiers with a dot between each two. *)
Definition join (ids : list str) : str :=
  match ids with
  | [] => []
  | t :: rest => t ++ concat (map (fun u => "."%char :: u) rest)
  end.

(** An optional list of identifiers: left out, or one identifier or more,
    each passing [p]. *)
Definition tagsb (p : str -> bool) (tags : option (list str)) : bool :=
  match tags with
  | None => true
  | Some [] => false
  | Some ids => forallb p ids
  end.

(** The text of a version with the given parts. *)
Definition render (maj min pat : str) (pre bld : option (list str)) : str :=
  maj ++ "." ++ min ++ "." ++ pat
  ++ suffix "-" (option_map join pre) ++ suffix "+" (option_map join bld).

(** A character of a dotted list of identifiers. *)
Definition is_prerelease_character (c : ascii) : bool :=
  is_identifier_character c || Ascii.eqb c ".".

(** The instance the constructor builds from the parts of a version. *)
Definition built (s maj min pat : str) (pre bld : option (list str))
  : instance :=
  {| input := VStr s;
     major := VNum (number_of_Z (decimal_value maj));
     minor := VNum (number_of_Z (decimal_value min));
     patch := VNum (number_of_Z (decimal_value pat));
     prerelease := optional (option_map join pre);
     build := optional (option_map join bld) |}.

(** The parts of a version text, each well formed. *)
Definition version (maj min pat : str) (pre bld : option (list str)) : bool :=
  numeric_identifierb maj && numeric_identifierb min
  && numeric_identifierb pat
  && tagsb prerelease_identifierb pre && tagsb build_identifierb bld.


(** The integer an operator makes of two natural numbers, where the
    result is a natural number again; none given means [+]. *)
Definition integer_operation (operator : value) (a n : Z) : option Z :=
  match operator with
  | VUndefined => Some (a + n)%Z
  | VStr s =>
      if str_eqb s "+" then Some (a + n)%Z
      else if str_eqb s "-" then
        if (n <=? a)%Z then Some (a - n)%Z else None
      else if str_eqb s "*" then Some (a * n)%Z
      else if str_eqb s "/" then
        if (0 <? n)%Z && (a mod n =? 0)%Z then Some (a / n)%Z else None
      else None
  | _ => None
  end.

(** An instance whose numeric parts are the given integers. *)
Definition numbered (i : value) (a b c : Z) (pre bld : option (list str))
  : instance :=
  {| input := i;
     major := VNum (number_of_Z a);
     minor := VNum (number_of_Z b);
     patch := VNum (number_of_Z c);
     prerelease := optional (option_map join pre);
     build := optional (option_map join bld) |}.

(** The number of dots of a text. *)
Definition dots (t : str) : nat := count_occ ascii_dec t "."%char.

(** The instance [new SemVer('1.2.3-rc.1+build.5')] builds. *)
Definition v123rc : instance :=
  numbered (VStr "1.2.3-rc.1+build.5") 1 2 3
           (Some [("rc" : str); ("1" : str)])
           (Some [("build" : str); ("5" : str)]).

(** The instance [new SemVer()] builds. *)
Definition v000 : instance :=
  numbered (VStr "0.0.0") 0 0 0 None None.

End Versions.

(* ================================================================== *)
(** ** Arguments of any kind: objects *)
(* ================================================================== *)

Module Any.
Import RegExp Host SemVer Behaviour.

(** The class asks of an argument that is an object only conversions to
    a primitive value: [String], [Number], [isFinite], [+], [-], [*],
    [/].  Each runs ToPrimitive with a hint (the object's
    [Symbol.toPrimitive], [valueOf] and [toString]), which returns a
    primitive value or throws; the conversion of the primitive value
    follows.  An object is given here by what ToPrimitive makes of it
    under each hint; it stands for an object whose conversion gives the
    same outcome at every use and leaves the instance alone. *)
Inductive hint : Type :=
| hint_string
| hint_number
| hint_default.

Inductive any : Type :=
| Primitive (v : value)
| Object (toPrimitive : hint -> completion value).

(** [Object.create(null)]: no method to convert it with. *)
Definition cannot_convert : error :=
  TypeError "Cannot convert object to primitive value".

Definition bare : any := Object (fun _ => Throw cannot_convert).

(** An array whose one element is a string, [[s]]: [valueOf] returns the
    array itself, [toString] the string. *)
Definition array_of (s : str) : any := Object (fun _ => Normal (VStr s)).

(** An instance of the class as an argument: [valueOf] returns the
    instance itself, so that every hint ends in its [toString]. *)
Definition of_instance (this : instance) : any :=
  Object (fun _ => s <- toString this ;; Normal (VStr s)).

(** [String(x)] *)
Definition String_ (x : any) : completion str :=
  match x with
  | Primitive v => Normal (Host.String_ v)
  | Object toPrimitive => p <- toPrimitive hint_string ;; ToString p
  end.

(** [Number(x)] *)
Definition Number_ (x : any) : completion number :=
  match x with
  | Primitive v => Host.Number_ v
  | Object toPrimitive => p <- toPrimitive hint_number ;; Host.Number_ p
  end.

(** [isFinite(x)] *)
Definition isFinite (x : any) : completion bool :=
  match x with
  | Primitive v => Host.isFinite v
  | Object toPrimitive => p <- toPrimitive hint_number ;; Host.isFinite p
  end.

(** [a + b], [a] a primitive value: both sides are made primitive
    first. *)
Definition js_add (a : value) (b : any) : completion value :=
  match b with
  | Primitive v => Host.js_add a v
  | Object toPrimitive => p <- toPrimitive hint_default ;; Host.js_add a p
  end.

(** [a - b], [a * b], [a / b], [a] a primitive value: the left operand
    is converted before the right one is made primitive. *)
Definition arith (fn : number -> number -> number)
    (fz : Z -> Z -> completion Z) (a : value) (b : any) : completion value :=
  match b with
  | Primitive v => Host.arith fn fz a v
  | Object toPrimitive =>
      _ <- ToNumeric a ;;
      p <- toPrimitive hint_number ;;
      Host.arith fn fz a p
  end.

Definition js_sub : value -> any -> completion value :=
  arith num_sub (fun p q => Normal (p - q)%Z).

Definition js_mul : value -> any -> completion value :=
  arith num_mul (fun p q => Normal (p * q)%Z).

Definition js_div : value -> any -> completion value :=
  arith num_div
        (fun p q => if (q =? 0)%Z then Throw (RangeError "Division by zero")
                    else Normal (Z.quot p q)).

(** *** The class, its arguments of any kind

    The input of [test] and of the constructor, the amount of [adjustBy]
    and [bump] and the value of [adjustTo] are of any kind; the part and
    the operator are primitive values. *)

Definition kAdd := ("+" : str, js_add).
Definition kDivide := ("/" : str, js_div).
Definition kMultiply := ("*" : str, js_mul).
Definition kSubtract := ("-" : str, js_sub).

Definition kOperatorNames : list str :=
  map fst [kAdd; kDivide; kMultiply; kSubtract].

Definition kOperators : list (str * (value -> any -> completion value)) :=
  [kAdd; kDivide; kMultiply; kSubtract].

Definition lookup_operator (key : value)
  : option (value -> any -> completion value) :=
  match key with
  | VSymbol _ _ => None
  | _ =>
      option_map snd
        (find (fun entry => str_eqb (fst entry) (Host.String_ key)) kOperators)
  end.

Definition test (string : any) : completion (option Parsed.t) :=
  string <- String_ string ;;
  SemVer.test (VStr string).

Definition constructor (string : any) : completion instance :=
  string <- String_ string ;;
  SemVer.constructor (VStr string).

Definition default (d v : any) : any :=
  match v with Primitive VUndefined => d | _ => v end.

Definition adjustBy (this : instance) (part : value) (by_ : any)
    (operator : value) : completion (value * instance) :=
  let operator := SemVer.default (VStr "+") operator in
  if negb (existsb (fun numericPart => loose_eq part (VStr numericPart))
                   kNumericParts)
  then Normal (VNull, this)
  else if negb (existsb (fun operatorName =>
                           loose_eq (VStr operatorName) operator)
                        kOperatorNames)
  then Normal (VNull, this)
  else
    finite <- isFinite by_ ;;
    if negb finite then Normal (VNull, this)
    else
      match lookup_operator operator with
      | None => Throw (TypeError "adjustor is not a function")
      | Some adjustor =>
          r <- adjustor (get this part) by_ ;;
          let this' := set this part r in
          Normal (get this' part, this')
      end.

Definition adjustTo (this : instance) (part : value) (to_ : any)
  : completion (value * instance) :=
  if negb (existsb (fun partName => loose_eq part (VStr partName)) kAllParts)
  then Normal (VNull, this)
  else if existsb (fun numericPart => loose_eq (VStr numericPart) part)
                  kNumericParts
  then
    x <- Number_ to_ ;;
    nan <- Host.isNaN (VNum x) ;;
    if nan then Normal (VNull, this)
    else Normal (VNum x, set this part (VNum x))
  else
    s <- String_ to_ ;;
    let v := VStr s in
    Normal (v, set this part v).

Definition bump (this : instance) (part : value) (by_ : any)
  : completion (value * instance) :=
  adjustBy this part (default (Primitive (VNum (number_of_Z 1))) by_)
           VUndefined.

(** *** Notions for the properties *)

(** The operator functions by name. *)
Definition operator_of (name : str) : value -> any -> completion value :=
  if str_eqb name "+" then js_add
  else if str_eqb name "-" then js_sub
  else if str_eqb name "*" then js_mul
  else js_div.

(** An amount that every conversion accepts: undefined, null, a boolean,
    a number or a string, or an object that converts to one of them. *)
Definition plain (x : any) : bool :=
  match x with
  | Primitive v => Behaviour.plain v
  | Object toPrimitive =>
      match toPrimitive hint_number, toPrimitive hint_default with
      | Normal p, Normal q => Behaviour.plain p && Behaviour.plain q
      | _, _ => false
      end
  end.




End Any.

(* ================================================================== *)
(** ** The matcher and its relation *)
(* ================================================================== *)

Import RegExp Host SemVer Grammar Behaviour.
Import Versions.

Section Soundness.
Variable whole : nat.

Lemma repeat_matcher_sound r (m : matcher) :
  (forall s c k res, m s c k = Some res ->
     exists s' c', den whole r s c s' c' /\ k s' c' = Some res) ->
  forall fuel s c k res,
    repeat_matcher m (groups r) fuel s c k = Some res ->
    exists s' c', den whole (Star r) s c s' c' /\ k s' c' = Some res.
Proof.
  intros Hm fuel; induction fuel as [|fuel IH]; intros s c k res H; simpl in H.
  - exists s, c; split; [constructor | assumption].
  - destruct (m s (clear (groups r) c) _) as [res'|] eqn:E.
    + injection H as <-.
      apply Hm in E. destruct E as (s1 & c1 & D1 & K1).
      destruct (length s1 <? length s)%nat eqn:L; [|discriminate].
      apply Nat.ltb_lt in L.
      apply IH in K1. destruct K1 as (s2 & c2 & D2 & K2).
      exists s2, c2; split; [|assumption].
      eapply den_star_cons; eauto.
    + exists s, c; split; [constructor | assumption].
Qed.

Lemma mtch_sound r :
  forall s c k res, mtch whole r s c k = Some res ->
    exists s' c', den whole r s c s' c' /\ k s' c' = Some res.
Proof.
  induction r as [| |a|rs|r1 IH1 r2 IH2|r1 IH1 r2 IH2|r IH|r IH|r IH|n r IH];
    intros s c k res H; simpl in H.
  - destruct (length s =? whole)%nat eqn:E; [|discriminate].
    apply Nat.eqb_eq in E. exists s, c; split; [now constructor|assumption].
  - destruct s; [|discriminate]. exists [], c; split; [constructor|assumption].
  - destruct s as [|x s]; [discriminate|].
    destruct (Ascii.eqb x a) eqn:E; [|discriminate].
    apply Ascii.eqb_eq in E; subst x.
    exists s, c; split; [constructor|assumption].
  - destruct s as [|x s]; [discriminate|].
    destruct (in_class x rs) eqn:E; [|discriminate].
    exists s, c; split; [now constructor|assumption].
  - apply IH1 in H. destruct H as (s1 & c1 & D1 & H).
    apply IH2 in H. destruct H as (s2 & c2 & D2 & H).
    exists s2, c2; split; [econstructor; eauto|assumption].
  - destruct (mtch whole r1 s c k) as [res'|] eqn:E.
    + injection H as <-. apply IH1 in E. destruct E as (s1 & c1 & D1 & K1).
      exists s1, c1; split; [now apply den_alt_l|assumption].
    + apply IH2 in H. destruct H as (s1 & c1 & D1 & K1).
      exists s1, c1; split; [now apply den_alt_r|assumption].
  - eapply repeat_matcher_sound; eauto.
  - apply IH in H. destruct H as (s1 & c1 & D1 & H).
    eapply repeat_matcher_sound in H; eauto.
    destruct H as (s2 & c2 & D2 & H).
    exists s2, c2; split; [eapply den_plus; eauto|assumption].
  - destruct (mtch whole r s (clear (groups r) c) _) as [res'|] eqn:E.
    + injection H as <-. apply IH in E. destruct E as (s1 & c1 & D1 & K1).
      destruct (length s1 <? length s)%nat eqn:L; [|discriminate].
      apply Nat.ltb_lt in L.
      exists s1, c1; split; [now apply den_opt_some|assumption].
    + exists s, c; split; [constructor|assumption].
  - apply IH in H. destruct H as (s1 & c1 & D1 & H).
    eexists _, _; split; [apply den_grp; eassumption|assumption].
Qed.

(** What is left is a suffix of what was there. *)
Lemma den_suffix r s c s' c' :
  den whole r s c s' c' -> exists w, s = w ++ s'.
Proof.
  induction 1;
    try (now exists []);
    try (now eexists [_]);
    try assumption.
  - destruct IHden1 as (w1 & ->), IHden2 as (w2 & ->).
    exists (w1 ++ w2). now rewrite app_assoc.
  - destruct IHden1 as (w1 & ->), IHden2 as (w2 & ->).
    exists (w1 ++ w2). now rewrite app_assoc.
  - destruct IHden1 as (w1 & ->), IHden2 as (w2 & ->).
    exists (w1 ++ w2). now rewrite app_assoc.
Qed.

Lemma den_groupless r s c s' c' :
  den whole r s c s' c' -> groups r = [] -> c' = c.
Proof.
  induction 1; simpl; intros G; try reflexivity; try discriminate.
  - apply app_eq_nil in G. destruct G as [G1 G2].
    rewrite IHden2, IHden1; auto.
  - apply app_eq_nil in G. destruct G as [G1 G2]. auto.
  - apply app_eq_nil in G. destruct G as [G1 G2]. auto.
  - rewrite IHden2, IHden1; auto. now rewrite G.
  - rewrite IHden2, IHden1; auto. now rewrite G.
  - rewrite IHden; auto. now rewrite G.
Qed.
End Soundness.

(* ================================================================== *)
(** ** Shape of a match of the pattern *)
(* ================================================================== *)

Lemma consumed_app (w s' : str) : consumed (w ++ s') s' = w.
Proof.
  unfold consumed. rewrite length_app.
  replace (length w + length s' - length s')%nat with (length w) by lia.
  rewrite firstn_app, firstn_all, Nat.sub_diag. simpl. apply app_nil_r.
Qed.

Lemma consumed_nil (s : str) : consumed s [] = s.
Proof. rewrite <- (app_nil_r s) at 1. apply consumed_app. Qed.

Section Structure.
Variable whole : nat.

Lemma den_bol_inv s c s' c' :
  den whole Bol s c s' c' -> s' = s /\ c' = c /\ length s = whole.
Proof. inversion 1; subst; auto. Qed.

Lemma den_eol_inv s c s' c' :
  den whole Eol s c s' c' -> s = [] /\ s' = [] /\ c' = c.
Proof. inversion 1; subst; auto. Qed.

Lemma den_chr_inv a s c s' c' :
  den whole (Chr a) s c s' c' -> s = a :: s' /\ c' = c.
Proof. inversion 1; subst; auto. Qed.

Lemma den_cls_inv ranges s c s' c' :
  den whole (Cls ranges) s c s' c' ->
  exists x, s = x :: s' /\ in_class x ranges = true /\ c' = c.
Proof. inversion 1; subst; eauto. Qed.

Lemma den_cat_inv r1 r2 s c s2 c2 :
  den whole (Cat r1 r2) s c s2 c2 ->
  exists s1 c1, den whole r1 s c s1 c1 /\ den whole r2 s1 c1 s2 c2.
Proof. inversion 1; subst; eauto. Qed.

Lemma den_alt_inv r1 r2 s c s' c' :
  den whole (Alt r1 r2) s c s' c' ->
  den whole r1 s c s' c' \/ den whole r2 s c s' c'.
Proof. inversion 1; subst; auto. Qed.

Lemma den_plus_inv r s c s2 c2 :
  den whole (Plus r) s c s2 c2 ->
  exists s1 c1, den whole r s (clear (groups r) c) s1 c1 /\
                den whole (Star r) s1 c1 s2 c2.
Proof. inversion 1; subst; eauto. Qed.

Lemma den_opt_inv r s c s' c' :
  den whole (Opt r) s c s' c' ->
  (s' = s /\ c' = c) \/ den whole r s (clear (groups r) c) s' c'.
Proof. inversion 1; subst; auto. Qed.

Lemma den_grp_inv n r s c s' c' :
  den whole (Grp n r) s c s' c' ->
  exists c1, den whole r s c s' c1 /\
             c' = set_nth n (Some (consumed s s')) c1.
Proof. inversion 1; subst; eauto. Qed.

Lemma den_star_class ranges s c s' c' :
  den whole (Star (Cls ranges)) s c s' c' ->
  exists w, s = w ++ s' /\
            forallb (fun x => in_class x ranges) w = true /\ c' = c.
Proof.
  intros H. remember (Star (Cls ranges)) as r eqn:R.
  induction H; try discriminate.
  - exists []. auto.
  - injection R as ->.
    apply den_cls_inv in H. destruct H as (x & -> & I & ->).
    destruct (IHden2 eq_refl) as (w & -> & F & ->).
    exists (x :: w). simpl. rewrite I, F. auto.
Qed.

Lemma one_to_nine x :
  in_class x [("1"%char, "9"%char)] = true ->
  forall w, forallb Host.is_digit w = true ->
  numeric_identifierb (x :: w) = true.
Proof.
  intros H w F.
  destruct x as [[] [] [] [] [] [] [] []]; try discriminate H;
    simpl; exact F.
Qed.

Lemma forallb_digit (w : str) :
  forallb (fun x => in_class x [("0"%char, "9"%char)]) w = true ->
  forallb Host.is_digit w = true.
Proof.
  induction w as [|x w IH]; simpl; [reflexivity|].
  unfold Host.is_digit at 1. rewrite orb_false_r.
  intros F. apply andb_true_iff in F. destruct F as [-> F]. auto.
Qed.

Lemma den_numeric_identifier s c s' c' :
  den whole SemVer.numeric_identifier s c s' c' ->
  exists t, s = t ++ s' /\ numeric_identifierb t = true /\ c' = c.
Proof.
  intros H. apply den_alt_inv in H. destruct H as [H|H].
  - apply den_chr_inv in H. destruct H as [-> ->].
    exists ["0"%char]. auto.
  - apply den_cat_inv in H. destruct H as (s1 & c1 & H1 & H2).
    apply den_cls_inv in H1. destruct H1 as (x & -> & I & ->).
    apply den_star_class in H2. destruct H2 as (w & -> & F & ->).
    exists (x :: w). repeat split; auto.
    apply one_to_nine; auto using forallb_digit.
Qed.

Lemma den_consuming r s c s' c' :
  den whole r s c s' c' -> consuming r = true ->
  exists x w, s = x :: w ++ s'.
Proof.
  induction 1; simpl; intros C; try discriminate.
  - now exists a, [].
  - now exists x, [].
  - apply orb_true_iff in C. destruct C as [C|C].
    + destruct (IHden1 C) as (x & w & ->).
      apply den_suffix in H0. destruct H0 as (w' & ->).
      exists x, (w ++ w'). now rewrite <- app_assoc.
    + destruct (IHden2 C) as (x & w & ->).
      apply den_suffix in H. destruct H as ([|y w'] & ->); simpl.
      * now exists x, w.
      * exists y, (w' ++ x :: w). now rewrite <- app_assoc.
  - apply andb_true_iff in C. tauto.
  - apply andb_true_iff in C. tauto.
  - destruct (IHden1 C) as (x & w & ->).
    apply den_suffix in H0. destruct H0 as (w' & ->).
    exists x, (w ++ w'). now rewrite <- app_assoc.
  - auto.
Qed.

(** An optional, marked and captured part of the pattern. *)
Lemma den_optional_part mark n r s c s' c' :
  den whole (Opt (Cat (Chr mark) (Grp n r))) s c s' c' ->
  groups r = [] -> consuming r = true ->
  exists part,
    s = suffix [mark] part ++ s' /\ nonempty part = true /\
    (c' = c /\ part = None \/
     c' = set_nth n part (set_nth n None c)).
Proof.
  intros H G C. apply den_opt_inv in H. destruct H as [[-> ->]|H].
  - exists None. auto.
  - apply den_cat_inv in H. destruct H as (s1 & c1 & H1 & H2).
    apply den_chr_inv in H1. destruct H1 as [-> ->].
    apply den_grp_inv in H2. destruct H2 as (c2 & H2 & ->).
    pose proof (den_groupless _ _ _ _ _ _ H2 G) as ->.
    destruct (den_consuming _ _ _ _ _ H2 C) as (x & w & ->).
    change (x :: w ++ s') with ((x :: w) ++ s').
    rewrite consumed_app.
    exists (Some (x :: w)). simpl. rewrite G. simpl. auto.
Qed.

(** Shape of a successful match of the pattern. *)
Lemma den_regexp s s' c' :
  den whole SemVer.regexp s c0 s' c' ->
  exists maj min pat pre bld,
    s' = [] /\
    c' = [None; Some maj; Some min; Some pat; pre; bld] /\
    s = maj ++ "." ++ min ++ "." ++ pat ++ suffix "-" pre ++ suffix "+" bld /\
    numeric_identifierb maj = true /\
    numeric_identifierb min = true /\
    numeric_identifierb pat = true /\
    nonempty pre = true /\ nonempty bld = true.
Proof.
  intros H. unfold SemVer.regexp in H.
  apply den_cat_inv in H. destruct H as (s1 & c1 & H1 & H).
  apply den_bol_inv in H1. destruct H1 as (-> & -> & _).
  apply den_cat_inv in H. destruct H as (s1 & c1 & H1 & H).
  apply den_grp_inv in H1. destruct H1 as (c1' & H1 & ->).
  apply den_numeric_identifier in H1. destruct H1 as (maj & -> & Nmaj & ->).
  apply den_cat_inv in H. destruct H as (s2 & c2 & H1 & H).
  apply den_chr_inv in H1. destruct H1 as [-> ->].
  apply den_cat_inv in H. destruct H as (s1 & c1 & H1 & H).
  apply den_grp_inv in H1. destruct H1 as (c1' & H1 & ->).
  apply den_numeric_identifier in H1. destruct H1 as (min & -> & Nmin & ->).
  apply den_cat_inv in H. destruct H as (s2 & c2 & H1 & H).
  apply den_chr_inv in H1. destruct H1 as [-> ->].
  apply den_cat_inv in H. destruct H as (s1 & c1 & H1 & H).
  apply den_grp_inv in H1. destruct H1 as (c1' & H1 & ->).
  apply den_numeric_identifier in H1. destruct H1 as (pat & -> & Npat & ->).
  rewrite !consumed_app in H.
  apply den_cat_inv in H. destruct H as (s2 & c2 & H1 & H).
  apply den_optional_part in H1; [|reflexivity|reflexivity].
  destruct H1 as (pre & -> & Npre & Cpre).
  apply den_cat_inv in H. destruct H as (s3 & c3 & H1 & H).
  apply den_optional_part in H1; [|reflexivity|reflexivity].
  destruct H1 as (bld & -> & Nbld & Cbld).
  apply den_eol_inv in H. destruct H as (-> & -> & ->).
  exists maj, min, pat, pre, bld.
  rewrite app_nil_r.
  split; [reflexivity|]. split; [|split]; [| |auto].
  - destruct Cpre as [[Ec Ep]|Ec], Cbld as [[Ec' Eb]|Ec']; subst; reflexivity.
  - reflexivity.
Qed.
End Structure.

Lemma match_at_short whole (t : str) :
  length t <> whole -> match_at SemVer.regexp whole t = None.
Proof.
  intros L. unfold match_at, SemVer.regexp.
  change (mtch whole (Cat Bol ?r) ?s ?c ?k)
    with (if (length s =? whole)%nat then mtch whole r s c k else None).
  apply Nat.eqb_neq in L. now rewrite L.
Qed.

Lemma exec_from_short whole (t : str) :
  (length t < whole)%nat -> exec_from SemVer.regexp whole t = None.
Proof.
  induction t as [|x t IH]; intros L;
    cbn [exec_from]; rewrite match_at_short by lia.
  - reflexivity.
  - apply IH. simpl in L. lia.
Qed.

Lemma exec_regexp (s : str) :
  exec SemVer.regexp s = match_at SemVer.regexp (length s) s.
Proof.
  unfold exec. destruct s as [|x s]; cbn [exec_from].
  - now destruct (match_at SemVer.regexp _ []).
  - destruct (match_at SemVer.regexp _ (x :: s)); [reflexivity|].
    apply exec_from_short. simpl. lia.
Qed.

(** The array of a successful [exec] and the text it came from. *)
Theorem exec_regexp_inv (s : str) (m : captures) :
  exec SemVer.regexp s = Some m ->
  exists maj min pat pre bld,
    m = [Some s; Some maj; Some min; Some pat; pre; bld] /\
    s = maj ++ "." ++ min ++ "." ++ pat ++ suffix "-" pre ++ suffix "+" bld /\
    numeric_identifierb maj = true /\
    numeric_identifierb min = true /\
    numeric_identifierb pat = true /\
    nonempty pre = true /\ nonempty bld = true.
Proof.
  rewrite exec_regexp. unfold match_at. intros H.
  apply mtch_sound in H. destruct H as (s' & c' & D & K).
  apply den_regexp in D.
  destruct D as (maj & min & pat & pre & bld & -> & -> & E & N).
  exists maj, min, pat, pre, bld. split; [|split; assumption].
  rewrite consumed_nil in K. simpl in K. now injection K as <-.
Qed.

(* ================================================================== *)
(** ** Digits and numbers *)
(* ================================================================== *)

(** ** Decimal digits *)

Lemma digits_of_cons_digit x d :
  is_digit x = true -> digits_of_uint (cons_digit x d) = x :: digits_of_uint d.
Proof.
  destruct x as [[] [] [] [] [] [] [] []]; intros H;
    try discriminate H; reflexivity.
Qed.

Lemma digits_of_uint_of_digits (t : str) :
  forallb is_digit t = true -> digits_of_uint (uint_of_digits t) = t.
Proof.
  induction t as [|x t IH]; simpl; [reflexivity|].
  intros H. apply andb_true_iff in H. destruct H as [Hx Ht].
  rewrite digits_of_cons_digit by assumption. now rewrite IH.
Qed.

Lemma numeric_identifier_digits (t : str) :
  numeric_identifierb t = true -> forallb is_digit t = true.
Proof.
  destruct t as [|x t]; [discriminate|].
  destruct x as [[] [] [] [] [] [] [] []]; simpl; try (intros H; exact H);
    destruct t; try discriminate; reflexivity.
Qed.

Lemma numeric_identifier_unorm (t : str) :
  numeric_identifierb t = true ->
  Decimal.unorm (uint_of_digits t) = uint_of_digits t.
Proof.
  destruct t as [|x t]; [discriminate|].
  destruct x as [[] [] [] [] [] [] [] []]; simpl; intros H;
    try discriminate H; try reflexivity;
    destruct t; try discriminate; reflexivity.
Qed.

(** Reading a numeric identifier and writing it again gives it back. *)
Lemma decimal_digits_value (t : str) :
  numeric_identifierb t = true -> decimal_digits (decimal_value t) = t.
Proof.
  intros H. unfold decimal_digits, decimal_value.
  rewrite N2Z.id, DecimalN.Unsigned.to_of, numeric_identifier_unorm by assumption.
  apply digits_of_uint_of_digits, numeric_identifier_digits, H.
Qed.

Lemma decimal_value_nonneg (t : str) : (0 <= decimal_value t)%Z.
Proof. unfold decimal_value. lia. Qed.

(** ** Numbers *)

Lemma digits2_pos_bounds p :
  (2 ^ (Zpos (digits2_pos p) - 1) <= Zpos p < 2 ^ Zpos (digits2_pos p))%Z.
Proof.
  assert (step : forall d q : Z, (0 < d)%Z ->
            (2 ^ (d - 1) <= q < 2 ^ d)%Z ->
            (2 ^ (Z.succ d - 1) <= 2 * q < 2 ^ Z.succ d)%Z /\
            (2 ^ (Z.succ d - 1) <= 2 * q + 1 < 2 ^ Z.succ d)%Z).
  { intros d q Hd IH.
    replace (Z.succ d - 1)%Z with d by lia.
    rewrite Z.pow_succ_r by lia.
    replace d with (Z.succ (d - 1)) in * by lia.
    rewrite Z.pow_succ_r in * by lia.
    replace (Z.succ (d - 1) - 1)%Z with (d - 1)%Z in * by lia. lia. }
  induction p as [p IH|p IH|]; simpl digits2_pos.
  - rewrite Pos2Z.inj_succ. change (Zpos p~1) with (2 * Zpos p + 1)%Z.
    apply step; [lia|exact IH].
  - rewrite Pos2Z.inj_succ. change (Zpos p~0) with (2 * Zpos p)%Z.
    apply step; [lia|exact IH].
  - simpl. lia.
Qed.

Lemma digits2_pos_le p n :
  (0 <= n)%Z -> (Zpos p < 2 ^ n)%Z -> (Zpos (digits2_pos p) <= n)%Z.
Proof.
  intros Hn H. destruct (Z_le_gt_dec (Zpos (digits2_pos p)) n) as [L|G]; [assumption|].
  pose proof (digits2_pos_bounds p) as [B _].
  assert (2 ^ n <= 2 ^ (Zpos (digits2_pos p) - 1))%Z
    by (apply Z.pow_le_mono_r; lia).
  lia.
Qed.

Lemma iter_xO_value p k :
  Zpos (Pos.iter xO p k) = (Zpos p * 2 ^ Zpos k)%Z.
Proof.
  induction k as [|k IH] using Pos.peano_ind.
  - simpl. lia.
  - rewrite Pos.iter_succ, Pos2Z.inj_xO, IH, Pos2Z.inj_succ, Z.pow_succ_r by lia.
    ring.
Qed.

Lemma iter_xO_digits p k :
  digits2_pos (Pos.iter xO p k) = (digits2_pos p + k)%positive.
Proof.
  induction k as [|k IH] using Pos.peano_ind.
  - simpl. lia.
  - rewrite Pos.iter_succ. simpl. rewrite IH. lia.
Qed.

(** A positive integer below 2^53 as a number: 53 bits of mantissa, the
    exponent lowered as much. *)
Lemma number_of_small_pos_canonical p :
  (Zpos p < two53)%Z ->
  exists m e,
    number_of_Z (Zpos p) = S754_finite false m e /\
    (-52 <= e <= 0)%Z /\ (Zpos m = Zpos p * 2 ^ (- e))%Z /\
    digits2_pos m = 53%positive.
Proof.
  intros H.
  assert (D : (Zpos (digits2_pos p) <= 53)%Z)
    by (apply digits2_pos_le; [lia|exact H]).
  unfold number_of_Z, binary_normalize, binary_round.
  set (d := digits2_pos p) in *.
  assert (F : fexp prec emax (Zpos d + 0) = (Zpos d - 53)%Z)
    by (unfold fexp, emin, prec, emax; lia).
  rewrite F.
  assert (A : exists m, shl_align p 0 (Zpos d - 53) = (m, (Zpos d - 53)%Z) /\
                        digits2_pos m = 53%positive /\
                        (Zpos m = Zpos p * 2 ^ (53 - Zpos d))%Z).
  { unfold shl_align.
    destruct (Zpos d - 53 - 0)%Z as [|k|k] eqn:E; [|lia|].
    - exists p. replace (Zpos d - 53)%Z with 0%Z by lia.
      repeat split; [fold d; lia|].
      replace (53 - Zpos d)%Z with 0%Z by lia. simpl. lia.
    - exists (Pos.iter xO p k). repeat split.
      + rewrite iter_xO_digits. fold d. lia.
      + rewrite iter_xO_value. f_equal. f_equal. lia. }
  destruct A as (m & -> & Dm & Vm).
  exists m, (Zpos d - 53)%Z. split; [|split; [lia|split]].
  - assert (S0 : (fexp prec emax (Zdigits2 (Zpos m) + (Zpos d - 53))
                   - (Zpos d - 53) = 0)%Z).
    { change (Zdigits2 (Zpos m)) with (Zpos (digits2_pos m)). rewrite Dm.
      unfold fexp, emin, prec, emax. lia. }
    unfold binary_round_aux, shr_fexp. rewrite S0.
    cbn [shr shr_record_of_loc shr_m loc_of_shr_record round_nearest_even].
    rewrite S0. cbn [shr shr_m].
    replace (Zpos d - 53 <=? emax - prec)%Z with true
      by (symmetry; apply Z.leb_le; unfold emax, prec; lia).
    reflexivity.
  - rewrite Vm. f_equal. f_equal. lia.
  - exact Dm.
Qed.

Lemma integer_value_small_pos p :
  (Zpos p < two53)%Z ->
  exists m e, number_of_Z (Zpos p) = S754_finite false m e /\
              integer_value (S754_finite false m e) = Some (Zpos p).
Proof.
  intros H.
  destruct (number_of_small_pos_canonical p H) as (m & e & E & Le & V & _).
  exists m, e. split; [assumption|].
  unfold integer_value. destruct (0 <=? e)%Z eqn:Z0.
  - apply Z.leb_le in Z0. assert (e = 0%Z) by lia. subst e.
    simpl in *. f_equal. lia.
  - rewrite V, Z.mod_mul, Z.eqb_refl, Z.div_mul by (apply Z.pow_nonzero; lia).
    reflexivity.
Qed.

(** Rounding a non-negative mantissa never gives NaN. *)
Lemma shr_1_nonneg mrs : (0 <= shr_m mrs)%Z -> (0 <= shr_m (shr_1 mrs))%Z.
Proof.
  destruct mrs as [m r s]; simpl.
  destruct m as [|[p|p|]|[p|p|]]; simpl; lia.
Qed.

Lemma iter_pos_shr_1_nonneg n mrs :
  (0 <= shr_m mrs)%Z -> (0 <= shr_m (iter_pos shr_1 n mrs))%Z.
Proof.
  revert mrs. induction n as [n IH|n IH|]; intros mrs H; simpl.
  - apply IH, IH, shr_1_nonneg, H.
  - apply IH, IH, H.
  - apply shr_1_nonneg, H.
Qed.

Lemma shr_fexp_nonneg m e l :
  (0 <= m)%Z -> (0 <= shr_m (fst (shr_fexp prec emax m e l)))%Z.
Proof.
  intros H. unfold shr_fexp, shr.
  assert (0 <= shr_m (shr_record_of_loc m l))%Z
    by (destruct l as [|[]]; exact H).
  destruct (fexp prec emax (Zdigits2 m + e) - e)%Z; simpl;
    auto using iter_pos_shr_1_nonneg.
Qed.

Lemma round_nearest_even_nonneg m l :
  (0 <= m)%Z -> (0 <= round_nearest_even m l)%Z.
Proof.
  intros H. destruct l as [|[]]; simpl; try lia.
  destruct (Z.even m); lia.
Qed.

Lemma binary_round_aux_not_nan s m e l :
  (0 <= m)%Z -> num_is_nan (binary_round_aux prec emax s m e l) = false.
Proof.
  intros H. unfold binary_round_aux.
  pose proof (shr_fexp_nonneg m e l H) as H1.
  destruct (shr_fexp prec emax m e l) as [mrs' e'].
  simpl in H1.
  pose proof (shr_fexp_nonneg _ e' loc_Exact
                (round_nearest_even_nonneg _ (loc_of_shr_record mrs') H1)) as H2.
  destruct (shr_fexp prec emax _ e' loc_Exact) as [mrs'' e''].
  simpl in H2.
  destruct (shr_m mrs'') as [|q|q]; [reflexivity| |lia].
  now destruct (e'' <=? emax - prec)%Z.
Qed.

Lemma number_of_Z_not_nan z : num_is_nan (number_of_Z z) = false.
Proof.
  unfold number_of_Z, binary_normalize, binary_round.
  destruct z as [|p|p]; [reflexivity| |];
    destruct (shl_align _ _ _) as [mz ez];
    apply binary_round_aux_not_nan; lia.
Qed.

(** ** Digits of a multiple of a power of ten *)

Lemma digits_of_uint_list d :
  digits_of_uint d = map char_of_digit (DecimalFacts.to_list d).
Proof. induction d; simpl; congruence. Qed.

Lemma digits_of_uint_app d d' :
  digits_of_uint (Decimal.app d d') = digits_of_uint d ++ digits_of_uint d'.
Proof. now rewrite !digits_of_uint_list, DecimalFacts.app_spec, map_app. Qed.

Lemma digits_of_uint_zeros n :
  digits_of_uint (Nat.iter n Decimal.D0 Decimal.Nil) = repeat "0"%char n.
Proof. induction n; simpl; congruence. Qed.

Lemma unorm_app_to_uint p d :
  Decimal.unorm (Decimal.app (Pos.to_uint p) d)
  = Decimal.app (Pos.to_uint p) d.
Proof.
  pose proof (DecimalPos.Unsigned.to_uint_nonzero p) as NZ.
  pose proof (DecimalPos.Unsigned.to_uint_nonnil p) as NN.
  assert (U : Decimal.unorm (Pos.to_uint p) = Pos.to_uint p).
  { pose proof (DecimalN.Unsigned.to_of (N.to_uint (Npos p))) as T.
    rewrite DecimalN.Unsigned.of_to in T. symmetry. exact T. }
  apply DecimalFacts.to_list_inj.
  rewrite DecimalFacts.unorm_spec, DecimalFacts.app_spec.
  apply (f_equal DecimalFacts.to_list) in U.
  rewrite DecimalFacts.unorm_spec in U.
  destruct (Pos.to_uint p) as [|u|u|u|u|u|u|u|u|u|u]; try reflexivity.
  - congruence.
  - exfalso. simpl in U. unfold DecimalFacts.lunorm in U. simpl in U.
    destruct (DecimalFacts.lnzhead (DecimalFacts.to_list u)) eqn:E.
    + injection U as U. destruct u; try discriminate. now apply NZ.
    + pose proof (f_equal (@length _) U) as L. simpl in L.
      assert (length (DecimalFacts.lnzhead (DecimalFacts.to_list u))
              <= length (DecimalFacts.to_list u))%nat.
      { clear. induction (DecimalFacts.to_list u) as [|[] l IH]; simpl; lia. }
      rewrite E in H. simpl in H. lia.
Qed.

Lemma decimal_digits_pow10 (a j : Z) :
  (0 < a)%Z -> (0 <= j)%Z ->
  decimal_digits (a * 10 ^ j) = decimal_digits a ++ zeros j.
Proof.
  intros A J. unfold decimal_digits, zeros.
  destruct a as [|p|p]; try lia.
  set (n := Z.to_nat j).
  assert (E : (Zpos p * 10 ^ j)%Z
              = Z.of_uint (Decimal.app (Pos.to_uint p)
                                       (Nat.iter n Decimal.D0 Decimal.Nil))).
  { rewrite DecimalZ.of_uint_iter_D0.
    replace (Z.of_uint (Pos.to_uint p)) with (Zpos p).
    - replace j with (Z.of_nat n) by (unfold n; lia). clear.
      induction n as [|n IH].
      + simpl. lia.
      + rewrite Nat2Z.inj_succ, Z.pow_succ_r by lia.
        rewrite DecimalPos.Unsigned.nat_iter_S, <- IH. ring.
    - unfold Z.of_uint.
      change (Pos.to_uint p) with (N.to_uint (Npos p)).
      change Pos.of_uint with N.of_uint.
      now rewrite DecimalN.Unsigned.of_to. }
  rewrite E. unfold Z.of_uint. rewrite N2Z.id.
  change Pos.of_uint with N.of_uint.
  rewrite DecimalN.Unsigned.to_of, unorm_app_to_uint.
  rewrite digits_of_uint_app, digits_of_uint_zeros.
  reflexivity.
Qed.

(** ** Rounding integers *)

(** Rounding leaves a number that is one as it is. *)
Lemma canonical_round m e :
  digits2_pos m = 53%positive -> (-1074 <= e <= 971)%Z ->
  binary_round prec emax false m e = S754_finite false m e.
Proof.
  intros Dm E. unfold binary_round.
  assert (F : fexp prec emax (Zpos (digits2_pos m) + e) = e)
    by (rewrite Dm; unfold fexp, emin, prec, emax; lia).
  rewrite F. unfold shl_align. rewrite Z.sub_diag.
  assert (S0 : (fexp prec emax (Zdigits2 (Zpos m) + e) - e = 0)%Z).
  { change (Zdigits2 (Zpos m)) with (Zpos (digits2_pos m)). rewrite F. lia. }
  unfold binary_round_aux, shr_fexp. rewrite S0.
  cbn [shr shr_record_of_loc shr_m loc_of_shr_record round_nearest_even].
  rewrite S0. cbn [shr shr_m].
  replace (e <=? emax - prec)%Z with true
    by (symmetry; apply Z.leb_le; unfold emax, prec; lia).
  reflexivity.
Qed.

Lemma shr_exponent mrs e n : (e <= snd (shr mrs e n))%Z.
Proof. unfold shr. destruct n; simpl; lia. Qed.

(** An integer from 2^53 on has a positive exponent as a number. *)
Lemma number_of_large p s m e :
  (two53 <= Zpos p)%Z -> number_of_Z (Zpos p) = S754_finite s m e ->
  (1 <= e)%Z.
Proof.
  intros L. pose proof (digits2_pos_bounds p) as [_ B].
  assert (D : (54 <= Zpos (digits2_pos p))%Z).
  { destruct (Z_le_gt_dec 54 (Zpos (digits2_pos p))) as [G|G]; [exact G|].
    assert (2 ^ Zpos (digits2_pos p) <= 2 ^ 53)%Z
      by (apply Z.pow_le_mono_r; lia).
    change (2 ^ 53)%Z with two53 in H. lia. }
  unfold number_of_Z, binary_normalize, binary_round.
  set (d := digits2_pos p) in *.
  assert (F : fexp prec emax (Zpos d + 0) = (Zpos d - 53)%Z)
    by (unfold fexp, emin, prec, emax; lia).
  rewrite F. unfold shl_align.
  destruct (Zpos d - 53 - 0)%Z as [|k|k] eqn:E; try lia.
  unfold binary_round_aux.
  pose proof (shr_exponent (shr_record_of_loc (Zpos p) loc_Exact) 0
                (fexp prec emax (Zdigits2 (Zpos p) + 0) - 0)) as S1.
  unfold shr_fexp.
  destruct (shr (shr_record_of_loc (Zpos p) loc_Exact) 0 _) as [mrs' e'] eqn:E1.
  assert (P1 : (1 <= e')%Z).
  { revert E1. change (Zdigits2 (Zpos p)) with (Zpos d). rewrite F.
    unfold shr. destruct (Zpos d - 53 - 0)%Z eqn:E2; try lia.
    intros E1. injection E1 as _ <-. lia. }
  match goal with |- context [shr ?a e' ?n] =>
    pose proof (shr_exponent a e' n) as S2;
    destruct (shr a e' n) as [mrs'' e''] end.
  simpl in S2.
  destruct (shr_m mrs''); try discriminate.
  destruct (e'' <=? emax - prec)%Z; try discriminate.
  intros R. injection R as _ _ <-. lia.
Qed.

Lemma integer_value_of_small p :
  (Zpos p < two53)%Z -> integer_value (number_of_Z (Zpos p)) = Some (Zpos p).
Proof.
  intros H. destruct (integer_value_small_pos p H) as (m & e & -> & I).
  exact I.
Qed.

(** Two positive integers, one of them below 2^53, are the same number
    only when they are the same integer. *)
Lemma number_of_Z_inj_small p q :
  (Zpos p < two53)%Z -> number_of_Z (Zpos q) = number_of_Z (Zpos p) -> q = p.
Proof.
  intros H E.
  destruct (Z_lt_ge_dec (Zpos q) two53) as [S|L].
  - pose proof (integer_value_of_small p H) as Ip.
    pose proof (integer_value_of_small q S) as Iq.
    rewrite E in Iq. congruence.
  - exfalso.
    destruct (number_of_small_pos_canonical p H) as (m & e & N & Be & _).
    rewrite N in E.
    pose proof (number_of_large q false m e ltac:(lia) E). lia.
Qed.


(** ** The shortest digits of a safe integer *)

Lemma binary_round_aux_sign s mz ez l s' m' e' :
  binary_round_aux prec emax s mz ez l = S754_finite s' m' e' -> s' = s.
Proof.
  unfold binary_round_aux.
  destruct (shr_fexp prec emax mz ez l) as [mrs1 e1].
  destruct (shr_fexp prec emax _ e1 loc_Exact) as [mrs2 e2].
  destruct (shr_m mrs2); try discriminate.
  destruct (e2 <=? emax - prec)%Z; try discriminate.
  now intros E; injection E as <- _ _.
Qed.

Lemma number_of_pos_sign y s' m' e' :
  number_of_Z (Zpos y) = S754_finite s' m' e' -> s' = false.
Proof.
  unfold number_of_Z, binary_normalize, binary_round.
  destruct (shl_align y 0 _) as [mz ez]. apply binary_round_aux_sign.
Qed.

Section SafeInteger.
Local Open Scope Z_scope.
Variable p : positive.
Hypothesis safe : Zpos p < two53.

Variables (m : positive) (e : Z).
Hypothesis number : number_of_Z (Zpos p) = S754_finite false m e.
Hypothesis exponent : -52 <= e <= 0.
Hypothesis mantissa : Zpos m = Zpos p * 2 ^ (- e).

Local Abbreviation v := (fraction_of m e).

Lemma fraction_of_integer : 0 < snd v /\ fst v = Zpos p * snd v.
Proof.
  unfold fraction_of. destruct (0 <=? e) eqn:E; cbn [fst snd].
  - apply Z.leb_le in E. assert (e = 0) by lia. subst e.
    simpl in *. lia.
  - split; [apply Z.pow_pos_nonneg; lia|exact mantissa].
Qed.

Lemma below_power (lo : Z) :
  frac_ltb v (scale10 (1, 1) lo) = true <-> 0 <= lo /\ Zpos p < 10 ^ lo.
Proof.
  destruct fraction_of_integer as [C V].
  unfold frac_ltb, scale10. destruct (0 <=? lo) eqn:L; cbn [fst snd].
  - apply Z.leb_le in L. rewrite V, Z.ltb_lt. split.
    + intros H. split; [exact L|]. nia.
    + intros [_ H]. nia.
  - apply Z.leb_gt in L. rewrite V, Z.ltb_lt. split; [|intros [H _]; lia].
    intros H. exfalso.
    assert (0 < 10 ^ (- lo)) by (apply Z.pow_pos_nonneg; lia).
    assert (snd v <= Zpos p * snd v) by nia.
    assert (Zpos p * snd v <= Zpos p * snd v * 10 ^ (- lo)) by nia.
    lia.
Qed.

Lemma magnitude_first (fuel : nat) (lo B : Z) :
  lo <= B -> B - lo <= Z.of_nat fuel ->
  frac_ltb v (scale10 (1, 1) B) = true ->
  let D := magnitude fuel lo v in
  lo <= D <= B /\ frac_ltb v (scale10 (1, 1) D) = true /\
  forall j, lo <= j < D -> frac_ltb v (scale10 (1, 1) j) = false.
Proof.
  revert lo. induction fuel as [|fuel IH]; intros lo L F T; cbn [magnitude].
  - assert (lo = B) by lia. subst lo. repeat split; try lia. exact T.
  - destruct (frac_ltb v (scale10 (1, 1) lo)) eqn:E.
    + repeat split; try lia. exact E.
    + assert (lo <> B) by (intros ->; congruence).
      destruct (IH (lo + 1) ltac:(lia) ltac:(lia) T) as (R & T' & N).
      repeat split; try lia; [exact T'|].
      intros j J. destruct (Z.eq_dec j lo) as [->|]; [exact E|].
      apply N. lia.
Qed.

Local Abbreviation D := (magnitude_of (fraction_of m e)).

Lemma magnitude_integer : 1 <= D <= 16 /\ 10 ^ (D - 1) <= Zpos p < 10 ^ D.
Proof.
  assert (T : frac_ltb v (scale10 (1, 1) 16) = true).
  { apply below_power. split; [lia|]. unfold two53 in safe.
    change (10 ^ 16) with 10000000000000000. lia. }
  destruct (magnitude_first 700 (-340) 16 ltac:(lia) ltac:(lia) T)
    as (R & T' & N).
  change (magnitude 700 (-340) v) with D in R, T', N. apply below_power in T'. destruct T' as [D0 U].
  assert (D <> 0) by (intros Z0; rewrite Z0 in U; simpl in U; lia).
  split; [lia|]. split; [|exact U].
  specialize (N (D - 1) ltac:(lia)).
  destruct (Z_lt_ge_dec (Zpos p) (10 ^ (D - 1))) as [G|G]; [|lia].
  exfalso. assert (frac_ltb v (scale10 (1, 1) (D - 1)) = true)
    by (apply below_power; split; [lia|exact G]).
  congruence.
Qed.

(** The integer part of the number scaled by a power of ten. *)
Lemma scaled_floor (q : Z) :
  0 <= q -> (let '(a, b) := scale10 v (- q) in a / b) = Zpos p / 10 ^ q.
Proof.
  intros Q. destruct fraction_of_integer as [C V].
  unfold scale10. destruct v as [a b] eqn:Ev. cbn [fst snd] in *.
  destruct (0 <=? - q) eqn:E.
  - apply Z.leb_le in E. assert (q = 0) by lia. subst q. simpl.
    rewrite Z.mul_1_r, Z.div_1_r, V. apply Z.div_mul. lia.
  - rewrite Z.opp_involutive, V, (Z.mul_comm (Zpos p)).
    apply Z.div_mul_cancel_l.
    + assert (0 < 10 ^ q) by (apply Z.pow_pos_nonneg; lia). lia.
    + lia.
Qed.

(** Which decimal candidates read back as the number: those that are
    the integer itself. *)
Lemma reads_back (s q : Z) :
  0 < s -> 0 <= q ->
  match number_of_decimal s q with
  | S754_finite _ m' e' => Pos.eqb m m' && Z.eqb e e'
  | _ => false
  end = true <-> s * 10 ^ q = Zpos p.
Proof.
  intros S Q.
  assert (P : 0 < s * 10 ^ q)
    by (apply Z.mul_pos_pos; [lia|apply Z.pow_pos_nonneg; lia]).
  assert (N : number_of_decimal s q = number_of_Z (s * 10 ^ q)).
  { unfold number_of_decimal. destruct s; try lia.
    apply Z.leb_le in Q. now rewrite Q. }
  rewrite N. destruct (s * 10 ^ q) as [|y|y] eqn:Y; try lia.
  split.
  - intros H. f_equal. apply number_of_Z_inj_small; [exact safe|].
    rewrite number.
    destruct (number_of_Z (Zpos y)) as [| | |s' m' e'] eqn:E; try discriminate.
    apply andb_true_iff in H. destruct H as [Hm He].
    apply Pos.eqb_eq in Hm. apply Z.eqb_eq in He. subst.
    now rewrite (number_of_pos_sign _ _ _ _ E).
  - intros H. injection H as ->. rewrite number.
    now rewrite Pos.eqb_refl, Z.eqb_refl.
Qed.

Lemma candidates_integer (k : Z) :
  1 <= k <= D ->
  filter (candidate_ok (S754_finite false m e) k) (candidates v D k)
  = if (Zpos p mod 10 ^ (D - k) =? 0)
    then [(D, Zpos p / 10 ^ (D - k))] else [].
Proof.
  intros K. destruct magnitude_integer as (BD & L & U).
  unfold candidates. cbn [flat_map app].
  replace (k - D) with (- (D - k)) by lia.
  replace (k - (D + 1)) with (- (D + 1 - k)) by lia.
  rewrite !scaled_floor by lia.
  set (f := Zpos p / 10 ^ (D - k)).
  set (f' := Zpos p / 10 ^ (D + 1 - k)).
  assert (P1 : 0 < 10 ^ (D - k)) by (apply Z.pow_pos_nonneg; lia).
  assert (P2 : 0 < 10 ^ (D + 1 - k)) by (apply Z.pow_pos_nonneg; lia).
  assert (Ef : Zpos p = 10 ^ (D - k) * f + Zpos p mod 10 ^ (D - k))
    by (apply Z.div_mod; lia).
  assert (Ef' : Zpos p = 10 ^ (D + 1 - k) * f' + Zpos p mod 10 ^ (D + 1 - k))
    by (apply Z.div_mod; lia).
  pose proof (Z.mod_pos_bound (Zpos p) _ P1) as M1.
  pose proof (Z.mod_pos_bound (Zpos p) _ P2) as M2.
  assert (Pk : 10 ^ D = 10 ^ (D - k) * 10 ^ k)
    by (rewrite <- Z.pow_add_r by lia; f_equal; lia).
  assert (Pk1 : 10 ^ (D - 1) = 10 ^ (D - k) * 10 ^ (k - 1))
    by (rewrite <- Z.pow_add_r by lia; f_equal; lia).
  assert (Pk' : 10 ^ D = 10 ^ (D + 1 - k) * 10 ^ (k - 1))
    by (rewrite <- Z.pow_add_r by lia; f_equal; lia).
  assert (Q1 : 0 < 10 ^ (k - 1)) by (apply Z.pow_pos_nonneg; lia).
  assert (Q2 : 0 < 10 ^ k) by (apply Z.pow_pos_nonneg; lia).
  assert (Rf : 10 ^ (k - 1) <= f < 10 ^ k) by (split; nia).
  assert (Rf' : 0 <= f' < 10 ^ (k - 1)) by (split; nia).
  (* the four candidates *)
  assert (C1 : candidate_ok (S754_finite false m e) k (D, f)
               = (Zpos p mod 10 ^ (D - k) =? 0)).
  { unfold candidate_ok.
    replace (10 ^ (k - 1) <=? f) with true by (symmetry; apply Z.leb_le; lia).
    replace (f <? 10 ^ k) with true by (symmetry; apply Z.ltb_lt; lia).
    cbn [andb].
    pose proof (reads_back f (D - k) ltac:(lia) ltac:(lia)) as RB.
    destruct (Zpos p mod 10 ^ (D - k) =? 0) eqn:E.
    - apply Z.eqb_eq in E. apply RB. nia.
    - apply Z.eqb_neq in E.
      destruct (match number_of_decimal f (D - k) with
                | S754_finite _ m' e' => Pos.eqb m m' && Z.eqb e e'
                | _ => false end); [|reflexivity].
      exfalso. assert (f * 10 ^ (D - k) = Zpos p) by now apply RB. nia. }
  assert (C2 : candidate_ok (S754_finite false m e) k (D, f + 1) = false).
  { unfold candidate_ok.
    pose proof (reads_back (f + 1) (D - k) ltac:(lia) ltac:(lia)) as RB.
    destruct (match number_of_decimal (f + 1) (D - k) with
              | S754_finite _ m' e' => Pos.eqb m m' && Z.eqb e e'
              | _ => false end); [|now rewrite andb_false_r].
    exfalso. assert ((f + 1) * 10 ^ (D - k) = Zpos p) by now apply RB. nia. }
  assert (C3 : candidate_ok (S754_finite false m e) k (D + 1, f') = false).
  { unfold candidate_ok.
    replace (10 ^ (k - 1) <=? f') with false
      by (symmetry; apply Z.leb_gt; lia).
    reflexivity. }
  assert (C4 : candidate_ok (S754_finite false m e) k (D + 1, f' + 1) = false).
  { unfold candidate_ok.
    pose proof (reads_back (f' + 1) (D + 1 - k) ltac:(lia) ltac:(lia)) as RB.
    destruct (match number_of_decimal (f' + 1) (D + 1 - k) with
              | S754_finite _ m' e' => Pos.eqb m m' && Z.eqb e e'
              | _ => false end); [|now rewrite andb_false_r].
    exfalso. assert ((f' + 1) * 10 ^ (D + 1 - k) = Zpos p) by now apply RB.
    nia. }
  cbn [filter]. rewrite C1, C2, C3, C4.
  now destruct (Zpos p mod 10 ^ (D - k) =? 0).
Qed.

Lemma exact_quotient (k : Z) :
  1 <= k <= D -> Zpos p mod 10 ^ (D - k) = 0 ->
  0 < Zpos p / 10 ^ (D - k) /\
  Zpos p / 10 ^ (D - k) * 10 ^ (D - k) = Zpos p.
Proof.
  intros K E.
  assert (P1 : 0 < 10 ^ (D - k)) by (apply Z.pow_pos_nonneg; lia).
  pose proof (Z.div_mod (Zpos p) (10 ^ (D - k)) ltac:(lia)) as Ed.
  split; [|lia].
  destruct (Z_lt_ge_dec 0 (Zpos p / 10 ^ (D - k))) as [G|G]; [exact G|].
  exfalso. nia.
Qed.

Lemma shortest_integer (fuel : nat) (k : Z) :
  1 <= k <= D -> D - k <= Z.of_nat fuel ->
  exists k' s',
    k <= k' <= D /\ 0 < s' /\ s' * 10 ^ (D - k') = Zpos p /\
    shortest fuel (S754_finite false m e) v D k = (D, k', s').
Proof.
  revert k. induction fuel as [|fuel IH]; intros k K F;
    cbn [shortest]; rewrite (candidates_integer k K);
    destruct (Zpos p mod 10 ^ (D - k) =? 0) eqn:E.
  - apply Z.eqb_eq in E. destruct (exact_quotient k K E) as [Q1 Q2].
    exists k, (Zpos p / 10 ^ (D - k)). cbn [fold_left].
    split; [lia|]. auto.
  - exfalso. assert (k = D) by lia. subst k.
    rewrite Z.sub_diag in E. simpl in E. rewrite Z.mod_1_r in E. discriminate.
  - apply Z.eqb_eq in E. destruct (exact_quotient k K E) as [Q1 Q2].
    exists k, (Zpos p / 10 ^ (D - k)). cbn [fold_left].
    split; [lia|]. auto.
  - assert (k <> D).
    { intros ->. rewrite Z.sub_diag in E. simpl in E.
      rewrite Z.mod_1_r in E. discriminate. }
    destruct (IH (k + 1) ltac:(lia) ltac:(lia))
      as (k' & s' & K' & S' & V' & R).
    exists k', s'. split; [lia|]. auto.
Qed.

(** The general rule writes a safe integer with all its digits. *)
Lemma shortest_to_string_integer :
  digits2_pos m = 53%positive ->
  shortest_to_string m e = decimal_digits (Zpos p).
Proof.
  intros Dm. unfold shortest_to_string.
  rewrite canonical_round by (try assumption; lia).
  destruct magnitude_integer as (BD & _).
  destruct (shortest_integer 17 1 ltac:(lia) ltac:(lia))
    as (k' & s' & K' & S' & V' & ->).
  unfold format_decimal.
  replace ((k' <=? D) && (D <=? 21)) with true
    by (symmetry; apply andb_true_iff; split; apply Z.leb_le; lia).
  rewrite <- V'. symmetry. apply decimal_digits_pow10; lia.
Qed.
End SafeInteger.

(** A safe integer prints as its decimal digits. *)
Lemma NumberToString_small (z : Z) :
  (0 <= z < two53)%Z -> NumberToString (number_of_Z z) = decimal_digits z.
Proof.
  intros [L U]. destruct z as [|p|p]; [reflexivity| |lia].
  destruct (number_of_small_pos_canonical p U) as (m & e & N & Be & V & Dm).
  rewrite N. cbn [NumberToString app].
  now apply (shortest_to_string_integer p U m e).
Qed.

(** ** Reading digits *)

Lemma span_all (p : ascii -> bool) (t : str) :
  forallb p t = true -> span p t = (t, []).
Proof.
  induction t as [|x t IH]; simpl; [reflexivity|].
  intros H. apply andb_true_iff in H. destruct H as [-> H].
  now rewrite IH.
Qed.

Lemma digit_is_radix_digit x : is_digit x = true -> is_radix_digit 10 x = true.
Proof.
  destruct x as [[] [] [] [] [] [] [] []]; intros H;
    try discriminate H; reflexivity.
Qed.

Lemma digits_are_radix_digits (t : str) :
  forallb is_digit t = true -> forallb (is_radix_digit 10) t = true.
Proof.
  induction t as [|x t IH]; simpl; [reflexivity|].
  intros H. apply andb_true_iff in H. destruct H as [Hx H].
  now rewrite digit_is_radix_digit, IH.
Qed.

(** [parseInt] reads a numeric identifier in base 10. *)
Lemma parseInt_numeric_identifier (t : str) :
  numeric_identifierb t = true ->
  parseInt_string t = number_of_Z (decimal_value t).
Proof.
  intros H. pose proof (numeric_identifier_digits t H) as D.
  apply digits_are_radix_digits in D.
  assert (E : parseInt_string t =
              let '(ds, _) := span (is_radix_digit 10) t in
              match ds with
              | [] => NaN
              | _ :: _ =>
                  if (decimal_value ds =? 0)%Z then S754_zero false
                  else number_of_Z (decimal_value ds)
              end).
  { destruct t as [|x t]; [discriminate|].
    destruct x as [[] [] [] [] [] [] [] []]; try discriminate H;
      try reflexivity.
    destruct t; [reflexivity|discriminate]. }
  rewrite E, span_all by assumption.
  destruct t as [|x t]; [discriminate|].
  destruct (decimal_value (x :: t) =? 0)%Z eqn:Z0; [|reflexivity].
  apply Z.eqb_eq in Z0. now rewrite Z0.
Qed.

Lemma digit_not_space x : is_digit x = true -> is_space x = false.
Proof.
  destruct x as [[] [] [] [] [] [] [] []]; intros H;
    try discriminate H; reflexivity.
Qed.

Lemma trim_start_digits (t : str) :
  forallb is_digit t = true -> trim_start t = t.
Proof.
  destruct t as [|x t]; simpl; [reflexivity|].
  intros H. apply andb_true_iff in H. destruct H as [Hx _].
  now rewrite digit_not_space.
Qed.

Lemma forallb_rev {A} (p : A -> bool) (l : list A) :
  forallb p l = true -> forallb p (rev l) = true.
Proof.
  rewrite !forallb_forall. intros H x I. apply H. now apply in_rev.
Qed.

Lemma trim_digits (t : str) : forallb is_digit t = true -> trim t = t.
Proof.
  intros H. unfold trim.
  rewrite (trim_start_digits t H), trim_start_digits by now apply forallb_rev.
  apply rev_involutive.
Qed.

Lemma decimal_literal_digits (t : str) :
  t <> [] -> forallb is_digit t = true ->
  decimal_literal t = number_of_Z (decimal_value t).
Proof.
  intros N D.
  assert (E : decimal_literal t =
              let '(ip, r1) := span is_digit t in
              let '(fp, r2) :=
                match r1 with
                | "."%char :: r => span is_digit r
                | _ => ([], r1)
                end in
              match ip ++ fp with
              | [] => NaN
              | ds =>
                  match exponent_part r2 with
                  | Some e =>
                      number_of_decimal (decimal_value ds)
                                        (e - Z.of_nat (length fp))
                  | None => NaN
                  end
              end).
  { destruct t as [|x t]; [congruence|].
    simpl in D. apply andb_true_iff in D. destruct D as [Dx _].
    destruct x as [[] [] [] [] [] [] [] []]; try discriminate Dx;
      reflexivity. }
  rewrite E, span_all by assumption. cbn iota beta.
  rewrite app_nil_r. destruct t as [|x t]; [congruence|].
  cbn [exponent_part length Z.of_nat Z.sub Z.opp Z.add].
  unfold number_of_decimal.
  destruct (decimal_value (x :: t)) as [|p|p] eqn:V; [reflexivity| |].
  - change (0 <=? 0)%Z with true. change (10 ^ 0)%Z with 1%Z.
    now rewrite Z.mul_1_r.
  - pose proof (decimal_value_nonneg (x :: t)). lia.
Qed.

(** [Number] reads a string of digits in base 10. *)
Lemma StringToNumber_digits (t : str) :
  t <> [] -> forallb is_digit t = true ->
  StringToNumber t = number_of_Z (decimal_value t).
Proof.
  intros N D. unfold StringToNumber. rewrite trim_digits by assumption.
  destruct t as [|x [|y t]]; [congruence| |].
  - destruct x as [[] [] [] [] [] [] [] []];
      apply (decimal_literal_digits _ N D).
  - assert (Dy : is_digit y = true).
    { simpl in D. apply andb_true_iff in D. destruct D as [_ D].
      apply andb_true_iff in D. tauto. }
    assert (X : ((y =? "x") || (y =? "X") = false /\
                 (y =? "o") || (y =? "O") = false /\
                 (y =? "b") || (y =? "B") = false)%char).
    { destruct y as [[] [] [] [] [] [] [] []]; try discriminate Dy;
        repeat split; reflexivity. }
    destruct X as (X1 & X2 & X3).
    destruct x as [[] [] [] [] [] [] [] []];
      try apply (decimal_literal_digits _ N D).
    rewrite X1, X2, X3. apply (decimal_literal_digits _ N D).
Qed.

(** ** Loose equality with a name *)

Lemma str_eqb_eq (a b : str) : str_eqb a b = true <-> a = b.
Proof. unfold str_eqb. destruct (list_eq_dec ascii_dec a b); split; congruence. Qed.

Lemma num_eqb_nan_r x : num_eqb x NaN = false.
Proof. now destruct x as [[]|[]| |[]]. Qed.

(** A string that is no numeral is loosely equal to itself only. *)
Lemma loose_eq_name (v : value) (name : str) :
  StringToNumber name = NaN -> StringToBigInt name = None ->
  (loose_eq v (VStr name) = true <-> v = VStr name) /\
  (loose_eq (VStr name) v = true <-> v = VStr name).
Proof.
  intros HN HB.
  destruct v as [| |b|x|s|i d|z]; simpl;
    rewrite ?HN, ?HB, ?num_eqb_nan_r, ?str_eqb_eq;
    split; split; intros E; congruence.
Qed.

(* ================================================================== *)
(** ** Parsing and construction *)
(* ================================================================== *)

Lemma integer_value_small (z : Z) :
  (0 <= z < two53)%Z -> integer_value (number_of_Z z) = Some z.
Proof.
  intros [L U]. destruct z as [|p|p]; [reflexivity| |lia].
  destruct (integer_value_small_pos p U) as (m & e & -> & I). exact I.
Qed.

Lemma numeric_identifier_nonempty (t : str) :
  numeric_identifierb t = true -> exists x w, t = x :: w.
Proof. destruct t as [|x w]; [discriminate|eauto]. Qed.

(** What [test] returns on a string the pattern matches. *)
Lemma test_matched (s maj min pat : str) (pre bld : option str) :
  exec regexp s = Some [Some s; Some maj; Some min; Some pat; pre; bld] ->
  numeric_identifierb maj = true ->
  numeric_identifierb min = true ->
  numeric_identifierb pat = true ->
  test (VStr s) =
  Normal (Some {| Parsed.major := VNum (number_of_Z (decimal_value maj));
                  Parsed.minor := VNum (number_of_Z (decimal_value min));
                  Parsed.patch := VNum (number_of_Z (decimal_value pat));
                  Parsed.prerelease := optional pre;
                  Parsed.build := optional bld |}).
Proof.
  intros E Nmaj Nmin Npat.
  assert (S : exists x w, s = x :: w).
  { apply exec_regexp_inv in E.
    destruct E as (maj' & min' & pat' & pre' & bld' & E & -> & N & _).
    destruct (numeric_identifier_nonempty _ N) as (x & w & ->).
    simpl. eauto. }
  destruct S as (x & w & ->).
  unfold test. cbn [String_]. rewrite E.
  cbn [element nth ToBoolean parseInt ToString String_ bind].
  rewrite !parseInt_numeric_identifier by assumption.
  now destruct pre, bld.
Qed.

Lemma test_unmatched (input : value) :
  exec regexp (String_ input) = None -> test input = Normal None.
Proof. intros E. unfold test. now rewrite E. Qed.

Lemma test_String (input : value) : test input = test (VStr (String_ input)).
Proof. reflexivity. Qed.

Lemma accepted_not_undefined (s : str) (m : captures) :
  exec regexp s = Some m -> str_eqb s "undefined" = false.
Proof.
  intros E. destruct (str_eqb s "undefined") eqn:U; [|reflexivity].
  apply str_eqb_eq in U. subst s. vm_compute in E. discriminate.
Qed.

(** The instance the constructor builds from a string the pattern
    matches. *)
Lemma constructor_matched (s maj min pat : str) (pre bld : option str) :
  exec regexp s = Some [Some s; Some maj; Some min; Some pat; pre; bld] ->
  numeric_identifierb maj = true ->
  numeric_identifierb min = true ->
  numeric_identifierb pat = true ->
  constructor (VStr s) =
  Normal {| input := VStr s;
            major := VNum (number_of_Z (decimal_value maj));
            minor := VNum (number_of_Z (decimal_value min));
            patch := VNum (number_of_Z (decimal_value pat));
            prerelease := optional pre;
            build := optional bld |}.
Proof.
  intros E Nmaj Nmin Npat. unfold constructor.
  cbn [String_ loose_eq]. rewrite (accepted_not_undefined _ _ E).
  now rewrite (test_matched _ _ _ _ _ _ E Nmaj Nmin Npat).
Qed.

Lemma render_optional mark (part : option str) :
  nonempty part = true ->
  (if ToBoolean (optional part)
   then p <- ToString (optional part) ;; Normal (mark ++ p)
   else Normal []) = Normal (suffix mark part).
Proof. now destruct part as [[|x w]|]. Qed.

Lemma render_safe (t : str) :
  numeric_identifierb t = true -> (decimal_value t < two53)%Z ->
  ToString (VNum (number_of_Z (decimal_value t))) = Normal t.
Proof.
  intros N B. cbn [ToString String_].
  rewrite NumberToString_small
    by (split; [apply decimal_value_nonneg|assumption]).
  now rewrite decimal_digits_value.
Qed.


(* ================================================================== *)
(** ** The methods *)
(* ================================================================== *)

(** ** The guards of the methods *)

Lemma no_numeral_spec name :
  no_numeral name = true ->
  StringToNumber name = NaN /\ StringToBigInt name = None.
Proof.
  unfold no_numeral. intros H. apply andb_true_iff in H. destruct H as [H1 H2].
  split.
  - now destruct (StringToNumber name).
  - now destruct (StringToBigInt name).
Qed.

Lemma guard_left (v : value) (names : list str) :
  forallb no_numeral names = true ->
  existsb (fun name => loose_eq v (VStr name)) names = true <->
  In v (map VStr names).
Proof.
  intros N. rewrite existsb_exists, in_map_iff. rewrite forallb_forall in N.
  split; intros (name & A & B).
  - exists name. destruct (no_numeral_spec name (N _ A)) as [HN HB].
    apply (loose_eq_name v name HN HB) in B. auto.
  - exists name. destruct (no_numeral_spec name (N _ B)) as [HN HB].
    split; [assumption|]. apply (loose_eq_name v name HN HB). auto.
Qed.

Lemma guard_right (v : value) (names : list str) :
  forallb no_numeral names = true ->
  existsb (fun name => loose_eq (VStr name) v) names = true <->
  In v (map VStr names).
Proof.
  intros N. rewrite existsb_exists, in_map_iff. rewrite forallb_forall in N.
  split; intros (name & A & B).
  - exists name. destruct (no_numeral_spec name (N _ A)) as [HN HB].
    apply (loose_eq_name v name HN HB) in B. auto.
  - exists name. destruct (no_numeral_spec name (N _ B)) as [HN HB].
    split; [assumption|]. apply (loose_eq_name v name HN HB). auto.
Qed.

Lemma names_no_numeral :
  forallb no_numeral kAllParts = true /\
  forallb no_numeral kNumericParts = true /\
  forallb no_numeral kOperatorNames = true.
Proof. vm_compute. auto. Qed.

Lemma guard_false {A} (f : A -> bool) (l : list A) (P : Prop) :
  (existsb f l = true <-> P) -> ~ P -> existsb f l = false.
Proof. intros H N. destruct (existsb f l); [tauto|reflexivity]. Qed.

Lemma guard_true {A} (f : A -> bool) (l : list A) (P : Prop) :
  (existsb f l = true <-> P) -> P -> existsb f l = true.
Proof. tauto. Qed.

(** [adjustBy] with a part that is none of the three numeric ones. *)
Lemma adjustBy_bad_part this part by_ operator :
  ~ In part (map VStr kNumericParts) ->
  adjustBy this part by_ operator = Normal (VNull, this).
Proof.
  intros N. unfold adjustBy.
  rewrite (guard_false _ _ _ (guard_left part _ (proj1 (proj2 names_no_numeral))) N).
  reflexivity.
Qed.

Lemma adjustBy_bad_operator this part by_ operator :
  ~ In (default (VStr "+") operator) (map VStr kOperatorNames) ->
  adjustBy this part by_ operator = Normal (VNull, this).
Proof.
  intros N. unfold adjustBy.
  destruct (existsb _ kNumericParts); [|reflexivity]. cbn [negb].
  rewrite (guard_false _ _ _ (guard_right _ _ (proj2 (proj2 names_no_numeral))) N).
  reflexivity.
Qed.

Lemma lookup_operator_name name :
  In name kOperatorNames ->
  lookup_operator (VStr name) = Some (operator_of name).
Proof.
  intros I. simpl in I.
  destruct I as [<-|[<-|[<-|[<-|[]]]]]; reflexivity.
Qed.

Lemma get_set this name v :
  In name kAllParts -> get (set this (VStr name) v) (VStr name) = v.
Proof.
  intros I. destruct this. simpl in I.
  destruct I as [<-|[<-|[<-|[<-|[<-|[]]]]]]; reflexivity.
Qed.

Lemma numeric_parts_all name : In name kNumericParts -> In name kAllParts.
Proof. simpl. tauto. Qed.

(** [adjustBy] once part and operator have passed their guards. *)
Lemma adjustBy_guarded this name by_ operator oname :
  In name kNumericParts ->
  default (VStr "+") operator = VStr oname -> In oname kOperatorNames ->
  adjustBy this (VStr name) by_ operator =
  (finite <- isFinite by_ ;;
   if negb finite then Normal (VNull, this)
   else r <- operator_of oname (get this (VStr name)) by_ ;;
        Normal (r, set this (VStr name) r)).
Proof.
  intros I D O. unfold adjustBy. rewrite D.
  rewrite (guard_true _ _ _ (guard_left _ _ (proj1 (proj2 names_no_numeral)))
             (in_map VStr _ _ I)).
  rewrite (guard_true _ _ _ (guard_right _ _ (proj2 (proj2 names_no_numeral)))
             (in_map VStr _ _ O)).
  cbn [negb]. rewrite (lookup_operator_name _ O).
  destruct (isFinite by_) as [[]|e]; cbn [bind negb]; try reflexivity.
  destruct (operator_of oname _ by_) as [r|e]; cbn [bind]; [|reflexivity].
  now rewrite get_set by now apply numeric_parts_all.
Qed.

Lemma adjustTo_bad_part this part to_ :
  ~ In part (map VStr kAllParts) ->
  adjustTo this part to_ = Normal (VNull, this).
Proof.
  intros N. unfold adjustTo.
  rewrite (guard_false _ _ _ (guard_left part _ (proj1 names_no_numeral)) N).
  reflexivity.
Qed.

Lemma adjustTo_numeric this name to_ :
  In name kNumericParts ->
  adjustTo this (VStr name) to_ =
  (x <- Number_ to_ ;;
   if num_is_nan x then Normal (VNull, this)
   else Normal (VNum x, set this (VStr name) (VNum x))).
Proof.
  intros I. unfold adjustTo.
  rewrite (guard_true _ _ _ (guard_left _ _ (proj1 names_no_numeral))
             (in_map VStr _ _ (numeric_parts_all _ I))).
  rewrite (guard_true _ _ _ (guard_right _ _ (proj1 (proj2 names_no_numeral)))
             (in_map VStr _ _ I)).
  reflexivity.
Qed.

Lemma adjustTo_textual this name to_ :
  In name kStringParts ->
  adjustTo this (VStr name) to_ =
  Normal (VStr (String_ to_), set this (VStr name) (VStr (String_ to_))).
Proof.
  intros I. simpl in I. destruct I as [<-|[<-|[]]]; reflexivity.
Qed.

(** ** Ways a call can go *)

Lemma guard_decided (v : value) (names : list str) :
  forallb no_numeral names = true ->
  (existsb (fun name => loose_eq v (VStr name)) names = true /\
   exists name, v = VStr name /\ In name names) \/
  (existsb (fun name => loose_eq v (VStr name)) names = false /\
   ~ In v (map VStr names)).
Proof.
  intros N. pose proof (guard_left v names N) as G.
  destruct (existsb _ names).
  - left. split; [reflexivity|]. apply proj1 in G. specialize (G eq_refl).
    apply in_map_iff in G. destruct G as (name & <- & I). eauto.
  - right. split; [reflexivity|]. intros I. apply G in I. discriminate.
Qed.

Lemma operator_decided (operator : value) :
  (exists oname, default (VStr "+") operator = VStr oname /\
                 In oname kOperatorNames) \/
  ~ In (default (VStr "+") operator) (map VStr kOperatorNames).
Proof.
  destruct (guard_decided (default (VStr "+") operator) kOperatorNames
              (proj2 (proj2 names_no_numeral))) as [[_ (oname & E & I)]|[_ N]];
    eauto.
Qed.

(** [adjustBy] returns [null] and changes nothing, or throws, or stores
    its result in the numeric part it was given. *)
Lemma adjustBy_cases this part by_ operator :
  adjustBy this part by_ operator = Normal (VNull, this) \/
  (exists e, adjustBy this part by_ operator = Throw e) \/
  (exists name oname r,
     part = VStr name /\ In name kNumericParts /\
     In oname kOperatorNames /\
     default (VStr "+") operator = VStr oname /\
     isFinite by_ = Normal true /\
     operator_of oname (get this part) by_ = Normal r /\
     adjustBy this part by_ operator = Normal (r, set this part r)).
Proof.
  destruct (guard_decided part kNumericParts (proj1 (proj2 names_no_numeral)))
    as [[_ (name & -> & I)]|[_ N]];
    [|left; now apply adjustBy_bad_part].
  destruct (operator_decided operator) as [(oname & D & O)|N];
    [|left; now apply adjustBy_bad_operator].
  rewrite (adjustBy_guarded this name by_ operator oname I D O).
  destruct (isFinite by_) as [[]|e]; cbn [bind negb]; eauto.
  destruct (operator_of oname _ by_) as [r|e] eqn:R; cbn [bind]; eauto.
  right; right. exists name, oname, r. auto 10.
Qed.

Lemma all_parts_split name :
  In name kAllParts -> In name kNumericParts \/ In name kStringParts.
Proof. simpl. tauto. Qed.

(** [adjustTo] returns [null] and changes nothing, or throws, or stores
    its result in the part it was given. *)
Lemma adjustTo_cases this part to_ :
  adjustTo this part to_ = Normal (VNull, this) \/
  (exists e, adjustTo this part to_ = Throw e) \/
  (exists name x,
     part = VStr name /\ In name kNumericParts /\
     Number_ to_ = Normal x /\ num_is_nan x = false /\
     adjustTo this part to_ = Normal (VNum x, set this part (VNum x))) \/
  (exists name,
     part = VStr name /\ In name kStringParts /\
     adjustTo this part to_ =
     Normal (VStr (String_ to_), set this part (VStr (String_ to_)))).
Proof.
  destruct (guard_decided part kAllParts (proj1 names_no_numeral))
    as [[_ (name & -> & I)]|[_ N]];
    [|left; now apply adjustTo_bad_part].
  destruct (all_parts_split _ I) as [J|J].
  - rewrite (adjustTo_numeric this name to_ J).
    destruct (Number_ to_) as [x|e]; cbn [bind]; eauto.
    destruct (num_is_nan x) eqn:X; eauto.
    right; right; left. exists name, x. auto.
  - right; right; right. exists name.
    rewrite (adjustTo_textual this name to_ J). auto.
Qed.

(** ** What a store leaves alone *)

Lemma set_frame this name v :
  In name kAllParts ->
  input (set this (VStr name) v) = input this /\
  (name <> kMajor -> major (set this (VStr name) v) = major this) /\
  (name <> kMinor -> minor (set this (VStr name) v) = minor this) /\
  (name <> kPatch -> patch (set this (VStr name) v) = patch this) /\
  (name <> kPrerelease ->
   prerelease (set this (VStr name) v) = prerelease this) /\
  (name <> kBuild -> build (set this (VStr name) v) = build this).
Proof.
  intros I. destruct this. simpl in I.
  destruct I as [<-|[<-|[<-|[<-|[<-|[]]]]]]; cbn;
    repeat split; intros N; try reflexivity; now contradiction N.
Qed.

Lemma set_numeric_well_formed this name x :
  In name kNumericParts -> well_formed this = true ->
  well_formed (set this (VStr name) (VNum x)) = true.
Proof.
  intros I. destruct this. simpl in I.
  destruct I as [<-|[<-|[<-|[]]]]; unfold well_formed; cbn;
    intros W; repeat (apply andb_true_iff in W; destruct W as [W ?]);
    repeat (apply andb_true_iff; split); auto.
Qed.

Lemma set_textual_well_formed this name t :
  In name kStringParts -> well_formed this = true ->
  well_formed (set this (VStr name) (VStr t)) = true.
Proof.
  intros I. destruct this. simpl in I.
  destruct I as [<-|[<-|[]]]; unfold well_formed; cbn;
    intros W; repeat (apply andb_true_iff in W; destruct W as [W ?]);
    repeat (apply andb_true_iff; split); auto.
Qed.

Lemma get_numeric_well_formed this name :
  In name kNumericParts -> well_formed this = true ->
  exists cur, get this (VStr name) = VNum cur.
Proof.
  intros I. destruct this as [i ma mi pa pr bu]. simpl in I.
  unfold well_formed. cbn. intros W.
  repeat (apply andb_true_iff in W; destruct W as [W ?]).
  destruct I as [<-|[<-|[<-|[]]]]; cbn.
  - destruct ma; try discriminate; eauto.
  - destruct mi; try discriminate; eauto.
  - destruct pa; try discriminate; eauto.
Qed.

(** ** The operators on numbers *)

Lemma operator_of_numbers oname cur x :
  In oname kOperatorNames ->
  exists f, operator_of oname (VNum cur) (VNum x) = Normal (VNum (f cur x)) /\
            arithmetic_of (VStr oname) = Some f.
Proof.
  intros I. simpl in I.
  destruct I as [<-|[<-|[<-|[<-|[]]]]]; eexists; split; reflexivity.
Qed.



Lemma ToNumber_plain v : plain v = true -> exists x, ToNumber v = Normal x.
Proof. destruct v as [| |[]| | | |]; try discriminate; cbn; eauto. Qed.

Lemma ToString_plain v : plain v = true -> exists s, ToString v = Normal s.
Proof. destruct v; try discriminate; cbn; eauto. Qed.

Lemma arith_plain fn fz a b :
  plain a = true -> plain b = true -> exists r, arith fn fz a b = Normal r.
Proof.
  intros A B. unfold arith.
  destruct (ToNumber_plain a A) as (x & X), (ToNumber_plain b B) as (y & Y).
  assert (TA : ToNumeric a = Normal (NNumber x))
    by (destruct a; try discriminate; unfold ToNumeric; now rewrite X).
  assert (TB : ToNumeric b = Normal (NNumber y))
    by (destruct b; try discriminate; unfold ToNumeric; now rewrite Y).
  rewrite TA, TB. cbn. eauto.
Qed.

Lemma js_add_plain a b :
  plain a = true -> plain b = true -> exists r, js_add a b = Normal r.
Proof.
  intros A B.
  destruct (ToString_plain a A) as (x & X), (ToString_plain b B) as (y & Y).
  destruct (arith_plain num_add (fun p q => Normal (p + q)%Z) a b A B)
    as (r & R).
  unfold js_add.
  destruct a, b; try discriminate; rewrite ?X, ?Y, ?R; cbn [bind]; eauto.
Qed.

Lemma operator_of_plain oname a b :
  In oname kOperatorNames -> plain a = true -> plain b = true ->
  exists r, operator_of oname a b = Normal r.
Proof.
  intros I A B. simpl in I.
  destruct I as [<-|[<-|[<-|[<-|[]]]]].
  - now apply js_add_plain.
  - now apply arith_plain.
  - now apply arith_plain.
  - now apply arith_plain.
Qed.

Lemma get_numeric_plain this name :
  In name kNumericParts -> plain_fields this = true ->
  plain (get this (VStr name)) = true.
Proof.
  intros I. destruct this as [i ma mi pa pr bu]. simpl in I.
  unfold plain_fields. cbn. intros W.
  repeat (apply andb_true_iff in W; destruct W as [W ?]).
  destruct I as [<-|[<-|[<-|[]]]]; assumption.
Qed.

Lemma adjustBy_plain this part by_ operator :
  plain by_ = true -> plain_fields this = true ->
  exists r, adjustBy this part by_ operator = Normal r.
Proof.
  intros B F.
  destruct (guard_decided part kNumericParts (proj1 (proj2 names_no_numeral)))
    as [[_ (name & -> & I)]|[_ N]];
    [|rewrite adjustBy_bad_part by assumption; eauto].
  destruct (operator_decided operator) as [(oname & D & O)|N];
    [|rewrite adjustBy_bad_operator by assumption; eauto].
  rewrite (adjustBy_guarded this name by_ operator oname I D O).
  unfold isFinite. destruct (ToNumber_plain by_ B) as (x & ->). cbn [bind].
  destruct (num_is_finite x); cbn [negb]; eauto.
  destruct (operator_of_plain oname (get this (VStr name)) by_ O
              (get_numeric_plain this name I F) B) as (r & ->).
  cbn [bind]. eauto.
Qed.

Lemma Number_no_symbol v :
  is_symbol v = false -> exists x, Number_ v = Normal x.
Proof. destruct v as [| |[]| | | |]; try discriminate; cbn; eauto. Qed.

Lemma adjustTo_no_symbol this part to_ :
  is_symbol to_ = false -> exists r, adjustTo this part to_ = Normal r.
Proof.
  intros S.
  destruct (guard_decided part kAllParts (proj1 names_no_numeral))
    as [[_ (name & -> & I)]|[_ N]];
    [|rewrite adjustTo_bad_part by assumption; eauto].
  destruct (all_parts_split _ I) as [J|J].
  - rewrite (adjustTo_numeric this name to_ J).
    destruct (Number_no_symbol to_ S) as (x & ->). cbn [bind].
    destruct (num_is_nan x); eauto.
  - rewrite (adjustTo_textual this name to_ J). eauto.
Qed.

Lemma constructor_text (input : value) :
  constructor input =
  (result <- test (VStr (parsed_text input)) ;;
   match result with
   | None => Throw invalid_semver
   | Some result =>
       Normal {| input := VStr (parsed_text input);
                 major := Parsed.major result;
                 minor := Parsed.minor result;
                 patch := Parsed.patch result;
                 prerelease := Parsed.prerelease result;
                 build := Parsed.build result |}
   end).
Proof. reflexivity. Qed.



Lemma after_well_formed this c :
  well_formed this = true -> admissible c = true ->
  well_formed (after this c) = true.
Proof.
  intros W A. unfold after.
  assert (By : forall part x operator,
             match adjustBy this part (VNum x) operator with
             | Normal (_, this') => well_formed this' = true
             | Throw _ => True
             end).
  { intros part x operator.
    destruct (adjustBy_cases this part (VNum x) operator)
      as [H|[(e & H)|(name & oname & r & -> & I & O & _ & _ & R & H)]];
      rewrite H; auto.
    destruct (get_numeric_well_formed this name I W) as (cur & G).
    rewrite G in R.
    destruct (operator_of_numbers oname cur x O) as (f & R' & _).
    rewrite R' in R. injection R as <-.
    now apply set_numeric_well_formed. }
  destruct c as [part by_ operator|part to_|part by_]; cbn [perform].
  - destruct by_; try discriminate A.
    specialize (By part x operator).
    now destruct (adjustBy this part (VNum x) operator) as [[r this']|e].
  - destruct (adjustTo_cases this part to_)
      as [H|[(e & H)|[(name & x & -> & I & _ & _ & H)|(name & -> & I & H)]]];
      rewrite H; auto.
    + now apply set_numeric_well_formed.
    + now apply set_textual_well_formed.
  - unfold bump.
    destruct by_; try discriminate A; cbn [default].
    + specialize (By part (number_of_Z 1) VUndefined).
      now destruct (adjustBy this part _ VUndefined) as [[r this']|e].
    + specialize (By part x VUndefined).
      now destruct (adjustBy this part (VNum x) VUndefined) as [[r this']|e].
Qed.


(* ================================================================== *)
(** ** The model against the test suite *)
(* ================================================================== *)

(** Number::toString on familiar numbers. *)
Example NumberToString_samples :
  map NumberToString
      [number_of_decimal 1 (-1); number_of_decimal 15 (-1);
       num_add (number_of_decimal 1 (-1)) (number_of_decimal 2 (-1));
       number_of_decimal 1 21; number_of_decimal 5 (-324);
       num_div (number_of_Z (-10)) (number_of_Z 4);
       number_of_Z (2 ^ 69)]
  = [("0.1" : str); ("1.5" : str); ("0.30000000000000004" : str);
     ("1e+21" : str); ("5e-324" : str); ("-2.5" : str);
     ("590295810358705700000" : str)].
Proof. vm_compute. reflexivity. Qed.

(** The arithmetic cases of the suite. *)
Example suite_adjustBy :
  returned_and_text
    (adjustBy v123 (VStr "major") (VNum (number_of_Z 2)) VUndefined)
  = Normal (VNum (number_of_Z 3), ("3.2.3" : str)) /\
  returned_and_text
    (adjustBy v123 (VStr "minor") (VNum (number_of_Z 1)) (VStr "-"))
  = Normal (VNum (number_of_Z 1), ("1.1.3" : str)) /\
  returned_and_text
    (adjustBy v123 (VStr "patch") (VNum (number_of_Z 2)) (VStr "*"))
  = Normal (VNum (number_of_Z 6), ("1.2.6" : str)) /\
  (this <- constructor (VStr "1.10.10") ;;
   returned_and_text
     (adjustBy this (VStr "minor") (VNum (number_of_Z 2)) (VStr "/")))
  = Normal (VNum (number_of_Z 5), ("1.5.10" : str)).
Proof. repeat split; vm_compute; reflexivity. Qed.

Example suite_bump :
  returned_and_text (bump v123 (VStr "major") VUndefined)
  = Normal (VNum (number_of_Z 2), ("2.2.3" : str)) /\
  returned_and_text (bump v123 (VStr "minor") (VNum (number_of_Z 3)))
  = Normal (VNum (number_of_Z 5), ("1.5.3" : str)) /\
  returned_and_text (bump v123 (VStr "invalid") VUndefined)
  = Normal (VNull, ("1.2.3" : str)).
Proof. repeat split; vm_compute; reflexivity. Qed.

Example suite_adjustTo :
  returned_and_text (adjustTo v123 (VStr "prerelease") (VStr "beta"))
  = Normal (VStr "beta", ("1.2.3-beta" : str)) /\
  returned_and_text (adjustTo v123 (VStr "build") (VStr "xyz"))
  = Normal (VStr "xyz", ("1.2.3+xyz" : str)) /\
  returned_and_text (adjustTo v123 (VStr "major") (VStr "10"))
  = Normal (VNum (number_of_Z 10), ("10.2.3" : str)) /\
  returned_and_text (adjustTo v123 (VStr "prerelease") (VNum (number_of_Z 123)))
  = Normal (VStr "123", ("1.2.3-123" : str)).
Proof. repeat split; vm_compute; reflexivity. Qed.

Example suite_constructor :
  constructor (VStr "1.2.3") = Normal v123 /\
  constructor (VNum (number_of_Z 123)) = Throw invalid_semver /\
  Forall (fun s : str => roundtrip s = Normal s)
         [("1.2.3-alpha" : str); ("1.2.3+build.123" : str);
          ("1.2.3-beta.1+build.456" : str); ("1.0.0-0.3.7" : str);
          ("1.0.0-x.7.z.92" : str); ("1.0.0+001" : str);
          ("1.0.0+exp.sha.5114f85" : str); ("999.888.777" : str)].
Proof.
  split; [|split]; [vm_compute; reflexivity..|].
  repeat constructor; vm_compute; reflexivity.
Qed.

Example suite_identifiers :
  (p <- constructor (VStr "1.0.0-alpha.beta.1.2.3") ;; Normal (prerelease p))
  = Normal (VStr "alpha.beta.1.2.3") /\
  (p <- constructor (VStr "1.0.0+20130313144700.git.abc123") ;;
   Normal (build p))
  = Normal (VStr "20130313144700.git.abc123").
Proof. split; vm_compute; reflexivity. Qed.

(** Arithmetic is not clamped: a part can become negative or fractional. *)
Example negative_and_fractional :
  returned_and_text
    (adjustBy v123 (VStr "major") (VNum (number_of_Z 2)) (VStr "-"))
  = Normal (VNum (number_of_Z (-1)), ("-1.2.3" : str)) /\
  returned_and_text
    (adjustBy v123 (VStr "patch") (VNum (number_of_Z 2)) (VStr "/"))
  = Normal (VNum (number_of_decimal 15 (-1)), ("1.2.1.5" : str)).
Proof. split; vm_compute; reflexivity. Qed.

(* ================================================================== *)
(** ** Arguments of any kind *)
(* ================================================================== *)

(** On primitive values the class is as before. *)
Lemma test_Primitive (v : value) : Any.test (Any.Primitive v) = test v.
Proof. unfold Any.test. cbn [Any.String_ bind]. now rewrite <- test_String. Qed.

Lemma constructor_Primitive (v : value) :
  Any.constructor (Any.Primitive v) = constructor v.
Proof.
  unfold Any.constructor. cbn [Any.String_ bind].
  now rewrite (constructor_text (VStr _)), (constructor_text v).
Qed.

Lemma test_text (x : Any.any) (s : str) :
  Any.String_ x = Normal s -> Any.test x = test (VStr s).
Proof. intros E. unfold Any.test. now rewrite E. Qed.

Lemma test_conversion (x : Any.any) (e : error) :
  Any.String_ x = Throw e -> Any.test x = Throw e.
Proof. intros E. unfold Any.test. now rewrite E. Qed.

Lemma constructor_of_text (x : Any.any) (s : str) :
  Any.String_ x = Normal s -> Any.constructor x = constructor (VStr s).
Proof. intros E. unfold Any.constructor. now rewrite E. Qed.


Lemma lookup_operator_any name :
  In name kOperatorNames ->
  Any.lookup_operator (VStr name) = Some (Any.operator_of name).
Proof.
  intros I. simpl in I.
  destruct I as [<-|[<-|[<-|[<-|[]]]]]; reflexivity.
Qed.

Lemma operator_of_Primitive name a v :
  Any.operator_of name a (Any.Primitive v) = operator_of name a v.
Proof.
  unfold Any.operator_of, operator_of.
  destruct (str_eqb name "+"); [reflexivity|].
  destruct (str_eqb name "-"); [reflexivity|].
  destruct (str_eqb name "*"); reflexivity.
Qed.

Lemma isFinite_Primitive v : Any.isFinite (Any.Primitive v) = isFinite v.
Proof. reflexivity. Qed.

Lemma adjustBy_any_bad_part this part by_ operator :
  ~ In part (map VStr kNumericParts) ->
  Any.adjustBy this part by_ operator = Normal (VNull, this).
Proof.
  intros N. unfold Any.adjustBy.
  rewrite (guard_false _ _ _
             (guard_left part _ (proj1 (proj2 names_no_numeral))) N).
  reflexivity.
Qed.

Lemma adjustBy_any_bad_operator this part by_ operator :
  ~ In (default (VStr "+") operator) (map VStr kOperatorNames) ->
  Any.adjustBy this part by_ operator = Normal (VNull, this).
Proof.
  intros N. unfold Any.adjustBy.
  change Any.kOperatorNames with kOperatorNames.
  rewrite (guard_false _ _ _
             (guard_right _ _ (proj2 (proj2 names_no_numeral))) N).
  cbn [negb]. now destruct (negb _).
Qed.

Lemma adjustBy_any_guarded this name by_ operator oname :
  In name kNumericParts ->
  default (VStr "+") operator = VStr oname -> In oname kOperatorNames ->
  Any.adjustBy this (VStr name) by_ operator =
  (finite <- Any.isFinite by_ ;;
   if negb finite then Normal (VNull, this)
   else r <- Any.operator_of oname (get this (VStr name)) by_ ;;
        Normal (r, set this (VStr name) r)).
Proof.
  intros I D O. unfold Any.adjustBy. rewrite D.
  change Any.kOperatorNames with kOperatorNames.
  rewrite (guard_true _ _ _ (guard_left _ _ (proj1 (proj2 names_no_numeral)))
             (in_map VStr _ _ I)).
  rewrite (guard_true _ _ _ (guard_right _ _ (proj2 (proj2 names_no_numeral)))
             (in_map VStr _ _ O)).
  cbn [negb]. rewrite (lookup_operator_any _ O).
  destruct (Any.isFinite by_) as [[]|e]; cbn [bind negb]; try reflexivity.
  destruct (Any.operator_of oname _ by_) as [r|e]; cbn [bind]; [|reflexivity].
  now rewrite get_set by now apply numeric_parts_all.
Qed.

Lemma adjustBy_Primitive this part v operator :
  Any.adjustBy this part (Any.Primitive v) operator
  = adjustBy this part v operator.
Proof.
  destruct (guard_decided part kNumericParts (proj1 (proj2 names_no_numeral)))
    as [[_ (name & -> & I)]|[_ N]];
    [|now rewrite adjustBy_any_bad_part, adjustBy_bad_part].
  destruct (operator_decided operator) as [(oname & D & O)|N];
    [|now rewrite adjustBy_any_bad_operator, adjustBy_bad_operator].
  rewrite (adjustBy_any_guarded this name _ operator oname I D O).
  rewrite (adjustBy_guarded this name _ operator oname I D O).
  rewrite isFinite_Primitive.
  destruct (isFinite v) as [[]|e]; cbn [bind negb]; try reflexivity.
  now rewrite operator_of_Primitive.
Qed.

Lemma bump_Primitive this part v :
  Any.bump this part (Any.Primitive v) = bump this part v.
Proof.
  unfold Any.bump, bump.
  destruct v; cbn [Any.default default]; apply adjustBy_Primitive.
Qed.

Lemma adjustTo_any_bad_part this part to_ :
  ~ In part (map VStr kAllParts) ->
  Any.adjustTo this part to_ = Normal (VNull, this).
Proof.
  intros N. unfold Any.adjustTo.
  rewrite (guard_false _ _ _ (guard_left part _ (proj1 names_no_numeral)) N).
  reflexivity.
Qed.

Lemma adjustTo_any_numeric this name to_ :
  In name kNumericParts ->
  Any.adjustTo this (VStr name) to_ =
  (x <- Any.Number_ to_ ;;
   if num_is_nan x then Normal (VNull, this)
   else Normal (VNum x, set this (VStr name) (VNum x))).
Proof.
  intros I. unfold Any.adjustTo.
  rewrite (guard_true _ _ _ (guard_left _ _ (proj1 names_no_numeral))
             (in_map VStr _ _ (numeric_parts_all _ I))).
  rewrite (guard_true _ _ _ (guard_right _ _ (proj1 (proj2 names_no_numeral)))
             (in_map VStr _ _ I)).
  reflexivity.
Qed.

Lemma adjustTo_any_textual this name to_ :
  In name kStringParts ->
  Any.adjustTo this (VStr name) to_ =
  (s <- Any.String_ to_ ;;
   Normal (VStr s, set this (VStr name) (VStr s))).
Proof.
  intros I. simpl in I. destruct I as [<-|[<-|[]]]; reflexivity.
Qed.

Lemma adjustTo_Primitive this part v :
  Any.adjustTo this part (Any.Primitive v) = adjustTo this part v.
Proof. reflexivity. Qed.








Lemma String_any_throws (x : Any.any) (e : error) :
  Any.String_ x = Throw e ->
  exists toPrimitive,
    x = Any.Object toPrimitive /\
    (toPrimitive Any.hint_string = Throw e \/
     exists i d, toPrimitive Any.hint_string = Normal (VSymbol i d)).
Proof.
  destruct x as [v|conv]; cbn [Any.String_]; [discriminate|].
  intros H. exists conv. split; [reflexivity|].
  destruct (conv Any.hint_string) as [p|e'] eqn:E; cbn [bind] in H.
  - right. destruct p; try discriminate H. eauto.
  - left. congruence.
Qed.

(* ================================================================== *)
(** ** The claims *)
(* ================================================================== *)

(** C1, as stated, fails: the grammar accepts 9007199254740993.0.0, whose
    major part is 2^53 + 1; [parseInt] rounds it to the nearest number,
    2^53, and [toString] renders 9007199254740992.0.0, not the input. *)
Lemma roundtrip_loses_digits :
  accepted "9007199254740993.0.0" = true /\
  roundtrip "9007199254740993.0.0" = Normal ("9007199254740992.0.0" : str) /\
  roundtrip "9007199254740993.0.0" <> Normal ("9007199254740993.0.0" : str).
Proof.
  split; [vm_compute; reflexivity|].
  assert (R : roundtrip "9007199254740993.0.0"
              = Normal ("9007199254740992.0.0" : str))
    by (vm_compute; reflexivity).
  split; [exact R|]. rewrite R. discriminate.
Qed.

(** C1, amended: for every string [s] the grammar accepts whose major,
    minor and patch parts denote integers below 2^53, constructing an
    instance from [s] and calling [toString] returns exactly [s]. *)
Theorem roundtrip_safe (s : str) (m : captures) :
  exec regexp s = Some m -> safe_parts m = true ->
  roundtrip s = Normal s.
Proof.
  intros E B. pose proof E as E'. apply exec_regexp_inv in E'.
  destruct E' as (maj & min & pat & pre & bld & -> & S & Nmaj & Nmin & Npat
                  & Npre & Nbld).
  unfold safe_parts in B. cbn [nth safe_numeral] in B.
  apply andb_true_iff in B. destruct B as [B Bpat].
  apply andb_true_iff in B. destruct B as [Bmaj Bmin].
  apply Z.ltb_lt in Bmaj, Bmin, Bpat.
  unfold roundtrip.
  rewrite (constructor_matched _ _ _ _ _ _ E Nmaj Nmin Npat). cbn [bind].
  unfold toString. cbn [major minor patch prerelease build].
  rewrite (render_optional "-" pre Npre), (render_optional "+" bld Nbld).
  cbn [bind]. rewrite !render_safe by assumption.
  cbn [bind]. rewrite S. reflexivity.
Qed.

Lemma roundtrip_safe_witness :
  roundtrip "1.2.3-beta.1+build.456"
  = Normal ("1.2.3-beta.1+build.456" : str).
Proof.
  apply (roundtrip_safe "1.2.3-beta.1+build.456"
           [Some ("1.2.3-beta.1+build.456" : str); Some ("1" : str);
            Some ("2" : str); Some ("3" : str); Some ("beta.1" : str);
            Some ("build.456" : str)]); vm_compute; reflexivity.
Defined.

(** C2: each of "not.a.version", "1.2", "v1.2.3", "1.2.3.4" and "01.2.3"
    is rejected on both channels: [test] returns [null] and the
    constructor throws. *)
Theorem rejected_strings :
  Forall (fun s : str =>
            test (VStr s) = Normal None /\
            constructor (VStr s) = Throw invalid_semver)
         [("not.a.version" : str); ("1.2" : str); ("v1.2.3" : str);
          ("1.2.3.4" : str); ("01.2.3" : str)].
Proof. repeat constructor; vm_compute; reflexivity. Qed.

(** C3, as stated, fails twice: [test] throws for an object that has no
    conversion to a string, and for 9007199254740993.0.0 the matched
    major part denotes 2^53 + 1 while the major [test] returns is
    2^53. *)
Lemma test_throws_and_rounds :
  Any.test Any.bare = Throw Any.cannot_convert /\
  exists p x,
    Any.test (Any.Primitive (VStr "9007199254740993.0.0")) = Normal (Some p) /\
    Parsed.major p = VNum x /\
    integer_value x = Some 9007199254740992%Z /\
    decimal_value "9007199254740993" = 9007199254740993%Z.
Proof.
  split; [reflexivity|].
  eexists _, _. split; [vm_compute; reflexivity|].
  split; [reflexivity|]. split; vm_compute; reflexivity.
Qed.

(** C3, amended: for every input, [test] throws only what the conversion
    of the input to a string throws, which no primitive value and only
    an object does (its conversion to a primitive value throws or gives
    a symbol); otherwise it matches the pattern against the input as a
    string and returns [null] when there is no match; on a match it
    returns a record whose major, minor and patch are the numbers nearest
    to the base-10 values of the matched numeric parts (those very
    integers when they are below 2^53) and whose prerelease and build
    are the captured substrings, [undefined] for a group that took no
    part, and never the empty string. *)
Theorem test_spec (input : Any.any) :
  (forall v, input = Any.Primitive v ->
     Any.String_ input = Normal (String_ v)) /\
  (forall e, Any.String_ input = Throw e ->
     Any.test input = Throw e /\
     exists toPrimitive,
       input = Any.Object toPrimitive /\
       (toPrimitive Any.hint_string = Throw e \/
        exists i d, toPrimitive Any.hint_string = Normal (VSymbol i d))) /\
  (forall s, Any.String_ input = Normal s ->
     match exec regexp s with
     | None => Any.test input = Normal None
     | Some m =>
         exists maj min pat pre bld,
           m = [Some s; Some maj; Some min; Some pat; pre; bld] /\
           Any.test input =
           Normal (Some {| Parsed.major :=
                             VNum (number_of_Z (decimal_value maj));
                           Parsed.minor :=
                             VNum (number_of_Z (decimal_value min));
                           Parsed.patch :=
                             VNum (number_of_Z (decimal_value pat));
                           Parsed.prerelease := optional pre;
                           Parsed.build := optional bld |}) /\
           (forall t, In t [maj; min; pat] -> (decimal_value t < two53)%Z ->
                      integer_value (number_of_Z (decimal_value t))
                      = Some (decimal_value t)) /\
           optional pre <> VStr [] /\ optional bld <> VStr []
     end).
Proof.
  split; [|split].
  - now intros v ->.
  - intros e E. split; [now apply test_conversion|].
    now apply String_any_throws.
  - intros s S. rewrite (test_text input s S).
    destruct (exec regexp s) as [m|] eqn:E.
    + pose proof E as E'. apply exec_regexp_inv in E'.
      destruct E' as (maj & min & pat & pre & bld & -> & R & Nmaj & Nmin
                      & Npat & Npre & Nbld).
      exists maj, min, pat, pre, bld.
      split; [reflexivity|]. split; [|split; [|split]].
      * now apply test_matched.
      * intros t _ B. apply integer_value_small.
        split; [apply decimal_value_nonneg|assumption].
      * destruct pre as [[|]|]; simpl; discriminate.
      * destruct bld as [[|]|]; simpl; discriminate.
    + now apply test_unmatched.
Qed.

Lemma test_spec_witness :
  Any.test (Any.array_of "1.2.3-rc.1") =
  Normal (Some {| Parsed.major := VNum (number_of_Z 1);
                  Parsed.minor := VNum (number_of_Z 2);
                  Parsed.patch := VNum (number_of_Z 3);
                  Parsed.prerelease := VStr "rc.1";
                  Parsed.build := VUndefined |}).
Proof.
  pose proof (proj2 (proj2 (test_spec (Any.array_of "1.2.3-rc.1")))
                "1.2.3-rc.1" eq_refl) as H.
  assert (E : exec regexp "1.2.3-rc.1"
              = Some [Some ("1.2.3-rc.1" : str); Some ("1" : str);
                      Some ("2" : str); Some ("3" : str);
                      Some ("rc.1" : str); None])
    by (vm_compute; reflexivity).
  rewrite E in H. destruct H as (maj & min & pat & pre & bld & M & T & _).
  injection M as <- <- <- <- <-. rewrite T. vm_compute. reflexivity.
Defined.






(** C6, as stated, fails: on a textual part [adjustTo] does not always
    succeed; it throws for a value that is an object with no conversion
    to a string. *)
Lemma adjustTo_object_throws :
  Any.adjustTo v123 (VStr "prerelease") Any.bare = Throw Any.cannot_convert /\
  Any.adjustTo v123 (VStr "build")
    (Any.Object (fun _ => Normal (VSymbol 0 None)))
  = Throw (TypeError "Cannot convert a Symbol value to a string").
Proof. split; reflexivity. Qed.

(** C6, amended: [adjustTo] on a numeric part converts the value with
    [Number]; it throws what that conversion throws, and otherwise, when
    the conversion gives NaN, returns [null] and changes nothing, else
    stores and returns the number; a string of digits converts to the
    number it denotes, never to NaN.  On prerelease or build it converts
    the value with [String], which succeeds for every primitive value;
    it throws what that conversion throws (for an object only), and
    otherwise stores and returns the string.  A part that is none of the
    five names gives [null] and changes nothing. *)
Theorem adjustTo_spec (this : instance) (part : value) (to_ : Any.any) :
  (forall name, part = VStr name -> In name kNumericParts ->
     (forall e, Any.Number_ to_ = Throw e ->
        Any.adjustTo this part to_ = Throw e) /\
     (forall x, Any.Number_ to_ = Normal x ->
        (num_is_nan x = true ->
         Any.adjustTo this part to_ = Normal (VNull, this)) /\
        (num_is_nan x = false ->
         Any.adjustTo this part to_
         = Normal (VNum x, set this part (VNum x)) /\
         get (set this part (VNum x)) part = VNum x))) /\
  (forall ds, to_ = Any.Primitive (VStr ds) -> ds <> [] ->
     forallb is_digit ds = true ->
     Any.Number_ to_ = Normal (number_of_Z (decimal_value ds)) /\
     num_is_nan (number_of_Z (decimal_value ds)) = false) /\
  (forall name, part = VStr name -> In name kStringParts ->
     (forall v, to_ = Any.Primitive v ->
        Any.String_ to_ = Normal (String_ v)) /\
     (forall e, Any.String_ to_ = Throw e ->
        Any.adjustTo this part to_ = Throw e /\
        exists toPrimitive,
          to_ = Any.Object toPrimitive /\
          (toPrimitive Any.hint_string = Throw e \/
           exists i d, toPrimitive Any.hint_string = Normal (VSymbol i d))) /\
     (forall s, Any.String_ to_ = Normal s ->
        Any.adjustTo this part to_
        = Normal (VStr s, set this part (VStr s)) /\
        get (set this part (VStr s)) part = VStr s)) /\
  (~ In part (map VStr kAllParts) ->
   Any.adjustTo this part to_ = Normal (VNull, this)).
Proof.
  split; [|split; [|split]].
  - intros name -> I. rewrite (adjustTo_any_numeric this name to_ I).
    split.
    + now intros e ->.
    + intros x ->. cbn [bind]. split; intros X; rewrite X; [reflexivity|].
      split; [reflexivity|]. apply get_set, numeric_parts_all, I.
  - intros ds -> N D. cbn [Any.Number_ Number_ ToNumber].
    rewrite StringToNumber_digits by assumption.
    split; [reflexivity|apply number_of_Z_not_nan].
  - intros name -> I. rewrite (adjustTo_any_textual this name to_ I).
    split; [now intros v ->|]. split.
    + intros e E. split; [now rewrite E|]. now apply String_any_throws.
    + intros s ->. cbn [bind]. split; [reflexivity|].
      apply get_set. simpl in *. tauto.
  - apply adjustTo_any_bad_part.
Qed.

Lemma adjustTo_spec_witness :
  Any.adjustTo v123 (VStr "major") (Any.Primitive (VStr "not-a-number"))
    = Normal (VNull, v123) /\
  Any.adjustTo v123 (VStr "major") (Any.array_of "10")
    = Normal (VNum (number_of_Z 10),
              set v123 (VStr "major") (VNum (number_of_Z 10))) /\
  Any.Number_ (Any.Primitive (VStr "10"))
    = Normal (number_of_Z (decimal_value "10")) /\
  Any.adjustTo v123 (VStr "prerelease") (Any.Primitive (VNum (number_of_Z 123)))
    = Normal (VStr "123", set v123 (VStr "prerelease") (VStr "123")) /\
  Any.adjustTo v123 (VStr "build") (Any.array_of "exp.7")
    = Normal (VStr "exp.7", set v123 (VStr "build") (VStr "exp.7")) /\
  Any.adjustTo v123 (VStr "invalid") (Any.Primitive (VNum (number_of_Z 1)))
    = Normal (VNull, v123).
Proof.
  assert (M : In ("major" : str) kNumericParts) by (simpl; auto).
  assert (P : In ("prerelease" : str) kStringParts) by (simpl; auto).
  assert (B : In ("build" : str) kStringParts) by (simpl; auto).
  split; [|split; [|split; [|split; [|split]]]].
  - apply (proj2 (proj1 (adjustTo_spec v123 (VStr "major")
                           (Any.Primitive (VStr "not-a-number")))
                    "major" eq_refl M) NaN); reflexivity.
  - apply (proj2 (proj1 (adjustTo_spec v123 (VStr "major")
                           (Any.array_of "10"))
                    "major" eq_refl M) (number_of_Z 10)); reflexivity.
  - apply (proj1 (proj2 (adjustTo_spec v123 (VStr "major")
                           (Any.Primitive (VStr "10")))) "10");
      try reflexivity. discriminate.
  - apply (proj2 (proj2 (proj1 (proj2 (proj2
             (adjustTo_spec v123 (VStr "prerelease")
                (Any.Primitive (VNum (number_of_Z 123))))))
             "prerelease" eq_refl P)) "123"); reflexivity.
  - apply (proj2 (proj2 (proj1 (proj2 (proj2
             (adjustTo_spec v123 (VStr "build") (Any.array_of "exp.7"))))
             "build" eq_refl B)) "exp.7"); reflexivity.
  - apply (proj2 (proj2 (proj2 (adjustTo_spec v123 (VStr "invalid")
                                  (Any.Primitive (VNum (number_of_Z 1))))))).
    intros H; vm_compute in H; intuition discriminate.
Defined.

(** C7: for every instance whose fields have their documented types,
    [toString] returns major.minor.patch, then "-" and the prerelease
    exactly when the prerelease is truthy, then "+" and the build exactly
    when the build is truthy; a prerelease or build is truthy exactly
    when it is a string that is not empty, so the empty string is left
    out like [undefined]. *)
Theorem toString_spec (this : instance) :
  well_formed this = true ->
  toString this =
  Normal (String_ (major this) ++ "." ++ String_ (minor this) ++ "."
          ++ String_ (patch this)
          ++ (if ToBoolean (prerelease this)
              then "-" ++ String_ (prerelease this) else [])
          ++ (if ToBoolean (build this)
              then "+" ++ String_ (build this) else []))
  /\ (ToBoolean (prerelease this) = true <->
      exists x w, prerelease this = VStr (x :: w))
  /\ (ToBoolean (build this) = true <->
      exists x w, build this = VStr (x :: w)).
Proof.
  destruct this as [i ma mi pa pr bu]. unfold well_formed.
  cbn [major minor patch prerelease build].
  intros W. repeat (apply andb_true_iff in W; destruct W as [W ?]).
  split; [|split].
  - unfold toString. cbn [major minor patch prerelease build].
    destruct ma, mi, pa; try discriminate.
    destruct pr as [| | | |[|]| |], bu as [| | | |[|]| |]; try discriminate;
      reflexivity.
  - destruct pr as [| | | |[|]| |]; try discriminate; cbn [ToBoolean];
      split; try discriminate; eauto;
      intros (x & w & E); discriminate E.
  - destruct bu as [| | | |[|]| |]; try discriminate; cbn [ToBoolean];
      split; try discriminate; eauto;
      intros (x & w & E); discriminate E.
Qed.

Lemma toString_spec_witness :
  toString (set v123 (VStr "prerelease") (VStr [])) = Normal ("1.2.3" : str).
Proof.
  destruct (toString_spec (set v123 (VStr "prerelease") (VStr [])))
    as (T & _); [reflexivity|].
  rewrite T. vm_compute. reflexivity.
Defined.

(** C8: constructing from an input whose text is "undefined" does not
    fail: 0.0.0 is parsed in its place, so the instance has major, minor
    and patch 0 and no prerelease and build. *)
Theorem constructor_default (input : value) :
  String_ input = ("undefined" : str) ->
  constructor input =
  Normal {| input := VStr "0.0.0";
            major := VNum (S754_zero false);
            minor := VNum (S754_zero false);
            patch := VNum (S754_zero false);
            prerelease := VUndefined;
            build := VUndefined |}.
Proof. intros E. unfold constructor. rewrite E. vm_compute. reflexivity. Qed.

Lemma constructor_default_witness :
  constructor VUndefined =
  Normal {| input := VStr "0.0.0";
            major := VNum (S754_zero false);
            minor := VNum (S754_zero false);
            patch := VNum (S754_zero false);
            prerelease := VUndefined;
            build := VUndefined |}.
Proof. apply (constructor_default VUndefined). reflexivity. Defined.

(** C9: from an instance whose fields have their documented types, after
    any sequence of [adjustBy], [adjustTo] and [bump] calls whose amounts
    are numbers, major, minor and patch are still numbers (of any sign,
    integral or not) and prerelease and build still [undefined] or a
    string. *)
Theorem fields_stay_typed (this : instance) (calls : list call) :
  well_formed this = true -> forallb admissible calls = true ->
  well_formed (fold_left after calls this) = true.
Proof.
  revert this. induction calls as [|c calls IH]; intros this W A.
  - exact W.
  - simpl in A. apply andb_true_iff in A. destruct A as [Ac A].
    simpl. apply IH; [|exact A]. now apply after_well_formed.
Qed.

Lemma fields_stay_typed_witness :
  well_formed
    (fold_left after
       [AdjustBy (VStr "major") (VNum (number_of_Z 2)) (VStr "-");
        AdjustBy (VStr "patch") (VNum (number_of_Z 2)) (VStr "/");
        AdjustTo (VStr "build") (VNum (number_of_Z 7));
        Bump (VStr "minor") VUndefined] v123) = true.
Proof. apply fields_stay_typed; reflexivity. Defined.

(** C10: a call of [adjustBy], [bump] or [adjustTo] that returns changes
    at most the field its part names: the stored input and each of major,
    minor, patch, prerelease and build that the part does not name are
    afterwards what they were before. *)
Theorem frame (this this' : instance) (c : call) (r : value) :
  perform this c = Normal (r, this') ->
  input this' = input this /\
  (part_of c <> VStr kMajor -> major this' = major this) /\
  (part_of c <> VStr kMinor -> minor this' = minor this) /\
  (part_of c <> VStr kPatch -> patch this' = patch this) /\
  (part_of c <> VStr kPrerelease -> prerelease this' = prerelease this) /\
  (part_of c <> VStr kBuild -> build this' = build this).
Proof.
  assert (Same : forall name v,
             In name kAllParts ->
             input (set this (VStr name) v) = input this /\
             (VStr name <> VStr kMajor ->
              major (set this (VStr name) v) = major this) /\
             (VStr name <> VStr kMinor ->
              minor (set this (VStr name) v) = minor this) /\
             (VStr name <> VStr kPatch ->
              patch (set this (VStr name) v) = patch this) /\
             (VStr name <> VStr kPrerelease ->
              prerelease (set this (VStr name) v) = prerelease this) /\
             (VStr name <> VStr kBuild ->
              build (set this (VStr name) v) = build this)).
  { intros name v I.
    destruct (set_frame this name v I) as (F0 & F1 & F2 & F3 & F4 & F5).
    repeat split; auto; intros N; [apply F1|apply F2|apply F3|apply F4|apply F5];
      congruence. }
  assert (By : forall part by_ operator,
             adjustBy this part by_ operator = Normal (r, this') ->
             this' = this \/
             exists name v, part = VStr name /\ In name kAllParts /\
                            this' = set this (VStr name) v).
  { intros part by_ operator E.
    destruct (adjustBy_cases this part by_ operator)
      as [H|[(e & H)|(name & oname & v & -> & I & _ & _ & _ & _ & H)]];
      rewrite H in E; [injection E as <- <-; auto|discriminate|].
    injection E as <- <-. right. exists name, v.
    auto using numeric_parts_all. }
  assert (To : forall part to_,
             adjustTo this part to_ = Normal (r, this') ->
             this' = this \/
             exists name v, part = VStr name /\ In name kAllParts /\
                            this' = set this (VStr name) v).
  { intros part to_ E.
    destruct (adjustTo_cases this part to_)
      as [H|[(e & H)|[(name & x & -> & I & _ & _ & H)|(name & -> & I & H)]]];
      rewrite H in E; [injection E as <- <-; auto|discriminate| |];
      injection E as <- <-; right; eexists _, _;
      (split; [reflexivity|]); (split; [|reflexivity]).
    - now apply numeric_parts_all.
    - simpl in *. tauto. }
  intros E.
  assert (Cases : this' = this \/
                  exists name v, part_of c = VStr name /\ In name kAllParts /\
                                 this' = set this (VStr name) v).
  { destruct c as [part by_ operator|part to_|part by_]; cbn in *; eauto. }
  destruct Cases as [->|(name & v & -> & I & ->)]; [tauto|].
  now apply Same.
Qed.

Lemma frame_witness :
  input (set v123 (VStr "minor") (VNum (number_of_Z 1))) = input v123 /\
  major (set v123 (VStr "minor") (VNum (number_of_Z 1))) = major v123.
Proof.
  destruct (frame v123 (set v123 (VStr "minor") (VNum (number_of_Z 1)))
              (AdjustBy (VStr "minor") (VNum (number_of_Z 1)) (VStr "-"))
              (VNum (number_of_Z 1)))
    as (F0 & F1 & _).
  - vm_compute. reflexivity.
  - split; [exact F0|]. apply F1. discriminate.
Defined.

(* ================================================================== *)
(** ** The grammar of versions *)
(* ================================================================== *)

(** ** Identifiers of the grammar *)

Section Identifiers.
Variable whole : nat.

Lemma den_star_class_iff ranges (w s' : str) c :
  forallb (fun x => in_class x ranges) w = true ->
  den whole (Star (Cls ranges)) (w ++ s') c s' c.
Proof.
  induction w as [|x w IH]; simpl; intros F.
  - apply den_star_nil.
  - apply andb_true_iff in F. destruct F as [Fx F].
    eapply den_star_cons.
    + simpl. now apply den_cls.
    + simpl. rewrite length_app. lia.
    + now apply IH.
Qed.

(** What an identifier of build metadata is. *)
Lemma den_build_identifier s c s' c' :
  den whole (Plus identifier_characters) s c s' c' ->
  exists t, s = t ++ s' /\ build_identifierb t = true /\ c' = c.
Proof.
  intros H. apply den_plus_inv in H. destruct H as (s1 & c1 & H1 & H2).
  apply den_cls_inv in H1. destruct H1 as (x & -> & I & ->).
  apply den_star_class in H2. destruct H2 as (w & -> & F & ->).
  exists (x :: w). repeat split.
  simpl. unfold is_identifier_character at 1. rewrite I. exact F.
Qed.

Lemma build_identifier_den (t s' : str) c :
  build_identifierb t = true ->
  den whole (Plus identifier_characters) (t ++ s') c s' c.
Proof.
  destruct t as [|x w]; [discriminate|]. intros F. simpl in F.
  apply andb_true_iff in F. destruct F as [Fx F].
  eapply den_plus.
  - simpl. now apply den_cls.
  - now apply den_star_class_iff.
Qed.

Lemma digit_identifier_character x :
  Host.is_digit x = true -> is_identifier_character x = true.
Proof.
  unfold Host.is_digit, is_identifier_character, in_class. simpl.
  now intros ->.
Qed.

Lemma digits_identifier_characters (w : str) :
  forallb Host.is_digit w = true -> forallb is_identifier_character w = true.
Proof.
  induction w as [|x w IH]; simpl; [reflexivity|].
  intros F. apply andb_true_iff in F. destruct F as [Fx F].
  now rewrite digit_identifier_character, IH.
Qed.

Lemma letter_cases x :
  in_class x [("a"%char, "z"%char); ("A"%char, "Z"%char);
              ("-"%char, "-"%char)]
  = is_identifier_character x && negb (Host.is_digit x).
Proof. destruct x as [[] [] [] [] [] [] [] []]; reflexivity. Qed.

Lemma one_to_nine_cases x :
  in_class x [("1"%char, "9"%char)]
  = Host.is_digit x && negb (Ascii.eqb x "0").
Proof. destruct x as [[] [] [] [] [] [] [] []]; reflexivity. Qed.

Lemma class_digits (w : str) :
  forallb Host.is_digit w = true ->
  forallb (fun x => in_class x [("0"%char, "9"%char)]) w = true.
Proof.
  induction w as [|x w IH]; cbn [forallb]; [reflexivity|].
  intros F. apply andb_true_iff in F. destruct F as [Fx F].
  apply andb_true_iff. split; [|now apply IH].
  unfold in_class. cbn [existsb]. rewrite orb_false_r. exact Fx.
Qed.

(** What a pre-release identifier is. *)
Lemma den_prerelease_identifier_shape s c s' c' :
  den whole prerelease_identifier s c s' c' ->
  exists t, s = t ++ s' /\ prerelease_identifierb t = true /\ c' = c.
Proof.
  intros H. pose proof (den_groupless _ _ _ _ _ _ H eq_refl) as ->.
  apply den_alt_inv in H. destruct H as [H|H];
    [|apply den_alt_inv in H; destruct H as [H|H]].
  - apply den_chr_inv in H. destruct H as [-> _].
    exists ["0"%char]. auto.
  - apply den_cat_inv in H. destruct H as (s1 & c1 & H1 & H2).
    apply den_cls_inv in H1. destruct H1 as (x & -> & I & ->).
    apply den_star_class in H2. destruct H2 as (w & -> & F & _).
    apply forallb_digit in F.
    exists (x :: w). repeat split.
    pose proof (one_to_nine x I w F) as N.
    rewrite one_to_nine_cases in I. apply andb_true_iff in I.
    destruct I as [Dx _].
    unfold prerelease_identifierb.
    assert (A : forallb Host.is_digit (x :: w) = true)
      by (simpl; now rewrite Dx, F).
    rewrite A, N, andb_true_r. unfold build_identifierb.
    now apply digits_identifier_characters.
  - apply den_cat_inv in H. destruct H as (s1 & c1 & H1 & H2).
    apply den_star_class in H1. destruct H1 as (w1 & -> & F1 & ->).
    apply forallb_digit in F1.
    apply den_cat_inv in H2. destruct H2 as (s2 & c2 & H2 & H3).
    apply den_cls_inv in H2. destruct H2 as (x & -> & I & ->).
    apply den_star_class in H3. destruct H3 as (w2 & -> & F2 & _).
    exists (w1 ++ x :: w2). split; [now rewrite <- app_assoc|].
    split; [|reflexivity].
    rewrite letter_cases in I. apply andb_true_iff in I.
    destruct I as [Ix Nx]. apply negb_true_iff in Nx.
    unfold prerelease_identifierb.
    assert (A : forallb Host.is_digit (w1 ++ x :: w2) = false).
    { rewrite forallb_app. simpl. rewrite Nx. now rewrite andb_false_r. }
    rewrite A, andb_true_r. unfold build_identifierb.
    assert (B : forallb is_identifier_character (w1 ++ x :: w2) = true).
    { rewrite forallb_app. simpl.
      rewrite (digits_identifier_characters w1 F1), Ix. exact F2. }
    rewrite B. now destruct w1.
Qed.

Lemma numeric_identifier_den (t s' : str) c :
  numeric_identifierb t = true ->
  den whole numeric_identifier (t ++ s') c s' c.
Proof.
  intros N. destruct t as [|x w]; [discriminate|].
  destruct (Ascii.eqb x "0") eqn:Z.
  - apply Ascii.eqb_eq in Z. subst x. destruct w; [|discriminate].
    apply den_alt_l. simpl. apply den_chr.
  - assert (D : forallb Host.is_digit (x :: w) = true).
    { revert N Z. destruct x as [[] [] [] [] [] [] [] []];
        simpl; intros N Z; try exact N; discriminate. }
    simpl in D. apply andb_true_iff in D. destruct D as [Dx Dw].
    apply den_alt_r. eapply den_cat.
    + simpl. apply den_cls. rewrite one_to_nine_cases, Dx, Z. reflexivity.
    + apply den_star_class_iff. now apply class_digits.
Qed.

Lemma span_spec (p : ascii -> bool) (t : str) :
  let '(a, b) := span p t in
  t = a ++ b /\ forallb p a = true /\
  match b with [] => True | x :: _ => p x = false end.
Proof.
  induction t as [|x t IH]; simpl; [auto|].
  destruct (p x) eqn:P.
  - destruct (span p t) as [a b]. destruct IH as (-> & F & B).
    simpl. rewrite P. auto.
  - simpl. auto.
Qed.

Lemma prerelease_identifier_den (t s' : str) c :
  prerelease_identifierb t = true ->
  den whole prerelease_identifier (t ++ s') c s' c.
Proof.
  unfold prerelease_identifierb. intros H.
  apply andb_true_iff in H. destruct H as [B N].
  destruct (forallb Host.is_digit t) eqn:D.
  - pose proof (numeric_identifier_den t s' c N) as H.
    apply den_alt_inv in H. destruct H as [H|H].
    + now apply den_alt_l.
    + apply den_alt_r. now apply den_alt_l.
  - clear N. pose proof (span_spec Host.is_digit t) as S.
    destruct (span Host.is_digit t) as [w1 b]. destruct S as (-> & F1 & X).
    destruct b as [|x w2].
    { rewrite app_nil_r in D. congruence. }
    assert (Bt : forallb is_identifier_character (w1 ++ x :: w2) = true).
    { unfold build_identifierb in B. destruct w1; exact B. }
    rewrite forallb_app in Bt. apply andb_true_iff in Bt.
    destruct Bt as [_ Bt]. simpl in Bt. apply andb_true_iff in Bt.
    destruct Bt as [Ix F2].
    apply den_alt_r. apply den_alt_r. rewrite <- app_assoc.
    eapply den_cat; [apply den_star_class_iff; now apply class_digits|].
    eapply den_cat.
    + simpl. apply den_cls. rewrite letter_cases, Ix, X. reflexivity.
    + now apply den_star_class_iff.
Qed.

(** A run of dot-led parts, each matched by the same group-free
    pattern. *)
Lemma den_dotted r (P : str -> Prop) s c s' c' :
  groups r = [] ->
  (forall s c s' c', den whole r s c s' c' -> exists t, s = t ++ s' /\ P t) ->
  den whole (Star (Cat (Chr ".") r)) s c s' c' ->
  exists ids, Forall P ids /\ c' = c /\
              s = concat (map (fun u => "."%char :: u) ids) ++ s'.
Proof.
  intros G R H. remember (Star (Cat (Chr ".") r)) as q eqn:Q.
  induction H; try discriminate.
  - exists []. auto.
  - injection Q as ->.
    apply den_cat_inv in H. destruct H as (s3 & c3 & H3 & H4).
    apply den_chr_inv in H3. destruct H3 as [-> ->].
    pose proof (den_groupless _ _ _ _ _ _ H4 G) as ->.
    apply R in H4. destruct H4 as (t & -> & Pt).
    destruct (IHden2 eq_refl) as (ids & F & -> & ->).
    exists (t :: ids). simpl. rewrite G. simpl.
    split; [now constructor|]. split; [reflexivity|].
    now rewrite <- app_assoc.
Qed.

Lemma dotted_den r (p : str -> bool) (ids : list str) (s' : str) c :
  groups r = [] ->
  (forall t s' c, p t = true -> den whole r (t ++ s') c s' c) ->
  forallb p ids = true ->
  den whole (Star (Cat (Chr ".") r))
      (concat (map (fun u => "."%char :: u) ids) ++ s') c s' c.
Proof.
  intros G R. induction ids as [|t ids IH]; simpl; intros F.
  - apply den_star_nil.
  - apply andb_true_iff in F. destruct F as [Ft F].
    eapply den_star_cons.
    + simpl. rewrite G. simpl. eapply den_cat; [apply den_chr|].
      rewrite <- app_assoc. now apply R.
    + simpl. rewrite !length_app. lia.
    + now apply IH.
Qed.
End Identifiers.

(** ** Completeness of the matcher *)

Section Completeness.
Variable whole : nat.

(** The matcher finds a match whenever the relation has one that the
    rest of the pattern accepts. *)
Lemma mtch_complete_gen r s c s' c' :
  den whole r s c s' c' ->
  forall k, k s' c' <> None ->
    mtch whole r s c k <> None /\
    (forall r0, r = Star r0 -> forall fuel, (length s <= fuel)%nat ->
       repeat_matcher (mtch whole r0) (groups r0) fuel s c k <> None).
Proof.
  induction 1; intros k K.
  - split; [|discriminate]. simpl. subst whole. now rewrite Nat.eqb_refl.
  - split; [|discriminate]. exact K.
  - split; [|discriminate]. simpl. now rewrite Ascii.eqb_refl.
  - split; [|discriminate]. simpl. now rewrite H.
  - split; [|discriminate]. simpl.
    apply IHden1. now apply IHden2.
  - split; [|discriminate]. simpl.
    destruct (mtch whole r1 s c k) eqn:E; [discriminate|].
    exfalso. now apply (proj1 (IHden k K)).
  - split; [|discriminate]. simpl.
    destruct (mtch whole r1 s c k); [discriminate|].
    now apply IHden.
  - assert (A : forall fuel,
               repeat_matcher (mtch whole r) (groups r) fuel s c k
               <> None).
    { intros [|fuel]; simpl; [exact K|].
      now destruct (mtch whole r s (clear (groups r) c) _). }
    split; [apply A|]. intros r0 E fuel _. injection E as <-. apply A.
  - assert (A : forall fuel, (length s <= fuel)%nat ->
               repeat_matcher (mtch whole r) (groups r) fuel s c k
               <> None).
    { intros [|fuel] L; [lia|]. simpl.
      destruct (mtch whole r s (clear (groups r) c) _) eqn:E; [discriminate|].
      exfalso. revert E. apply IHden1.
      apply Nat.ltb_lt in H0. rewrite H0.
      apply (proj2 (IHden2 k K) r eq_refl). apply Nat.ltb_lt in H0. lia. }
    split; [now apply A|]. intros r0 E fuel L. injection E as <-. now apply A.
  - split; [|discriminate]. simpl. apply IHden1.
    now apply (proj2 (IHden2 k K) r eq_refl).
  - split; [|discriminate]. simpl.
    now destruct (mtch whole r s (clear (groups r) c) _).
  - split; [|discriminate]. simpl.
    destruct (mtch whole r s (clear (groups r) c) _) eqn:E; [discriminate|].
    exfalso. revert E. apply IHden.
    apply Nat.ltb_lt in H0. now rewrite H0.
  - split; [|discriminate]. simpl. now apply IHden.
Qed.

Lemma mtch_complete r s c s' c' k :
  den whole r s c s' c' -> k s' c' <> None -> mtch whole r s c k <> None.
Proof. intros D K. now apply (mtch_complete_gen r s c s' c' D k K). Qed.
End Completeness.

(** ** The pattern and the grammar *)

Lemma Forall_forallb {A} (p : A -> bool) (l : list A) :
  Forall (fun x => p x = true) l -> forallb p l = true.
Proof. induction 1; simpl; [reflexivity|]. now rewrite H, IHForall. Qed.

Section Shape.
Variable whole : nat.

(** An optional, marked and captured list of dot-separated parts. *)
Lemma den_optional_tags mark n r (p : str -> bool) s c s' c' :
  den whole (Opt (Cat (Chr mark)
                      (Grp n (Cat r (Star (Cat (Chr ".") r)))))) s c s' c' ->
  groups r = [] ->
  (forall s c s' c', den whole r s c s' c' ->
                     exists t, s = t ++ s' /\ p t = true) ->
  exists tags,
    tagsb p tags = true /\
    s = suffix [mark] (option_map join tags) ++ s' /\
    (c' = c /\ tags = None \/
     c' = set_nth n (option_map join tags) (set_nth n None c)).
Proof.
  intros H G R. apply den_opt_inv in H. destruct H as [[-> ->]|H].
  - exists None. auto.
  - apply den_cat_inv in H. destruct H as (s1 & c1 & H1 & H2).
    apply den_chr_inv in H1. destruct H1 as [-> ->].
    apply den_grp_inv in H2. destruct H2 as (c2 & H2 & ->).
    apply den_cat_inv in H2. destruct H2 as (s3 & c3 & H3 & H4).
    pose proof (den_groupless _ _ _ _ _ _ H3 G) as ->.
    apply R in H3. destruct H3 as (t & -> & Pt).
    apply (den_dotted whole r (fun t => p t = true)) in H4; [|exact G|exact R].
    destruct H4 as (ids & F & -> & ->).
    exists (Some (t :: ids)). split; [|split].
    + simpl. rewrite Pt. now apply Forall_forallb.
    + simpl. now rewrite <- app_assoc.
    + right. simpl. rewrite G. simpl.
      rewrite app_assoc, consumed_app. reflexivity.
Qed.

(** Shape of a successful match of the pattern, tags included. *)
Lemma den_regexp_shape s s' c' :
  den whole regexp s c0 s' c' ->
  exists maj min pat pre bld,
    s' = [] /\
    c' = [None; Some maj; Some min; Some pat;
          option_map join pre; option_map join bld] /\
    s = render maj min pat pre bld /\
    numeric_identifierb maj = true /\
    numeric_identifierb min = true /\
    numeric_identifierb pat = true /\
    tagsb prerelease_identifierb pre = true /\
    tagsb build_identifierb bld = true.
Proof.
  intros H. unfold regexp in H.
  apply den_cat_inv in H. destruct H as (s1 & c1 & H1 & H).
  apply den_bol_inv in H1. destruct H1 as (-> & -> & _).
  apply den_cat_inv in H. destruct H as (s1 & c1 & H1 & H).
  apply den_grp_inv in H1. destruct H1 as (c1' & H1 & ->).
  apply den_numeric_identifier in H1. destruct H1 as (maj & -> & Nmaj & ->).
  apply den_cat_inv in H. destruct H as (s2 & c2 & H1 & H).
  apply den_chr_inv in H1. destruct H1 as [-> ->].
  apply den_cat_inv in H. destruct H as (s1 & c1 & H1 & H).
  apply den_grp_inv in H1. destruct H1 as (c1' & H1 & ->).
  apply den_numeric_identifier in H1. destruct H1 as (min & -> & Nmin & ->).
  apply den_cat_inv in H. destruct H as (s2 & c2 & H1 & H).
  apply den_chr_inv in H1. destruct H1 as [-> ->].
  apply den_cat_inv in H. destruct H as (s1 & c1 & H1 & H).
  apply den_grp_inv in H1. destruct H1 as (c1' & H1 & ->).
  apply den_numeric_identifier in H1. destruct H1 as (pat & -> & Npat & ->).
  rewrite !consumed_app in H.
  apply den_cat_inv in H. destruct H as (s2 & c2 & H1 & H).
  apply (den_optional_tags _ _ _ prerelease_identifierb) in H1;
    [|reflexivity|].
  2:{ intros ? ? ? ? D. apply den_prerelease_identifier_shape in D.
      destruct D as (t & E & P & _). eauto. }
  destruct H1 as (pre & Vpre & -> & Cpre).
  apply den_cat_inv in H. destruct H as (s3 & c3 & H1 & H).
  apply (den_optional_tags _ _ _ build_identifierb) in H1; [|reflexivity|].
  2:{ intros ? ? ? ? D. apply den_build_identifier in D.
      destruct D as (t & E & P & _). eauto. }
  destruct H1 as (bld & Vbld & -> & Cbld).
  apply den_eol_inv in H. destruct H as (-> & -> & ->).
  exists maj, min, pat, pre, bld.
  rewrite app_nil_r.
  split; [reflexivity|]. split; [|split]; [| |auto 10].
  - destruct Cpre as [[Ec Ep]|Ec], Cbld as [[Ec' Eb]|Ec']; subst; reflexivity.
  - reflexivity.
Qed.

Lemma den_cat_ex r1 r2 s c s1 c1 s2 :
  den whole r1 s c s1 c1 ->
  (exists c', den whole r2 s1 c1 s2 c') ->
  exists c', den whole (Cat r1 r2) s c s2 c'.
Proof. intros H1 [c' H2]. exists c'. eapply den_cat; eassumption. Qed.

Lemma optional_tags_den mark n r (p : str -> bool) tags (s' : str) c :
  groups r = [] ->
  (forall t s' c, p t = true -> den whole r (t ++ s') c s' c) ->
  tagsb p tags = true ->
  exists c',
    den whole (Opt (Cat (Chr mark) (Grp n (Cat r (Star (Cat (Chr ".") r))))))
        (suffix [mark] (option_map join tags) ++ s') c s' c'.
Proof.
  intros G R V. destruct tags as [[|t ids]|].
  - discriminate.
  - simpl in V. apply andb_true_iff in V. destruct V as [Pt F].
    eexists. apply den_opt_some.
    + simpl. eapply den_cat; [apply den_chr|]. apply den_grp.
      rewrite <- app_assoc. eapply den_cat; [now apply R|].
      now apply (dotted_den whole r p).
    + simpl. rewrite !length_app. lia.
  - eexists. apply den_opt_none.
Qed.

(** Every well-formed version text has a match. *)
Lemma regexp_den (maj min pat : str) (pre bld : option (list str)) :
  numeric_identifierb maj = true ->
  numeric_identifierb min = true ->
  numeric_identifierb pat = true ->
  tagsb prerelease_identifierb pre = true ->
  tagsb build_identifierb bld = true ->
  whole = length (render maj min pat pre bld) ->
  exists c', den whole regexp (render maj min pat pre bld) c0 [] c'.
Proof.
  intros Nmaj Nmin Npat Vpre Vbld W.
  unfold regexp, render.
  eapply den_cat_ex; [apply den_bol; now rewrite W|].
  eapply den_cat_ex; [apply den_grp; now apply numeric_identifier_den|].
  eapply den_cat_ex; [apply den_chr|].
  eapply den_cat_ex; [apply den_grp; now apply numeric_identifier_den|].
  eapply den_cat_ex; [apply den_chr|].
  eapply den_cat_ex; [apply den_grp; now apply numeric_identifier_den|].
  match goal with |- exists c', den _ _ _ ?c _ _ =>
    destruct (optional_tags_den "-"%char 4%nat prerelease_identifier
                prerelease_identifierb pre
                (suffix "+" (option_map join bld)) c
                eq_refl (prerelease_identifier_den whole) Vpre) as (cp & Dp)
  end.
  eapply den_cat_ex; [exact Dp|].
  destruct (optional_tags_den "+"%char 5%nat (Plus identifier_characters)
              build_identifierb bld [] cp
              eq_refl (build_identifier_den whole) Vbld) as (cb & Db).
  rewrite app_nil_r in Db.
  eapply den_cat_ex; [exact Db|].
  eexists. apply den_eol.
Qed.
End Shape.

(** ** One text, one reading *)

Lemma span_app (p : ascii -> bool) (a b : str) :
  forallb p a = true ->
  match b with [] => True | x :: _ => p x = false end ->
  span p (a ++ b) = (a, b).
Proof.
  intros A B. induction a as [|x a IH]; simpl.
  - destruct b as [|y b]; [reflexivity|]. simpl. now rewrite B.
  - simpl in A. apply andb_true_iff in A. destruct A as [-> A].
    now rewrite IH.
Qed.

(** A run of characters of one kind followed by a character of another
    kind splits in one way only. *)
Lemma split_unique (p : ascii -> bool) (a b a' b' : str) :
  forallb p a = true -> forallb p a' = true ->
  match b with [] => True | x :: _ => p x = false end ->
  match b' with [] => True | x :: _ => p x = false end ->
  a ++ b = a' ++ b' -> a = a' /\ b = b'.
Proof.
  intros A A' B B' E.
  pose proof (span_app p a b A B) as S1.
  pose proof (span_app p a' b' A' B') as S2.
  rewrite E, S2 in S1. now injection S1 as -> ->.
Qed.

Lemma build_identifier_characters (t : str) :
  build_identifierb t = true -> forallb is_identifier_character t = true.
Proof. destruct t; [discriminate|]. intros H; exact H. Qed.

Lemma prerelease_is_build_identifier (t : str) :
  prerelease_identifierb t = true -> build_identifierb t = true.
Proof. intros H. apply andb_true_iff in H. apply H. Qed.

Lemma identifier_is_prerelease_character (t : str) :
  forallb is_identifier_character t = true ->
  forallb is_prerelease_character t = true.
Proof.
  induction t as [|x t IH]; simpl; [reflexivity|].
  intros H. apply andb_true_iff in H. destruct H as [Hx Ht].
  unfold is_prerelease_character at 1. rewrite Hx. simpl. now apply IH.
Qed.

Lemma join_prerelease_characters (ids : list str) :
  forallb prerelease_identifierb ids = true ->
  forallb is_prerelease_character (join ids) = true.
Proof.
  destruct ids as [|t ids]; simpl; [reflexivity|].
  intros H. apply andb_true_iff in H. destruct H as [Ht H].
  rewrite forallb_app. apply andb_true_iff. split.
  - now apply identifier_is_prerelease_character,
      build_identifier_characters, prerelease_is_build_identifier.
  - induction ids as [|u ids IH]; simpl; [reflexivity|].
    simpl in H. apply andb_true_iff in H. destruct H as [Hu H].
    rewrite forallb_app. rewrite IH by assumption.
    rewrite andb_true_r.
    now apply identifier_is_prerelease_character,
      build_identifier_characters, prerelease_is_build_identifier.
Qed.

(** The text of a version determines its five parts. *)
Lemma render_unique maj min pat pre bld maj' min' pat' pre' bld' :
  numeric_identifierb maj = true -> numeric_identifierb maj' = true ->
  numeric_identifierb min = true -> numeric_identifierb min' = true ->
  numeric_identifierb pat = true -> numeric_identifierb pat' = true ->
  tagsb prerelease_identifierb pre = true ->
  tagsb prerelease_identifierb pre' = true ->
  render maj min pat pre bld = render maj' min' pat' pre' bld' ->
  maj = maj' /\ min = min' /\ pat = pat' /\
  option_map join pre = option_map join pre' /\
  option_map join bld = option_map join bld'.
Proof.
  intros A A' B B' C C' P P' E. unfold render in E.
  apply numeric_identifier_digits in A, A', B, B', C, C'.
  apply (split_unique is_digit) in E; try assumption; try reflexivity.
  destruct E as [-> E]. injection E as E.
  apply (split_unique is_digit) in E; try assumption; try reflexivity.
  destruct E as [-> E]. injection E as E.
  assert (T : forall (p b : option (list str)),
             match suffix "-" (option_map join p)
                   ++ suffix "+" (option_map join b) with
             | [] => True | x :: _ => is_digit x = false end).
  { intros [p|] [b|]; simpl; auto. }
  apply (split_unique is_digit) in E; try assumption; try apply T.
  destruct E as [-> E]. repeat (split; [reflexivity|]).
  assert (Q : forall p, tagsb prerelease_identifierb p = true ->
              match option_map join p with
              | Some t => forallb is_prerelease_character t = true
              | None => True end).
  { intros [ids|] V; simpl; [|exact I].
    apply join_prerelease_characters.
    destruct ids; [discriminate|exact V]. }
  apply Q in P, P'.
  assert (U : forall b : option str,
             match suffix "+" b with
             | [] => True | x :: _ => is_prerelease_character x = false end).
  { intros [b|]; simpl; auto. }
  assert (W : forall b b' : option str,
             suffix "+" b = suffix "+" b' -> b = b').
  { intros [b|] [b'|] H; simpl in H; try discriminate; [|reflexivity].
    now injection H as ->. }
  destruct (option_map join pre) as [p|], (option_map join pre') as [p'|];
    simpl in E.
  - injection E as E.
    apply (split_unique is_prerelease_character) in E;
      try assumption; try apply U.
    destruct E as [-> E]. split; [reflexivity|]. now apply W.
  - destruct (option_map join bld'); discriminate.
  - destruct (option_map join bld); discriminate.
  - split; [reflexivity|]. now apply W.
Qed.

(** X1: the strings the pattern matches are exactly the texts of the
    grammar, and the array of a match holds the whole text, the three
    numeric identifiers and the two optional dotted lists. *)
Theorem exec_regexp_iff (s : str) (m : captures) :
  exec SemVer.regexp s = Some m <->
  exists maj min pat pre bld,
    numeric_identifierb maj = true /\
    numeric_identifierb min = true /\
    numeric_identifierb pat = true /\
    tagsb prerelease_identifierb pre = true /\
    tagsb build_identifierb bld = true /\
    s = render maj min pat pre bld /\
    m = [Some s; Some maj; Some min; Some pat;
         option_map join pre; option_map join bld].
Proof.
  assert (F : forall s m, exec SemVer.regexp s = Some m ->
    exists maj min pat pre bld,
    numeric_identifierb maj = true /\
    numeric_identifierb min = true /\
    numeric_identifierb pat = true /\
    tagsb prerelease_identifierb pre = true /\
    tagsb build_identifierb bld = true /\
    s = render maj min pat pre bld /\
    m = [Some s; Some maj; Some min; Some pat;
         option_map join pre; option_map join bld]).
  { clear. intros s m. rewrite exec_regexp. unfold match_at. intros H.
    apply mtch_sound in H. destruct H as (s' & c' & D & K).
    apply den_regexp_shape in D.
    destruct D as (maj & min & pat & pre & bld & -> & -> & E & N).
    exists maj, min, pat, pre, bld.
    rewrite consumed_nil in K. simpl in K. injection K as <-.
    intuition. }
  split; [apply F|].
  intros (maj & min & pat & pre & bld & A & B & C & P & Q & -> & ->).
  destruct (exec SemVer.regexp (render maj min pat pre bld)) as [m|] eqn:E.
  - apply F in E.
    destruct E as (maj' & min' & pat' & pre' & bld'
                   & A' & B' & C' & P' & Q' & E & ->).
    apply render_unique in E; try assumption.
    destruct E as (-> & -> & -> & -> & ->). reflexivity.
  - exfalso. rewrite exec_regexp in E. unfold match_at in E.
    destruct (regexp_den (length (render maj min pat pre bld))
                maj min pat pre bld A B C P Q eq_refl) as (c' & D).
    revert E. eapply mtch_complete; [exact D|discriminate].
Qed.

(** ** Construction from the parts *)

Lemma version_parts maj min pat pre bld :
  version maj min pat pre bld = true <->
  numeric_identifierb maj = true /\
  numeric_identifierb min = true /\
  numeric_identifierb pat = true /\
  tagsb prerelease_identifierb pre = true /\
  tagsb build_identifierb bld = true.
Proof. unfold version. rewrite !andb_true_iff. tauto. Qed.

Lemma exec_regexp_version (s : str) (m : captures) :
  exec SemVer.regexp s = Some m <->
  exists maj min pat pre bld,
    version maj min pat pre bld = true /\
    s = render maj min pat pre bld /\
    m = [Some s; Some maj; Some min; Some pat;
         option_map join pre; option_map join bld].
Proof.
  rewrite exec_regexp_iff. split;
    intros (maj & min & pat & pre & bld & H);
    exists maj, min, pat, pre, bld; rewrite version_parts in *; tauto.
Qed.

Lemma constructor_version (input : value) (this : instance) :
  constructor input = Normal this <->
  exists maj min pat pre bld,
    version maj min pat pre bld = true /\
    parsed_text input = render maj min pat pre bld /\
    this = built (parsed_text input) maj min pat pre bld.
Proof.
  rewrite constructor_text.
  destruct (exec SemVer.regexp (parsed_text input)) as [m|] eqn:E.
  - pose proof E as E'. apply exec_regexp_version in E'.
    destruct E' as (maj & min & pat & pre & bld & V & R & ->).
    pose proof V as V'. apply version_parts in V'.
    destruct V' as (A & B & C & _).
    rewrite (test_matched _ _ _ _ _ _ E A B C). simpl.
    split.
    + intros H. injection H as <-. exists maj, min, pat, pre, bld. auto.
    + intros (maj' & min' & pat' & pre' & bld' & V' & R' & ->).
      assert (E' : exec SemVer.regexp (parsed_text input) =
                   Some [Some (parsed_text input); Some maj'; Some min';
                         Some pat'; option_map join pre';
                         option_map join bld'])
        by (apply exec_regexp_version; eauto 10).
      rewrite E in E'. injection E' as -> -> -> -> ->. reflexivity.
  - rewrite (test_unmatched (VStr (parsed_text input)) E). simpl. split.
    + discriminate.
    + intros (maj & min & pat & pre & bld & V & R & _).
      assert (E' : exec SemVer.regexp (parsed_text input) =
                   Some [Some (parsed_text input); Some maj; Some min;
                         Some pat; option_map join pre;
                         option_map join bld])
        by (apply exec_regexp_version; eauto 10).
      congruence.
Qed.

Lemma parsed_text_idempotent (input : value) :
  parsed_text (VStr (parsed_text input)) = parsed_text input.
Proof.
  unfold parsed_text. cbn [String_].
  destruct (str_eqb (String_ input) "undefined") eqn:E.
  - reflexivity.
  - now rewrite E.
Qed.

Lemma constructor_parsed_text (input : value) :
  constructor (VStr (parsed_text input)) = constructor input.
Proof. now rewrite (constructor_text (VStr _)), parsed_text_idempotent,
         <- constructor_text. Qed.

Lemma constructor_input_text (input : value) (this : instance) :
  constructor input = Normal this ->
  SemVer.input this = VStr (parsed_text input).
Proof.
  rewrite constructor_text.
  destruct (test (VStr (parsed_text input))) as [[r|]|]; simpl;
    try discriminate.
  now intros H; injection H as <-.
Qed.

(** ** What the methods can throw *)





Lemma set_numeric_text this name t :
  In name kNumericParts -> well_formed (set this (VStr name) (VStr t)) = false.
Proof.
  intros I. destruct this as [i ma mi pa pr bu]. simpl in I.
  destruct I as [<-|[<-|[<-|[]]]]; unfold well_formed; cbn;
    rewrite ?andb_false_r; reflexivity.
Qed.

Lemma adjustBy_text this name cur t operator oname :
  In name kNumericParts -> get this (VStr name) = VNum cur ->
  default (VStr "+") operator = VStr oname -> In oname kOperatorNames ->
  num_is_finite (StringToNumber t) = true ->
  adjustBy this (VStr name) (VStr t) operator =
  (r <- operator_of oname (VNum cur) (VStr t) ;;
   Normal (r, set this (VStr name) r)).
Proof.
  intros I G D O F.
  rewrite (adjustBy_guarded this name (VStr t) operator oname I D O).
  unfold isFinite. cbn [ToNumber bind]. rewrite F, G. reflexivity.
Qed.

(** ** Writing numbers and reading them back *)

Lemma digits_of_uint_digits d : forallb is_digit (digits_of_uint d) = true.
Proof. induction d; simpl; auto. Qed.

Lemma uint_of_digits_of_uint d : uint_of_digits (digits_of_uint d) = d.
Proof.
  unfold uint_of_digits.
  induction d; simpl; try reflexivity; now rewrite IHd.
Qed.

(** Writing a natural number and reading it again gives it back. *)
Lemma decimal_value_digits (a : Z) :
  (0 <= a)%Z -> decimal_value (decimal_digits a) = a.
Proof.
  intros H. unfold decimal_value, decimal_digits.
  rewrite uint_of_digits_of_uint, DecimalN.Unsigned.of_to. lia.
Qed.

Lemma unorm_numeric_identifier d :
  Decimal.unorm d = d -> numeric_identifierb (digits_of_uint d) = true.
Proof.
  intros U.
  destruct d; try (simpl; apply digits_of_uint_digits).
  - discriminate U.
  - unfold Decimal.unorm in U. rewrite DecimalFacts.nzhead_D0 in U.
    destruct (Decimal.nzhead d) eqn:E; try discriminate U.
    + injection U as <-. reflexivity.
    + now apply DecimalFacts.nzhead_nonzero in E.
Qed.

(** The digits of a number are a numeric identifier. *)
Lemma decimal_digits_numeric (a : Z) :
  numeric_identifierb (decimal_digits a) = true.
Proof.
  unfold decimal_digits. apply unorm_numeric_identifier.
  now rewrite <- DecimalN.Unsigned.to_of, DecimalN.Unsigned.of_to.
Qed.

Lemma join_nonempty (ids : list str) :
  ids <> [] -> forallb build_identifierb ids = true -> join ids <> [].
Proof.
  destruct ids as [|t ids]; [congruence|]. intros _ H. simpl in H.
  apply andb_true_iff in H. destruct H as [H _].
  destruct t; [discriminate|]. discriminate.
Qed.

Lemma tags_nonempty (p : str -> bool) tags :
  (forall t, p t = true -> build_identifierb t = true) ->
  tagsb p tags = true -> nonempty (option_map join tags) = true.
Proof.
  intros B V. destruct tags as [ids|]; [|reflexivity]. simpl.
  destruct (join ids) eqn:E; [|reflexivity].
  exfalso. revert E. apply join_nonempty.
  - destruct ids; [discriminate|congruence].
  - destruct ids as [|u ids]; [discriminate|].
    change (forallb p (u :: ids) = true) in V.
    apply forallb_forall. intros t I. apply B.
    now apply (proj1 (forallb_forall p _) V).
Qed.

Lemma toString_version (i : value) (a b c : Z) (pre bld : option (list str)) :
  (0 <= a < two53)%Z -> (0 <= b < two53)%Z -> (0 <= c < two53)%Z ->
  tagsb prerelease_identifierb pre = true ->
  tagsb build_identifierb bld = true ->
  toString {| input := i;
              major := VNum (number_of_Z a);
              minor := VNum (number_of_Z b);
              patch := VNum (number_of_Z c);
              prerelease := optional (option_map join pre);
              build := optional (option_map join bld) |}
  = Normal (render (decimal_digits a) (decimal_digits b) (decimal_digits c)
              pre bld).
Proof.
  intros A B C P Q. unfold toString.
  cbn [major minor patch prerelease build].
  rewrite (render_optional "-" _
             (tags_nonempty _ _ prerelease_is_build_identifier P)).
  rewrite (render_optional "+" _ (tags_nonempty _ _ (fun _ H => H) Q)).
  cbn [bind ToString String_].
  rewrite !NumberToString_small by assumption. reflexivity.
Qed.

Lemma render_not_undefined maj min pat pre bld :
  numeric_identifierb maj = true ->
  str_eqb (render maj min pat pre bld) "undefined" = false.
Proof.
  intros H. destruct maj as [|x maj]; [discriminate|].
  apply numeric_identifier_digits in H. simpl in H.
  apply andb_true_iff in H. destruct H as [H _].
  unfold render. simpl. unfold str_eqb.
  destruct (list_eq_dec _ _ _) as [E|]; [|reflexivity].
  injection E as -> _. discriminate.
Qed.

Lemma constructor_render (maj min pat : str) (pre bld : option (list str)) :
  version maj min pat pre bld = true ->
  constructor (VStr (render maj min pat pre bld))
  = Normal (built (render maj min pat pre bld) maj min pat pre bld).
Proof.
  intros V. apply constructor_version.
  assert (T : parsed_text (VStr (render maj min pat pre bld))
              = render maj min pat pre bld).
  { unfold parsed_text. cbn [String_].
    rewrite render_not_undefined; [reflexivity|].
    now apply version_parts in V. }
  exists maj, min, pat, pre, bld. rewrite T. auto.
Qed.

(** ** Exact arithmetic on safe integers *)

Lemma shr_1_even z :
  (0 < z)%Z ->
  shr_1 {| shr_m := z * 2; shr_r := false; shr_s := false |}
  = {| shr_m := z; shr_r := false; shr_s := false |}.
Proof.
  intros H. destruct z as [|q|q]; try lia.
  replace (Zpos q * 2)%Z with (Zpos q~0) by lia. reflexivity.
Qed.

(** Shifting out zero bits loses nothing. *)
Lemma iter_pos_shr_1_exact n : forall z,
  (0 < z)%Z ->
  iter_pos shr_1 n
    {| shr_m := z * 2 ^ Zpos n; shr_r := false; shr_s := false |}
  = {| shr_m := z; shr_r := false; shr_s := false |}.
Proof.
  induction n as [n IH|n IH|]; intros z H; cbn [iter_pos].
  - replace (z * 2 ^ Zpos n~1)%Z with (z * 2 ^ Zpos n * 2 ^ Zpos n * 2)%Z.
    + rewrite shr_1_even by nia. rewrite IH by nia. now apply IH.
    + replace (Zpos n~1) with (Zpos n + Zpos n + 1)%Z by lia.
      rewrite !Z.pow_add_r by lia. lia.
  - replace (z * 2 ^ Zpos n~0)%Z with (z * 2 ^ Zpos n * 2 ^ Zpos n)%Z.
    + rewrite IH by nia. now apply IH.
    + replace (Zpos n~0) with (Zpos n + Zpos n)%Z by lia.
      rewrite !Z.pow_add_r by lia. lia.
  - now apply shr_1_even.
Qed.

Lemma scaled_digits (m mx : positive) (j : Z) :
  (0 <= j)%Z -> (Zpos mx = Zpos m * 2 ^ j)%Z ->
  (Zpos (digits2_pos mx) = Zpos (digits2_pos m) + j)%Z.
Proof.
  intros J E. destruct j as [|k|k]; [| |lia].
  - simpl in E. assert (mx = m) by lia. subst. lia.
  - rewrite <- iter_xO_value in E. injection E as ->.
    rewrite iter_xO_digits. lia.
Qed.

(** A number written with more bits than it needs rounds to itself. *)
Lemma binary_round_aux_exact (m mx : positive) (j e : Z) :
  digits2_pos m = 53%positive -> (0 <= j)%Z ->
  (Zpos mx = Zpos m * 2 ^ j)%Z -> (-1074 <= e <= 971)%Z ->
  binary_round_aux prec emax false (Zpos mx) (e - j) loc_Exact
  = S754_finite false m e.
Proof.
  intros Dm J E R.
  pose proof (scaled_digits m mx j J E) as Dx. rewrite Dm in Dx.
  assert (S1 : (fexp prec emax (Zdigits2 (Zpos mx) + (e - j)) - (e - j)
                = j)%Z).
  { change (Zdigits2 (Zpos mx)) with (Zpos (digits2_pos mx)). rewrite Dx.
    unfold fexp, emin, prec, emax. lia. }
  assert (S0 : (fexp prec emax (Zdigits2 (Zpos m) + e) - e = 0)%Z).
  { change (Zdigits2 (Zpos m)) with (Zpos (digits2_pos m)). rewrite Dm.
    unfold fexp, emin, prec, emax. lia. }
  unfold binary_round_aux, shr_fexp. rewrite S1.
  assert (A : shr (shr_record_of_loc (Zpos mx) loc_Exact) (e - j) j
              = ({| shr_m := Zpos m; shr_r := false; shr_s := false |}, e)).
  { unfold shr. destruct j as [|k|k]; [| |lia].
    - simpl in E. assert (mx = m) by lia. subst.
      cbn [shr_record_of_loc]. f_equal. lia.
    - cbn [shr_record_of_loc]. rewrite E.
      rewrite iter_pos_shr_1_exact by lia. f_equal. lia. }
  rewrite A.
  cbn [shr_m loc_of_shr_record round_nearest_even].
  rewrite S0. cbn [shr shr_record_of_loc shr_m].
  replace (e <=? emax - prec)%Z with true
    by (symmetry; apply Z.leb_le; unfold emax, prec; lia).
  reflexivity.
Qed.

Lemma canonical_exponent (q m : positive) (e : Z) :
  (-52 <= e <= 0)%Z -> (Zpos m = Zpos q * 2 ^ (- e))%Z ->
  digits2_pos m = 53%positive -> (Zpos (digits2_pos q) = 53 + e)%Z.
Proof.
  intros R E D.
  pose proof (scaled_digits q m (- e) ltac:(lia) E) as H.
  rewrite D in H. lia.
Qed.

Lemma binary_round_exact (q mx : positive) (k : Z) :
  (Zpos q < two53)%Z -> (0 <= k)%Z -> (Zpos mx = Zpos q * 2 ^ k)%Z ->
  binary_round prec emax false mx (- k) = number_of_Z (Zpos q).
Proof.
  intros Q K E.
  destruct (number_of_small_pos_canonical q Q) as (m & e & -> & R & V & D).
  pose proof (canonical_exponent q m e R V D) as Dq.
  pose proof (scaled_digits q mx k K E) as Dx.
  unfold binary_round. rewrite Dx.
  assert (F : fexp prec emax (Zpos (digits2_pos q) + k + - k) = e)
    by (rewrite Dq; unfold fexp, emin, prec, emax; lia).
  rewrite F. unfold shl_align.
  destruct (e - - k)%Z as [|d|d] eqn:S.
  - replace (- k)%Z with (e - 0)%Z by lia.
    apply binary_round_aux_exact; try assumption; try lia.
    rewrite E, V. replace (- e)%Z with k by lia. simpl. lia.
  - replace (- k)%Z with (e - Zpos d)%Z by lia.
    apply binary_round_aux_exact; try assumption; try lia.
    rewrite E, V. rewrite <- Z.mul_assoc, <- Z.pow_add_r by lia.
    f_equal. f_equal. lia.
  - replace e with (e - 0)%Z at 1 by lia.
    apply binary_round_aux_exact; try assumption; try lia.
    rewrite iter_xO_value, E, V.
    rewrite <- Z.mul_assoc, <- Z.pow_add_r by lia.
    rewrite Z.pow_0_r. replace (k + Zpos d)%Z with (- e)%Z by lia. lia.
Qed.

Lemma binary_normalize_exact (z w k : Z) :
  (0 <= z < two53)%Z -> (0 <= k)%Z -> (w = z * 2 ^ k)%Z ->
  binary_normalize prec emax w (- k) false = number_of_Z z.
Proof.
  intros Z K ->. destruct z as [|q|q]; [reflexivity| |lia].
  assert (P : (0 < Zpos q * 2 ^ k)%Z) by (apply Z.mul_pos_pos; lia).
  destruct (Zpos q * 2 ^ k)%Z as [|mx|mx] eqn:E; try lia.
  unfold binary_normalize. apply binary_round_exact; [lia|lia|now rewrite E].
Qed.

Lemma shl_align_value m e e' :
  (e' <= e)%Z -> (Zpos (fst (shl_align m e e')) = Zpos m * 2 ^ (e - e'))%Z.
Proof.
  intros H. unfold shl_align.
  destruct (e' - e)%Z as [|d|d] eqn:S; try lia; cbn [fst].
  - replace (e - e')%Z with 0%Z by lia. simpl. lia.
  - rewrite iter_xO_value. f_equal. f_equal. lia.
Qed.

Lemma aligned (x : Z) (m : positive) (e ez : Z) :
  (e <= 0)%Z -> (ez <= e)%Z -> (Zpos m = x * 2 ^ (- e))%Z ->
  (Zpos (fst (shl_align m e ez)) = x * 2 ^ (- ez))%Z.
Proof.
  intros E Z V. rewrite shl_align_value, V by assumption.
  rewrite <- Z.mul_assoc, <- Z.pow_add_r by lia. f_equal. f_equal. lia.
Qed.

Lemma number_of_safe (x : Z) :
  (0 <= x < two53)%Z ->
  x = 0%Z /\ number_of_Z x = S754_zero false \/
  exists m e, number_of_Z x = S754_finite false m e /\
              (-52 <= e <= 0)%Z /\ (Zpos m = x * 2 ^ (- e))%Z /\
              digits2_pos m = 53%positive.
Proof.
  intros H. destruct x as [|q|q]; [left; auto| |lia].
  right. apply number_of_small_pos_canonical. lia.
Qed.

Lemma number_of_safe_finite (x : Z) :
  (0 <= x < two53)%Z -> num_is_finite (number_of_Z x) = true.
Proof.
  intros H.
  destruct (number_of_safe x H) as [[_ ->]|(m & e & -> & _)]; reflexivity.
Qed.

(** Sums of safe integers are exact. *)
Lemma num_add_exact (x y : Z) :
  (0 <= x)%Z -> (0 <= y)%Z -> (x + y < two53)%Z ->
  num_add (number_of_Z x) (number_of_Z y) = number_of_Z (x + y).
Proof.
  intros X Y S.
  destruct (number_of_safe x ltac:(lia)) as [[-> Ex]|(m1 & e1 & Ex & R1 & V1 & _)];
  destruct (number_of_safe y ltac:(lia)) as [[-> Ey]|(m2 & e2 & Ey & R2 & V2 & _)].
  - reflexivity.
  - rewrite Ex. simpl Z.add. rewrite Ey. reflexivity.
  - rewrite Ey, Z.add_0_r, Ex. reflexivity.
  - rewrite Ex, Ey. unfold num_add, SFadd. cbn [cond_Zopp].
    set (ez := Z.min e1 e2).
    replace ez with (- - ez)%Z at 3 by lia.
    apply binary_normalize_exact; [lia|lia|].
    rewrite (aligned x m1 e1 ez), (aligned y m2 e2 ez) by (assumption || lia).
    lia.
Qed.

(** Differences of safe integers are exact. *)
Lemma num_sub_exact (x y : Z) :
  (0 <= y <= x)%Z -> (x < two53)%Z ->
  num_sub (number_of_Z x) (number_of_Z y) = number_of_Z (x - y).
Proof.
  intros Y X.
  destruct (number_of_safe x ltac:(lia)) as [[-> Ex]|(m1 & e1 & Ex & R1 & V1 & _)];
  destruct (number_of_safe y ltac:(lia)) as [[-> Ey]|(m2 & e2 & Ey & R2 & V2 & _)].
  - reflexivity.
  - lia.
  - rewrite Ey, Z.sub_0_r, Ex. reflexivity.
  - rewrite Ex, Ey. unfold num_sub, SFsub. cbn [cond_Zopp].
    set (ez := Z.min e1 e2).
    replace ez with (- - ez)%Z at 3 by lia.
    apply binary_normalize_exact; [lia|lia|].
    rewrite (aligned x m1 e1 ez), (aligned y m2 e2 ez) by (assumption || lia).
    lia.
Qed.

(** Products of safe integers are exact. *)
Lemma num_mul_exact (x y : Z) :
  (0 <= x < two53)%Z -> (0 <= y < two53)%Z -> (x * y < two53)%Z ->
  num_mul (number_of_Z x) (number_of_Z y) = number_of_Z (x * y).
Proof.
  intros X Y S.
  destruct (number_of_safe x X) as [[-> Ex]|(m1 & e1 & Ex & R1 & V1 & D1)];
  destruct (number_of_safe y Y) as [[-> Ey]|(m2 & e2 & Ey & R2 & V2 & D2)].
  - reflexivity.
  - rewrite Ex. simpl Z.mul. rewrite Ey. reflexivity.
  - rewrite Ey, Z.mul_0_r, Ex. reflexivity.
  - assert (P : (0 < x /\ 0 < y)%Z).
    { split; [destruct x|destruct y]; simpl in *; lia. }
    destruct (number_of_safe (x * y) ltac:(nia))
      as [[Z0 _]|(m & e & E & R & V & D)]; [nia|].
    rewrite Ex, Ey, E. unfold num_mul, SFmul. cbn [xorb].
    pose proof (digits2_pos_bounds m1) as B1. rewrite D1 in B1.
    pose proof (digits2_pos_bounds m2) as B2. rewrite D2 in B2.
    pose proof (digits2_pos_bounds m) as B. rewrite D in B.
    change (2 ^ (53 - 1))%Z with 4503599627370496%Z in *.
    change (2 ^ 53)%Z with 9007199254740992%Z in *.
    assert (M : (Zpos (m1 * m2) = x * y * 2 ^ (- e1 - e2))%Z).
    { rewrite Pos2Z.inj_mul, V1, V2.
      replace (- e1 - e2)%Z with (- e1 + - e2)%Z by lia.
      rewrite Z.pow_add_r by lia. lia. }
    assert (J : (0 <= e - e1 - e2)%Z).
    { destruct (Z.le_gt_cases 0 (e - e1 - e2)) as [L|L]; [exact L|exfalso].
      assert (P2 : (2 ^ (- e) = 2 ^ (- e1 - e2) * 2 ^ (e1 + e2 - e))%Z).
      { rewrite <- Z.pow_add_r by lia. f_equal. lia. }
      assert (T : (2 <= 2 ^ (e1 + e2 - e))%Z).
      { change 2%Z with (2 ^ 1)%Z at 1. apply Z.pow_le_mono_r; lia. }
      rewrite P2 in V.
      assert (Zpos m = Zpos (m1 * m2) * 2 ^ (e1 + e2 - e))%Z
        by (rewrite V, M; lia).
      rewrite Pos2Z.inj_mul in *. nia. }
    replace (e1 + e2)%Z with (e - (e - e1 - e2))%Z by lia.
    apply binary_round_aux_exact; try assumption; try lia.
    rewrite M, V.
    replace (- e1 - e2)%Z with (- e + (e - e1 - e2))%Z by lia.
    rewrite Z.pow_add_r by lia. lia.
Qed.

(** Quotients of safe integers are exact when the division is. *)
Lemma num_div_exact (t y : Z) :
  (0 <= t)%Z -> (0 < y < two53)%Z -> (t * y < two53)%Z ->
  num_div (number_of_Z (t * y)) (number_of_Z y) = number_of_Z t.
Proof.
  intros T [Y By] S.
  assert (Bt : (t < two53)%Z) by (unfold two53 in *; nia).
  destruct (number_of_safe y ltac:(lia))
    as [[Z0 _]|(m2 & e2 & Ey & R2 & V2 & D2)]; [lia|].
  destruct (number_of_safe t ltac:(lia))
    as [[-> Et]|(m & e & Et & R & V & D)].
  - simpl Z.mul. rewrite Ey. reflexivity.
  - assert (P : (0 < t)%Z) by (destruct t; simpl in *; lia).
    destruct (number_of_safe (t * y) ltac:(nia))
      as [[Z0 _]|(m1 & e1 & Ex & R1 & V1 & D1)]; [nia|].
    rewrite Ex, Ey, Et. unfold num_div, SFdiv, SFdiv_core_binary.
    change (Zdigits2 (Zpos m1)) with (Zpos (digits2_pos m1)).
    change (Zdigits2 (Zpos m2)) with (Zpos (digits2_pos m2)).
    rewrite D1, D2.
    assert (F : Z.min (fexp prec emax (53 + e1 - (53 + e2))) (e1 - e2)
                = (e1 - e2 - 53)%Z)
      by (unfold fexp, emin, prec, emax; lia).
    rewrite F.
    replace (e1 - e2 - (e1 - e2 - 53))%Z with 53%Z by lia.
    rewrite Z.shiftl_mul_pow2 by lia.
    pose proof (digits2_pos_bounds m1) as B1. rewrite D1 in B1.
    pose proof (digits2_pos_bounds m2) as B2. rewrite D2 in B2.
    pose proof (digits2_pos_bounds m) as B. rewrite D in B.
    change (2 ^ (53 - 1))%Z with 4503599627370496%Z in *.
    assert (J : (0 <= e2 - e1 + 53 + e)%Z).
    { destruct (Z.le_gt_cases 0 (e2 - e1 + 53 + e)) as [L|L];
        [exact L|exfalso].
      (* m1 = m * m2 * 2^(-e1 + e + e2) would exceed 53 bits *)
      assert (E1 : (Zpos m1 * 2 ^ (e1 - e2 - e - 53) * 2 ^ 53
                    = Zpos m * Zpos m2)%Z).
      { rewrite V1, V, V2.
        replace (t * y * 2 ^ (- e1) * 2 ^ (e1 - e2 - e - 53) * 2 ^ 53)%Z
          with (t * y * (2 ^ (- e1) * 2 ^ (e1 - e2 - e - 53) * 2 ^ 53))%Z
          by ring.
        rewrite <- !Z.pow_add_r by lia.
        replace (- e1 + (e1 - e2 - e - 53) + 53)%Z with (- e + - e2)%Z by lia.
        rewrite Z.pow_add_r by lia. ring. }
      assert (T2 : (2 <= 2 ^ (e1 - e2 - e - 53))%Z).
      { change 2%Z with (2 ^ 1)%Z at 1. apply Z.pow_le_mono_r; lia. }
      change (2 ^ 53)%Z with 9007199254740992%Z in *. nia. }
    assert (Q : (Zpos m1 * 2 ^ 53
                 = Zpos m * 2 ^ (e2 - e1 + 53 + e) * Zpos m2)%Z).
    { rewrite V1, V, V2.
      replace (t * 2 ^ (- e) * 2 ^ (e2 - e1 + 53 + e) * (y * 2 ^ (- e2)))%Z
        with (t * y * (2 ^ (- e) * 2 ^ (e2 - e1 + 53 + e) * 2 ^ (- e2)))%Z
        by ring.
      rewrite <- !Z.pow_add_r by lia.
      replace (- e + (e2 - e1 + 53 + e) + - e2)%Z with (- e1 + 53)%Z by lia.
      rewrite Z.pow_add_r by lia. ring. }
    pose proof (Z.div_eucl_eq (Zpos m1 * 2 ^ 53) (Zpos m2) ltac:(lia)) as DE.
    pose proof (Z.mod_pos_bound (Zpos m1 * 2 ^ 53) (Zpos m2) ltac:(lia)) as MB.
    unfold Z.modulo in MB.
    destruct (Z.div_eucl (Zpos m1 * 2 ^ 53) (Zpos m2)) as [q r] eqn:DV.
    assert (QR : q = (Zpos m * 2 ^ (e2 - e1 + 53 + e))%Z /\ r = 0%Z).
    { rewrite Q in DE.
      assert (Zpos m2 * (Zpos m * 2 ^ (e2 - e1 + 53 + e) - q) = r)%Z by lia.
      assert (Zpos m * 2 ^ (e2 - e1 + 53 + e) - q = 0)%Z by nia. lia. }
    destruct QR as [-> ->].
    assert (L : new_location (Zpos m2) 0 = loc_Exact).
    { unfold new_location, new_location_even, new_location_odd.
      now destruct (Z.even (Zpos m2)). }
    rewrite L. cbn [xorb].
    assert (PX : (0 < Zpos m * 2 ^ (e2 - e1 + 53 + e))%Z)
      by (apply Z.mul_pos_pos; lia).
    destruct (Zpos m * 2 ^ (e2 - e1 + 53 + e))%Z as [|mx|mx] eqn:MX;
      try lia.
    replace (e1 - e2 - 53)%Z with (e - (e2 - e1 + 53 + e))%Z by lia.
    apply binary_round_aux_exact; try assumption; try lia.
Qed.

(** ** The operators on integers *)

Lemma integer_operation_exact operator (a n r : Z) :
  integer_operation operator a n = Some r ->
  (0 <= a < two53)%Z -> (0 <= n < two53)%Z -> (r < two53)%Z ->
  (0 <= r)%Z /\
  exists oname,
    default (VStr "+") operator = VStr oname /\ In oname kOperatorNames /\
    operator_of oname (VNum (number_of_Z a)) (VNum (number_of_Z n))
    = Normal (VNum (number_of_Z r)).
Proof.
  intros O A N R.
  assert (Plus : forall r, Some (a + n)%Z = Some r -> (r < two53)%Z ->
            (0 <= r)%Z /\
            operator_of "+" (VNum (number_of_Z a)) (VNum (number_of_Z n))
            = Normal (VNum (number_of_Z r))).
  { intros r0 E R0. injection E as <-. split; [lia|].
    cbn. now rewrite num_add_exact by lia. }
  destruct operator as [| | | |s| |]; try discriminate O.
  - split; [now apply Plus|]. exists ("+" : str).
    split; [reflexivity|]. split; [simpl; auto|]. now apply Plus.
  - unfold integer_operation in O.
    destruct (str_eqb s "+") eqn:E1.
    { apply str_eqb_eq in E1. subst s.
      split; [now apply Plus|]. exists ("+" : str).
      split; [reflexivity|]. split; [simpl; auto|]. now apply Plus. }
    destruct (str_eqb s "-") eqn:E2.
    { apply str_eqb_eq in E2. subst s.
      destruct (n <=? a)%Z eqn:L; [|discriminate]. apply Z.leb_le in L.
      injection O as <-. split; [lia|]. exists ("-" : str).
      split; [reflexivity|]. split; [simpl; auto|].
      cbn. now rewrite num_sub_exact by lia. }
    destruct (str_eqb s "*") eqn:E3.
    { apply str_eqb_eq in E3. subst s.
      injection O as <-. split; [nia|]. exists ("*" : str).
      split; [reflexivity|]. split; [simpl; auto|].
      cbn. now rewrite num_mul_exact by lia. }
    destruct (str_eqb s "/") eqn:E4; [|discriminate].
    apply str_eqb_eq in E4. subst s.
    destruct ((0 <? n)%Z && (a mod n =? 0)%Z) eqn:L; [|discriminate].
    apply andb_true_iff in L. destruct L as [L1 L2].
    apply Z.ltb_lt in L1. apply Z.eqb_eq in L2.
    injection O as <-.
    assert (Q : (a = a / n * n)%Z).
    { pose proof (Z.div_mod a n ltac:(lia)). lia. }
    assert (P : (0 <= a / n)%Z) by (apply Z.div_pos; lia).
    split; [exact P|]. exists ("/" : str).
    split; [reflexivity|]. split; [simpl; auto|].
    cbn. rewrite Q at 1. rewrite num_div_exact; try lia. reflexivity.
Qed.

Lemma adjustBy_integers this name operator (a n r : Z) :
  In name kNumericParts ->
  get this (VStr name) = VNum (number_of_Z a) ->
  integer_operation operator a n = Some r ->
  (0 <= a < two53)%Z -> (0 <= n < two53)%Z -> (r < two53)%Z ->
  (0 <= r)%Z /\
  adjustBy this (VStr name) (VNum (number_of_Z n)) operator =
  Normal (VNum (number_of_Z r), set this (VStr name) (VNum (number_of_Z r))).
Proof.
  intros I G O A N R.
  destruct (integer_operation_exact operator a n r O A N R)
    as (P & oname & D & IO & E).
  split; [exact P|].
  rewrite (adjustBy_guarded this name _ operator oname I D IO).
  unfold isFinite. cbn [ToNumber bind].
  rewrite number_of_safe_finite by lia. cbn [negb].
  rewrite G, E. reflexivity.
Qed.

Lemma set_set this name v w :
  set (set this (VStr name) v) (VStr name) w = set this (VStr name) w.
Proof.
  destruct this as [i ma mi pa pr bu]. unfold set. cbn [String_].
  destruct (str_eqb name "input"); [reflexivity|].
  destruct (str_eqb name kMajor); [reflexivity|].
  destruct (str_eqb name kMinor); [reflexivity|].
  destruct (str_eqb name kPatch); [reflexivity|].
  destruct (str_eqb name kPrerelease); [reflexivity|].
  destruct (str_eqb name kBuild); reflexivity.
Qed.

Lemma set_get this name :
  set this (VStr name) (get this (VStr name)) = this.
Proof.
  destruct this as [i ma mi pa pr bu]. unfold set, get. cbn [String_].
  destruct (str_eqb name "input"); [reflexivity|].
  destruct (str_eqb name kMajor); [reflexivity|].
  destruct (str_eqb name kMinor); [reflexivity|].
  destruct (str_eqb name kPatch); [reflexivity|].
  destruct (str_eqb name kPrerelease); [reflexivity|].
  destruct (str_eqb name kBuild); reflexivity.
Qed.

(** ** Values that are not strings *)

Lemma dots_app (a b : str) : dots (a ++ b) = (dots a + dots b)%nat.
Proof. apply count_occ_app. Qed.

Lemma dots_digits (t : str) : forallb is_digit t = true -> dots t = 0%nat.
Proof.
  induction t as [|x t IH]; [reflexivity|]. simpl.
  intros H. apply andb_true_iff in H. destruct H as [Hx Ht].
  unfold dots. cbn [count_occ].
  destruct (ascii_dec x ".") as [->|_]; [discriminate Hx|]. now apply IH.
Qed.

Lemma dots_decimal_digits (z : Z) : dots (decimal_digits z) = 0%nat.
Proof. apply dots_digits, digits_of_uint_digits. Qed.

Lemma dots_zeros (n : Z) : dots (zeros n) = 0%nat.
Proof.
  unfold zeros. induction (Z.to_nat n) as [|k IH]; [reflexivity|exact IH].
Qed.

Lemma dots_firstn_skipn (n : nat) (t : str) :
  (dots (firstn n t) + dots (skipn n t))%nat = dots t.
Proof. now rewrite <- dots_app, firstn_skipn. Qed.

(** A number is written with one dot at most. *)
Lemma dots_format_decimal (n k : Z) (ds : str) :
  dots ds = 0%nat -> (dots (format_decimal n k ds) <= 1)%nat.
Proof.
  intros D. unfold format_decimal.
  assert (E : forall e : Z,
             dots ((if (e <? 0)%Z then "-" else "+")
                   ++ decimal_digits (Z.abs e)) = 0%nat).
  { intros e. rewrite dots_app, dots_decimal_digits.
    now destruct (e <? 0)%Z. }
  destruct ((k <=? n) && (n <=? 21))%Z.
  { rewrite dots_app, dots_zeros, D. lia. }
  destruct ((0 <? n) && (n <=? 21))%Z.
  { rewrite dots_app. change (dots ("." ++ ?t)) with (S (dots t)).
    pose proof (dots_firstn_skipn (Z.to_nat n) ds). lia. }
  destruct ((-6 <? n) && (n <=? 0))%Z.
  { change (dots ("0." ++ ?t)) with (S (dots t)).
    rewrite dots_app, dots_zeros, D. lia. }
  destruct (k =? 1)%Z.
  - rewrite dots_app. change (dots ("e" ++ ?t)) with (dots t).
    rewrite E, D. lia.
  - rewrite dots_app. change (dots ("." ++ ?t)) with (S (dots t)).
    rewrite dots_app. change (dots ("e" ++ ?t)) with (dots t).
    rewrite E. pose proof (dots_firstn_skipn 1 ds). lia.
Qed.

Lemma dots_NumberToString (x : number) : (dots (NumberToString x) <= 1)%nat.
Proof.
  destruct x as [s|s| |s m e]; cbn [NumberToString].
  - cbn. lia.
  - destruct s; cbn; lia.
  - cbn. lia.
  - rewrite dots_app. unfold shortest_to_string.
    destruct (shortest _ _ _ _ _) as [[n k] d].
    pose proof (dots_format_decimal n k _ (dots_decimal_digits d)).
    destruct s; cbn [dots count_occ]; simpl; lia.
Qed.

(** A version has two dots at least. *)
Lemma dots_render maj min pat pre bld :
  (2 <= dots (render maj min pat pre bld))%nat.
Proof.
  unfold render. rewrite dots_app.
  change (dots ("." ++ ?t)) with (S (dots t)). rewrite dots_app.
  change (dots ("." ++ ?t)) with (S (dots t)). lia.
Qed.

Lemma render_head maj min pat pre bld :
  numeric_identifierb maj = true ->
  exists x w, render maj min pat pre bld = x :: w /\ is_digit x = true.
Proof.
  intros H. destruct maj as [|x maj]; [discriminate|].
  apply numeric_identifier_digits in H. simpl in H.
  apply andb_true_iff in H. destruct H as [H _].
  exists x. eexists. split; [reflexivity|exact H].
Qed.

(** No text of a value that is not a string is a version. *)
Lemma exec_regexp_String (v : value) :
  (forall s, v <> VStr s) -> exec SemVer.regexp (String_ v) = None.
Proof.
  intros N. destruct (exec SemVer.regexp (String_ v)) as [m|] eqn:E;
    [exfalso|reflexivity].
  apply exec_regexp_version in E.
  destruct E as (maj & min & pat & pre & bld & V & R & _).
  apply version_parts in V. destruct V as (A & _).
  pose proof (dots_render maj min pat pre bld) as D.
  destruct (render_head maj min pat pre bld A) as (x & w & H & X).
  rewrite <- R in D. rewrite <- R in H. clear R.
  destruct v as [| |[]|y|s|i d|z]; cbn [String_] in D, H.
  - cbn in D. lia.
  - cbn in D. lia.
  - cbn in D. lia.
  - cbn in D. lia.
  - pose proof (dots_NumberToString y). lia.
  - now apply (N s).
  - injection H as <- _. discriminate X.
  - unfold BigIntToString in D.
    rewrite dots_app, dots_decimal_digits in D.
    destruct (z <? 0)%Z; cbn in D; lia.
Qed.

Lemma format_decimal_head (n k : Z) (x : ascii) (w : str) :
  is_digit x = true ->
  exists y t, format_decimal n k (x :: w) = y :: t /\ is_digit y = true.
Proof.
  intros X. unfold format_decimal.
  destruct ((k <=? n) && (n <=? 21))%Z; [simpl; eauto|].
  destruct ((0 <? n) && (n <=? 21))%Z eqn:E.
  { apply andb_true_iff in E. destruct E as [E _]. apply Z.ltb_lt in E.
    destruct (Z.to_nat n) eqn:T; [lia|]. simpl. eauto. }
  destruct ((-6 <? n) && (n <=? 0))%Z; [simpl; eauto|].
  destruct (k =? 1)%Z; simpl; eauto.
Qed.

Lemma NumberToString_not_undefined (x : number) :
  str_eqb (NumberToString x) "undefined" = false.
Proof.
  destruct x as [s|s| |s m e]; try reflexivity.
  - now destruct s.
  - cbn [NumberToString]. unfold shortest_to_string.
    destruct (shortest _ _ _ _ _) as [[n k] d].
    pose proof (decimal_digits_numeric d) as N.
    destruct (numeric_identifier_nonempty _ N) as (y & w & E).
    apply numeric_identifier_digits in N. rewrite E in *.
    simpl in N. apply andb_true_iff in N. destruct N as [Y _].
    destruct (format_decimal_head n k y w Y) as (z & t & -> & Z).
    unfold str_eqb.
    destruct (list_eq_dec _ _ _) as [H|]; [|reflexivity].
    destruct s; simpl in H; [discriminate H|].
    injection H as -> _. discriminate Z.
Qed.

Lemma String_not_undefined (v : value) :
  v <> VUndefined -> (forall s, v <> VStr s) ->
  str_eqb (String_ v) "undefined" = false.
Proof.
  intros U N. destruct v as [| |[]|y|s|i d|z].
  - congruence.
  - reflexivity.
  - reflexivity.
  - reflexivity.
  - apply NumberToString_not_undefined.
  - now destruct (N s).
  - cbn [String_]. unfold str_eqb.
    destruct (list_eq_dec _ _ _) as [H|]; [discriminate H|reflexivity].
  - cbn [String_]. unfold BigIntToString, str_eqb.
    destruct (list_eq_dec _ _ _) as [H|]; [|reflexivity].
    destruct (z <? 0)%Z; simpl in H; [discriminate H|].
    pose proof (decimal_digits_numeric (Z.abs z)) as D.
    rewrite H in D. discriminate D.
Qed.

Lemma constructor_not_string (v : value) :
  v <> VUndefined -> (forall s, v <> VStr s) ->
  constructor v = Throw invalid_semver.
Proof.
  intros U N. rewrite constructor_text. unfold parsed_text.
  rewrite String_not_undefined by assumption.
  rewrite (test_unmatched (VStr (String_ v))); [reflexivity|].
  cbn [String_]. now apply exec_regexp_String.
Qed.

(** ** What the methods can throw, an object among the arguments *)








(* ================================================================== *)
(** ** Further properties *)
(* ================================================================== *)

Lemma set_numbered i a b c pre bld x :
  set (numbered i a b c pre bld) (VStr kMajor) (VNum (number_of_Z x))
  = numbered i x b c pre bld /\
  set (numbered i a b c pre bld) (VStr kMinor) (VNum (number_of_Z x))
  = numbered i a x c pre bld /\
  set (numbered i a b c pre bld) (VStr kPatch) (VNum (number_of_Z x))
  = numbered i a b x pre bld.
Proof. repeat split. Qed.

Lemma toString_numbered i a b c pre bld :
  (0 <= a < two53)%Z -> (0 <= b < two53)%Z -> (0 <= c < two53)%Z ->
  tagsb prerelease_identifierb pre = true ->
  tagsb build_identifierb bld = true ->
  toString (numbered i a b c pre bld)
  = Normal (render (decimal_digits a) (decimal_digits b) (decimal_digits c)
              pre bld).
Proof. apply toString_version. Qed.

(** X1 (the pattern of [regexp]): the pattern matches exactly the texts
    [major.minor.patch], optionally followed by [-] and a dotted list of
    pre-release identifiers and by [+] and a dotted list of build
    identifiers, the numeric parts and numeric pre-release identifiers
    without leading zeros; the array of the match holds the whole text,
    the three numeric identifiers and the two dotted lists, one left
    out being absent. *)
Theorem regexp_language (s : str) (m : captures) :
  exec SemVer.regexp s = Some m <->
  exists maj min pat pre bld,
    version maj min pat pre bld = true /\
    s = render maj min pat pre bld /\
    m = [Some s; Some maj; Some min; Some pat;
         option_map join pre; option_map join bld].
Proof. apply exec_regexp_version. Qed.

Lemma regexp_language_witness :
  exec SemVer.regexp "1.0.0-rc.1+build.5"
  = Some [Some ("1.0.0-rc.1+build.5" : str); Some ("1" : str);
          Some ("0" : str); Some ("0" : str);
          Some ("rc.1" : str); Some ("build.5" : str)].
Proof.
  apply (proj2 (regexp_language _ _)).
  exists ("1" : str), ("0" : str), ("0" : str),
         (Some [("rc" : str); ("1" : str)]),
         (Some [("build" : str); ("5" : str)]).
  split; [vm_compute; reflexivity|]. split; reflexivity.
Defined.

(** X2 (constructor, test): the constructor returns an instance exactly
    when the text it parses is a version of the grammar, and the instance
    then holds that text, the numbers nearest to the three numeric
    identifiers and the two dotted lists as they were written. *)
Theorem constructor_language (input : value) (this : instance) :
  constructor input = Normal this <->
  exists maj min pat pre bld,
    version maj min pat pre bld = true /\
    parsed_text input = render maj min pat pre bld /\
    this = built (parsed_text input) maj min pat pre bld.
Proof. apply constructor_version. Qed.

Lemma constructor_language_witness :
  constructor (VStr "1.2.3-rc.1+build.5") = Normal v123rc.
Proof.
  apply (proj2 (constructor_language _ _)).
  exists ("1" : str), ("2" : str), ("3" : str),
         (Some [("rc" : str); ("1" : str)]),
         (Some [("build" : str); ("5" : str)]).
  split; [vm_compute; reflexivity|]. split; vm_compute; reflexivity.
Defined.

(** X3 (toString, constructor): an instance whose numeric parts are
    integers from 0 below 2^53 and whose pre-release and build parts are
    dotted lists of valid identifiers (or missing) renders as a text that
    the constructor accepts, and the instance built from that text has
    the same five parts. *)
Theorem reparse (i : value) (a b c : Z) (pre bld : option (list str)) :
  (0 <= a < two53)%Z -> (0 <= b < two53)%Z -> (0 <= c < two53)%Z ->
  tagsb prerelease_identifierb pre = true ->
  tagsb build_identifierb bld = true ->
  exists s,
    toString (numbered i a b c pre bld) = Normal s /\
    constructor (VStr s) = Normal (numbered (VStr s) a b c pre bld).
Proof.
  intros A B C P Q. eexists. split; [now apply toString_numbered|].
  rewrite constructor_render.
  - unfold built, numbered. now rewrite !decimal_value_digits by lia.
  - apply version_parts. rewrite !decimal_digits_numeric. auto.
Qed.

Lemma reparse_witness :
  exists s,
    toString v123rc = Normal s /\
    constructor (VStr s)
    = Normal (numbered (VStr s) 1 2 3
                (Some [("rc" : str); ("1" : str)])
                (Some [("build" : str); ("5" : str)])).
Proof.
  apply (reparse (VStr "1.2.3-rc.1+build.5") 1 2 3);
    vm_compute; intuition discriminate.
Defined.

(** X4 (adjustBy and the four operators): on a numeric part that holds
    an integer from 0 below 2^53, with such an integer as the amount, the
    operators compute exactly: the part becomes the sum, the difference
    (amount at most the part), the product or the quotient (amount a
    divisor of the part) whenever that is below 2^53, and it is what the
    call returns. *)
Theorem adjustBy_exact this name operator (a n r : Z) :
  In name kNumericParts ->
  get this (VStr name) = VNum (number_of_Z a) ->
  integer_operation operator a n = Some r ->
  (0 <= a < two53)%Z -> (0 <= n < two53)%Z -> (r < two53)%Z ->
  (0 <= r)%Z /\
  adjustBy this (VStr name) (VNum (number_of_Z n)) operator =
  Normal (VNum (number_of_Z r), set this (VStr name) (VNum (number_of_Z r))).
Proof. apply adjustBy_integers. Qed.

Lemma adjustBy_exact_witness :
  (0 <= 4)%Z /\
  adjustBy v123rc (VStr "minor") (VNum (number_of_Z 2)) (VStr "*") =
  Normal (VNum (number_of_Z 4),
          set v123rc (VStr "minor") (VNum (number_of_Z 4))).
Proof.
  apply (adjustBy_exact v123rc "minor" (VStr "*") 2 2 4);
    vm_compute; intuition discriminate.
Defined.

(** X5 (bump, toString): bumping a numeric part of a version with parts
    below 2^53 adds one to that part and leaves the others as they are
    (a lower part is not reset); the instance then renders with the
    digits of the new number. *)
Theorem bump_renders (i : value) (a b c : Z) (pre bld : option (list str)) :
  (0 <= a < two53 - 1)%Z -> (0 <= b < two53 - 1)%Z ->
  (0 <= c < two53 - 1)%Z ->
  tagsb prerelease_identifierb pre = true ->
  tagsb build_identifierb bld = true ->
  let this := numbered i a b c pre bld in
  bump this (VStr kMajor) VUndefined
  = Normal (VNum (number_of_Z (a + 1)), numbered i (a + 1) b c pre bld) /\
  bump this (VStr kMinor) VUndefined
  = Normal (VNum (number_of_Z (b + 1)), numbered i a (b + 1) c pre bld) /\
  bump this (VStr kPatch) VUndefined
  = Normal (VNum (number_of_Z (c + 1)), numbered i a b (c + 1) pre bld) /\
  toString (numbered i (a + 1) b c pre bld)
  = Normal (render (decimal_digits (a + 1)) (decimal_digits b)
              (decimal_digits c) pre bld) /\
  toString (numbered i a (b + 1) c pre bld)
  = Normal (render (decimal_digits a) (decimal_digits (b + 1))
              (decimal_digits c) pre bld) /\
  toString (numbered i a b (c + 1) pre bld)
  = Normal (render (decimal_digits a) (decimal_digits b)
              (decimal_digits (c + 1)) pre bld).
Proof.
  intros A B C P Q this.
  assert (S1 : (0 <= 1 < two53)%Z) by (unfold two53; lia).
  assert (G : forall name x,
            In name kNumericParts ->
            get this (VStr name) = VNum (number_of_Z x) ->
            (0 <= x < two53 - 1)%Z ->
            bump this (VStr name) VUndefined
            = Normal (VNum (number_of_Z (x + 1)),
                      set this (VStr name) (VNum (number_of_Z (x + 1))))).
  { intros name x I G X. unfold bump. cbn [default].
    apply (adjustBy_integers this name VUndefined x 1 (x + 1));
      try assumption; try reflexivity; lia. }
  repeat split.
  - apply (G kMajor a); [simpl; auto|reflexivity|assumption].
  - apply (G kMinor b); [simpl; auto|reflexivity|assumption].
  - apply (G kPatch c); [simpl; auto|reflexivity|assumption].
  - apply toString_numbered; try assumption; lia.
  - apply toString_numbered; try assumption; lia.
  - apply toString_numbered; try assumption; lia.
Qed.

Lemma bump_renders_witness :
  bump v123rc (VStr kMinor) VUndefined
  = Normal (VNum (number_of_Z 3),
            numbered (VStr "1.2.3-rc.1+build.5") 1 3 3
              (Some [("rc" : str); ("1" : str)])
              (Some [("build" : str); ("5" : str)])) /\
  toString (numbered (VStr "1.2.3-rc.1+build.5") 1 3 3
              (Some [("rc" : str); ("1" : str)])
              (Some [("build" : str); ("5" : str)]))
  = Normal ("1.3.3-rc.1+build.5" : str).
Proof.
  assert (A : (0 <= 1 < two53 - 1)%Z) by (vm_compute; intuition discriminate).
  assert (B : (0 <= 2 < two53 - 1)%Z) by (vm_compute; intuition discriminate).
  assert (C : (0 <= 3 < two53 - 1)%Z) by (vm_compute; intuition discriminate).
  pose proof (bump_renders (VStr "1.2.3-rc.1+build.5") 1 2 3
                (Some [("rc" : str); ("1" : str)])
                (Some [("build" : str); ("5" : str)])
                A B C eq_refl eq_refl) as H.
  cbv zeta in H. destruct H as (_ & H2 & _ & _ & H5 & _).
  split; [exact H2|exact H5].
Defined.

(** X6 (adjustBy): adding an amount to a numeric part and subtracting it
    again gives the instance back, as long as the sum is below 2^53. *)
Theorem adjustBy_undo this name (a n : Z) :
  In name kNumericParts ->
  get this (VStr name) = VNum (number_of_Z a) ->
  (0 <= a)%Z -> (0 <= n)%Z -> (a + n < two53)%Z ->
  exists this',
    adjustBy this (VStr name) (VNum (number_of_Z n)) (VStr "+")
    = Normal (VNum (number_of_Z (a + n)), this') /\
    adjustBy this' (VStr name) (VNum (number_of_Z n)) (VStr "-")
    = Normal (VNum (number_of_Z a), this).
Proof.
  intros I G A N S.
  destruct (adjustBy_integers this name (VStr "+") a n (a + n) I G eq_refl)
    as [_ E1]; try lia.
  eexists. split; [exact E1|].
  destruct (adjustBy_integers
              (set this (VStr name) (VNum (number_of_Z (a + n))))
              name (VStr "-") (a + n) n a I) as [_ E2]; try lia.
  - now apply get_set, numeric_parts_all.
  - cbn. replace (n <=? a + n)%Z with true by (symmetry; apply Z.leb_le; lia).
    f_equal. lia.
  - rewrite E2, set_set, <- G, set_get. reflexivity.
Qed.

Lemma adjustBy_undo_witness :
  exists this',
    adjustBy v123rc (VStr "patch") (VNum (number_of_Z 7)) (VStr "+")
    = Normal (VNum (number_of_Z (3 + 7)), this') /\
    adjustBy this' (VStr "patch") (VNum (number_of_Z 7)) (VStr "-")
    = Normal (VNum (number_of_Z 3), v123rc).
Proof.
  apply (adjustBy_undo v123rc "patch" 3 7);
    vm_compute; intuition discriminate.
Defined.



(** X8 (adjustBy, kAdd): an amount given as a numeric string passes the
    finiteness check, and the default operator [+] then concatenates: the
    numeric part becomes the text of the old number followed by the
    amount, so the instance no longer has a number there; with [-] the
    amount is converted and the part stays a number. *)
Theorem adjustBy_text_amount this name cur (t : str) :
  In name kNumericParts -> get this (VStr name) = VNum cur ->
  num_is_finite (StringToNumber t) = true ->
  adjustBy this (VStr name) (VStr t) VUndefined
  = Normal (VStr (NumberToString cur ++ t),
            set this (VStr name) (VStr (NumberToString cur ++ t))) /\
  well_formed (set this (VStr name) (VStr (NumberToString cur ++ t)))
  = false /\
  adjustBy this (VStr name) (VStr t) (VStr "-")
  = Normal (VNum (num_sub cur (StringToNumber t)),
            set this (VStr name) (VNum (num_sub cur (StringToNumber t)))).
Proof.
  intros I G F. split; [|split].
  - rewrite (adjustBy_text this name cur t VUndefined "+" I G eq_refl);
      [reflexivity|simpl; auto|exact F].
  - now apply set_numeric_text.
  - rewrite (adjustBy_text this name cur t (VStr "-") "-" I G eq_refl);
      [reflexivity|simpl; auto|exact F].
Qed.

Lemma adjustBy_text_amount_witness :
  adjustBy v123rc (VStr "major") (VStr "1") VUndefined
  = Normal (VStr "11", set v123rc (VStr "major") (VStr "11")).
Proof.
  refine (proj1 (adjustBy_text_amount v123rc "major" (number_of_Z 1) "1"
                   _ _ _)); vm_compute; auto.
Defined.

(** X9 (adjustBy, kDivide): dividing a numeric part that holds a finite
    number by zero is not refused: the call returns, and stores, a number
    that is not finite (an infinity, or NaN when the part is zero). *)
Theorem adjustBy_divide_by_zero this name cur (negative : bool) :
  In name kNumericParts -> get this (VStr name) = VNum cur ->
  num_is_finite cur = true ->
  exists r,
    adjustBy this (VStr name) (VNum (S754_zero negative)) (VStr "/")
    = Normal (VNum r, set this (VStr name) (VNum r)) /\
    num_is_finite r = false /\
    (num_is_nan r = true <-> exists s, cur = S754_zero s).
Proof.
  intros I G F. exists (num_div cur (S754_zero negative)). split; [|split].
  - rewrite (adjustBy_guarded this name _ (VStr "/") "/" I eq_refl);
      [|simpl; auto].
    rewrite G.
    assert (E : operator_of "/" (VNum cur) (VNum (S754_zero negative))
                = Normal (VNum (num_div cur (S754_zero negative))))
      by reflexivity.
    rewrite E. reflexivity.
  - destruct cur; try discriminate F; reflexivity.
  - destruct cur as [s|s| |s m e]; try discriminate F; cbn.
    + split; eauto.
    + split; [discriminate|]. intros [s' H]. discriminate H.
Qed.

Lemma adjustBy_divide_by_zero_witness :
  exists r,
    adjustBy v123rc (VStr "major") (VNum (S754_zero false)) (VStr "/")
    = Normal (VNum r, set v123rc (VStr "major") (VNum r)) /\
    num_is_finite r = false /\
    (num_is_nan r = true <-> exists s, number_of_Z 1 = S754_zero s).
Proof.
  apply (adjustBy_divide_by_zero v123rc "major" (number_of_Z 1) false);
    vm_compute; auto.
Defined.

(** X10 (test, constructor): no primitive value other than a string
    parses: for undefined, null, the booleans, every number, every
    symbol and every BigInt [test] returns null, and the constructor
    throws its TypeError for each of them but [undefined].  An object
    is parsed as the string it converts to. *)
Theorem non_strings_rejected (v : value) :
  (forall s, v <> VStr s) ->
  Any.test (Any.Primitive v) = Normal None /\
  (v <> VUndefined ->
   Any.constructor (Any.Primitive v) = Throw invalid_semver) /\
  (forall toPrimitive s,
     toPrimitive Any.hint_string = Normal (VStr s) ->
     Any.test (Any.Object toPrimitive) = test (VStr s) /\
     Any.constructor (Any.Object toPrimitive) = constructor (VStr s)).
Proof.
  intros N. split; [|split].
  - rewrite test_Primitive. now apply test_unmatched, exec_regexp_String.
  - intros U. rewrite constructor_Primitive. now apply constructor_not_string.
  - intros conv s E.
    split; [apply test_text|apply constructor_of_text];
      cbn [Any.String_]; now rewrite E.
Qed.

Lemma non_strings_rejected_witness :
  Any.test (Any.Primitive (VNum (number_of_decimal 15 (-1)))) = Normal None /\
  (VNum (number_of_decimal 15 (-1)) <> VUndefined ->
   Any.constructor (Any.Primitive (VNum (number_of_decimal 15 (-1))))
   = Throw invalid_semver) /\
  (forall toPrimitive s,
     toPrimitive Any.hint_string = Normal (VStr s) ->
     Any.test (Any.Object toPrimitive) = test (VStr s) /\
     Any.constructor (Any.Object toPrimitive) = constructor (VStr s)).
Proof.
  apply (non_strings_rejected (VNum (number_of_decimal 15 (-1)))).
  intros s H. discriminate H.
Defined.

(** X11 (constructor): the [input] an instance stores builds the same
    instance again. *)
Theorem constructor_input_recreates (input : value) (this : instance) :
  constructor input = Normal this ->
  constructor (SemVer.input this) = Normal this.
Proof.
  intros H. rewrite (constructor_input_text _ _ H).
  now rewrite constructor_parsed_text.
Qed.

Lemma constructor_input_recreates_witness :
  constructor (SemVer.input v000) = Normal v000.
Proof.
  apply (constructor_input_recreates VUndefined). vm_compute. reflexivity.
Defined.

Lemma adjustTo_digits this name (ds : str) :
  In name kNumericParts -> ds <> [] -> forallb is_digit ds = true ->
  adjustTo this (VStr name) (VStr ds)
  = Normal (VNum (number_of_Z (decimal_value ds)),
            set this (VStr name) (VNum (number_of_Z (decimal_value ds)))).
Proof.
  intros I N D. rewrite (adjustTo_numeric this name _ I).
  cbn [Number_ ToNumber bind].
  rewrite (StringToNumber_digits ds N D), number_of_Z_not_nan. reflexivity.
Qed.

(** X12 (adjustTo, toString): a numeric part set from a string of digits
    holds the number the digits denote, and the version then renders with
    that number's own digits: leading zeros are not kept. *)
Theorem adjustTo_numeral (i : value) (a b c : Z)
    (pre bld : option (list str)) (ds : str) :
  ds <> [] -> forallb is_digit ds = true -> (decimal_value ds < two53)%Z ->
  (0 <= b < two53)%Z -> (0 <= c < two53)%Z ->
  tagsb prerelease_identifierb pre = true ->
  tagsb build_identifierb bld = true ->
  adjustTo (numbered i a b c pre bld) (VStr kMajor) (VStr ds)
  = Normal (VNum (number_of_Z (decimal_value ds)),
            numbered i (decimal_value ds) b c pre bld) /\
  toString (numbered i (decimal_value ds) b c pre bld)
  = Normal (render (decimal_digits (decimal_value ds)) (decimal_digits b)
              (decimal_digits c) pre bld) /\
  numeric_identifierb (decimal_digits (decimal_value ds)) = true.
Proof.
  intros N D S B C P Q. split; [|split].
  - rewrite adjustTo_digits by (assumption || (simpl; auto)). reflexivity.
  - apply toString_numbered; try assumption.
    split; [apply decimal_value_nonneg|assumption].
  - apply decimal_digits_numeric.
Qed.

Lemma adjustTo_numeral_witness :
  adjustTo v123rc (VStr kMajor) (VStr "007")
  = Normal (VNum (number_of_Z (decimal_value "007")),
            numbered (VStr "1.2.3-rc.1+build.5") (decimal_value "007") 2 3
              (Some [("rc" : str); ("1" : str)])
              (Some [("build" : str); ("5" : str)])) /\
  toString (numbered (VStr "1.2.3-rc.1+build.5") (decimal_value "007") 2 3
              (Some [("rc" : str); ("1" : str)])
              (Some [("build" : str); ("5" : str)]))
  = Normal (render (decimal_digits (decimal_value "007")) (decimal_digits 2)
              (decimal_digits 3)
              (Some [("rc" : str); ("1" : str)])
              (Some [("build" : str); ("5" : str)])) /\
  numeric_identifierb (decimal_digits (decimal_value "007")) = true.
Proof.
  apply (adjustTo_numeral (VStr "1.2.3-rc.1+build.5") 1 2 3
           (Some [("rc" : str); ("1" : str)])
           (Some [("build" : str); ("5" : str)]) "007");
    vm_compute; intuition discriminate.
Defined.

(** X13 (constructor, toString): an instance given to the constructor is
    copied through its text: for an instance whose numeric parts are
    integers from 0 below 2^53 and whose pre-release and build parts are
    dotted lists of valid identifiers (or missing), the constructor
    returns an instance with the same five parts, whose input is the
    text of the one given. *)
Theorem copy_constructor (i : value) (a b c : Z)
    (pre bld : option (list str)) :
  (0 <= a < two53)%Z -> (0 <= b < two53)%Z -> (0 <= c < two53)%Z ->
  tagsb prerelease_identifierb pre = true ->
  tagsb build_identifierb bld = true ->
  exists s,
    toString (numbered i a b c pre bld) = Normal s /\
    Any.constructor (Any.of_instance (numbered i a b c pre bld))
    = Normal (numbered (VStr s) a b c pre bld).
Proof.
  intros A B C P Q. eexists. split; [now apply toString_numbered|].
  unfold Any.constructor, Any.of_instance. cbn [Any.String_].
  rewrite toString_numbered by assumption. cbn [bind ToString String_].
  rewrite constructor_render.
  - unfold built, numbered. now rewrite !decimal_value_digits by lia.
  - apply version_parts. rewrite !decimal_digits_numeric. auto.
Qed.

Lemma copy_constructor_witness :
  exists s,
    toString v123rc = Normal s /\
    Any.constructor (Any.of_instance v123rc)
    = Normal (numbered (VStr s) 1 2 3
                (Some [("rc" : str); ("1" : str)])
                (Some [("build" : str); ("5" : str)])).
Proof.
  apply (copy_constructor (VStr "1.2.3-rc.1+build.5") 1 2 3);
    vm_compute; intuition discriminate.
Defined.
